(** * mhtml_indexer: the batched indexing pipeline of [src/mhtmlBlobIndexer.ts]

    A shallow embedding of [MhtmlBlobIndexer]: the submission client
    [indexMhtmlFile], the batch orchestrator [indexSourceMhtmlFiles] and the
    run coordinator [indexAllMhtmlFiles], with the properties of their
    retry, circuit-breaker, batching and reporting behaviour.

    Modelling choices.
    - JavaScript numbers that hold integers ([attempt], [maxRetries], the
      consecutive-timeout counter and its ceiling, HTTP status codes,
      milliseconds) are [Z]; list positions and the concurrency level are
      [nat]; lengths reported in a partition report are [nat].
    - Buffers and strings are [string]; a thrown error is the text it shows.
    - The object store and the indexing endpoint are a [World]: a table of
      what each call answers.
    - The mutable field [this.consecutiveTimeouts] and everything the
      process does to the outside are threaded through a [State].
    - [process.exit], a rejected promise and a promise that has not settled
      are the constructors of [Outcome].
    - The members of a batch run as cooperative tasks: a [Task] is a member
      suspended at one of its [await]s, [resume] runs it to its next
      [await], and a schedule says in which order the pending [await]s of a
      batch complete.
    - The text of a document ([Buffer.toString('utf-8')] and the strings
      handed to [MhtmlParser]) is a list of UTF-16 code units, so that
      [\s], [.] and [trim] are the sets of the language; blob names stay
      byte strings, the patterns applied to them being ASCII.
    - Regular expressions are run by a backtracking matcher ([RegExp]).
    - The JSON client [RagIndexer] is modelled in its two versions: the one
      of [src/api/ragIndexer.ts] with a trace of its POSTs and pauses, the
      retrying copy by what each batch member returns, posts and waits. *)

From Stdlib Require Import ZArith Lia List String Ascii Bool DecimalString.
From stdpp Require Import base list strings numbers.

Local Open Scope Z_scope.

(** ** Data model *)

Inductive Source := qast | stock.

(** [IndexingResult] of the source; the optional fields are [option]s. *)
Record IndexingResult := {
  success : bool;
  blobName : string;
  source : Source;
  error : option string;
  statusCode : option Z
}.

(** [response.text()] either resolves with the body or rejects; [shown] is
    the rejection as [`${error}`] prints it. *)
Inductive Body :=
| Text (text : string)
| Unreadable (shown : string).

(** How the [fetch] of one attempt settles: a response, the abort raised by
    the attempt's own timer ([AbortError]), or any other rejection. *)
Inductive FetchOutcome :=
| Response (status : Z) (body : Body)
| AbortError
| NetworkError (message : string).

(** The multipart form posted to the endpoint. *)
Record Request := {
  file : string;
  filename : string;
  index_type : Source;
  blob_url : string;
  source_url : option string
}.

(** What [blockBlobClient.download()] gives. *)
Inductive DownloadOutcome :=
| Stream (bytes : string)
| NoStream
| DownloadFailed (shown : string).

(** The collaborators. [fetch w n req timeoutMs] is how the [n]-th POST of
    the process (counted from 0, in the order the calls are issued) settles
    when its abort timer is armed with [timeoutMs]. *)
Record World := {
  getProperties : option string;
  listBlobsFlat : string -> string -> string + list string;
  download : string -> string -> DownloadOutcome;
  fetch : nat -> Request -> Z -> FetchOutcome
}.

(** The process environment, after [parseInt] and the [||] defaults. *)
Record Config := {
  indexEndpoint : string;
  storageAccount : string;
  MAX_CONSECUTIVE_TIMEOUTS : Z;
  TIMEOUT_MS : Z;
  MAX_RETRIES : Z;
  CONCURRENCY : nat;
  DELAY_MS : Z
}.

(** Hard-coded defaults of the source. *)
Definition defaults : Config := {|
  indexEndpoint := "https://yuyama-rag-chatbot-api-cus.azurewebsites.net/reindex-from-blob";
  storageAccount := "yuyamablobstorage";
  MAX_CONSECUTIVE_TIMEOUTS := 10;
  TIMEOUT_MS := 30000;
  MAX_RETRIES := 3;
  CONCURRENCY := 3;
  DELAY_MS := 500
|}.

(** ** Observations *)

(** Who acts: the orchestrator itself, or the member task of the document
    at position [g] of the listing. *)
Inductive Who := Main | Doc (g : nat).

Inductive Action :=
| GetProperties
| ListBlobs (containerName prefix : string)
| Download (blobName : string)
| Post (blobName : string) (attempt : Z)
| PostSettled (o : FetchOutcome)
| Sleep (ms : Z)
| Fulfilled (success : bool)
| ProcessExit (code : Z).

Definition Event : Type := Who * Action.

Record State := {
  consecutiveTimeouts : Z;
  trace : list Event
}.

(** A fresh [MhtmlBlobIndexer] in a fresh process. *)
Definition initial : State := {| consecutiveTimeouts := 0; trace := [] |}.

Definition log (who : Who) (a : Action) (st : State) : State :=
  {| consecutiveTimeouts := consecutiveTimeouts st;
     trace := trace st ++ [(who, a)] |}.

Definition setCounter (c : Z) (st : State) : State :=
  {| consecutiveTimeouts := c; trace := trace st |}.

Definition isPost (e : Event) : bool :=
  match e with (_, Post _ _) => true | _ => false end.

Definition isExit (e : Event) : bool :=
  match e with (_, ProcessExit _) => true | _ => false end.

(** Number of POSTs issued so far. *)
Definition posts (tr : list Event) : nat := length (List.filter isPost tr).

(** How an asynchronous call ends. *)
Inductive Outcome (A : Type) :=
| Returned (a : A)
| Threw (shown : string)
| Exited (code : Z)
| Pending.

Arguments Returned {A} a.
Arguments Threw {A} shown.
Arguments Exited {A} code.
Arguments Pending {A}.

(** ** Submission client: [indexMhtmlFile] *)

Definition showZ (z : Z) : string := NilZero.string_of_int (Z.to_int z).

(** [response.ok] *)
Definition ok (status : Z) : bool := (200 <=? status) && (status <=? 299).

Definition errorText (body : Body) : string :=
  match body with
  | Text text => text
  | Unreadable shown => "レスポンス読み取り失敗: " +:+ shown
  end.

Definition generateBlobUrl (cfg : Config) (containerName blobName : string) : string :=
  "https://" +:+ storageAccount cfg +:+ ".blob.core.windows.net/"
    +:+ containerName +:+ "/" +:+ blobName.

(** [if (sourceUrl)]: absent and empty are both falsy. *)
Definition truthy (sourceUrl : option string) : option string :=
  match sourceUrl with
  | Some s => if String.eqb s "" then None else Some s
  | None => None
  end.

Definition formData (cfg : Config) (containerName blobName fileBuffer : string)
    (indexType : Source) (sourceUrl : option string) : Request :=
  {| file := fileBuffer;
     filename := blobName;
     index_type := indexType;
     blob_url := generateBlobUrl cfg containerName blobName;
     source_url := truthy sourceUrl |}.

(** What one iteration of the retry loop decides once its [fetch] has settled. *)
Inductive Step :=
| Return (r : IndexingResult)
| Exit (code : Z)
| Retry (ms : Z)
| Next.

(** The result returned below the loop. *)
Definition exhausted (blobName : string) (indexType : Source) (maxRetries : Z) : IndexingResult :=
  {| success := false;
     blobName := blobName;
     source := indexType;
     error := Some (showZ maxRetries +:+ "回のリトライ後も失敗");
     statusCode := None |}.

(** The body of the loop from the point where [fetch] settles: the new value
    of [this.consecutiveTimeouts] and what the loop does next. The statements
    between the outer [try] and the [fetch] (building the form, arming the
    timer, logging) cannot throw on these types, so the outer [catch] has no
    case here. *)
Definition afterFetch (cfg : Config) (blobName : string) (indexType : Source)
    (attempt maxRetries : Z) (o : FetchOutcome) (consecutiveTimeouts : Z) : Z * Step :=
  match o with
  | Response status body =>
      if ok status then
        (0, Return {| success := true;
                      blobName := blobName;
                      source := indexType;
                      error := None;
                      statusCode := Some status |})
      else
        (consecutiveTimeouts,
         Return {| success := false;
                   blobName := blobName;
                   source := indexType;
                   error := Some ("HTTP " +:+ showZ status +:+ ": " +:+ errorText body);
                   statusCode := Some status |})
  | AbortError =>
      let consecutiveTimeouts := consecutiveTimeouts + 1 in
      if consecutiveTimeouts >=? MAX_CONSECUTIVE_TIMEOUTS cfg then
        (consecutiveTimeouts, Exit 1)
      else if attempt <? maxRetries then
        (consecutiveTimeouts, Retry (2000 * attempt))
      else
        (consecutiveTimeouts, Next)
  | NetworkError _ =>
      if attempt <? maxRetries then
        (consecutiveTimeouts, Retry (1000 * attempt))
      else
        (consecutiveTimeouts, Next)
  end.

(** The value [afterFetch] leaves in [this.consecutiveTimeouts], by outcome
    alone ([afterFetch_counter]). *)
Definition counterAfter (o : FetchOutcome) (c : Z) : Z :=
  match o with
  | Response status _ => if ok status then 0 else c
  | AbortError => c + 1
  | NetworkError _ => c
  end.

Definition isResponse (o : FetchOutcome) : bool :=
  match o with Response _ _ => true | _ => false end.

(** Does the settled POST take the [process.exit(1)] branch? *)
Definition trips (cfg : Config) (o : FetchOutcome) (c : Z) : bool :=
  match o with
  | AbortError => c + 1 >=? MAX_CONSECUTIVE_TIMEOUTS cfg
  | _ => false
  end.

(** Number of [AbortError]s among the [j] POSTs numbered from [n] on. *)
Fixpoint timeoutsAmong (w : World) (req : Request) (timeoutMs : Z) (n j : nat) : Z :=
  match j with
  | O => 0
  | S j' =>
      (match fetch w n req timeoutMs with AbortError => 1 | _ => 0 end)
      + timeoutsAmong w req timeoutMs (S n) j'
  end.

(** [needle] occurs somewhere in [hay]. *)
Fixpoint occurs (needle hay : string) : bool :=
  String.prefix needle hay
  || match hay with
     | EmptyString => false
     | String _ hay' => occurs needle hay'
     end.

(** The error detail of a result mentions [detail]. *)
Definition carries (detail : string) (r : IndexingResult) : Prop :=
  exists e, error r = Some e /\ occurs detail e = true.

Section Submission.
Variable w : World.
Variable cfg : Config.
(** Label of the caller in the trace. *)
Variable who : Who.
Variables containerName blobName fileBuffer : string.
Variable indexType : Source.
Variable sourceUrl : option string.
Variables timeoutMs maxRetries : Z.

(** [for (let attempt = 1; attempt <= maxRetries; attempt++)]. [fuel]
    bounds the number of iterations; [attempts_settles] shows that the
    bound [indexMhtmlFile] passes is never reached. *)
Fixpoint attempts (fuel : nat) (attempt : Z) (st : State) : Outcome IndexingResult * State :=
  if attempt <=? maxRetries then
    match fuel with
    | O => (Pending, st)
    | S fuel' =>
        let req := formData cfg containerName blobName fileBuffer indexType sourceUrl in
        let o := fetch w (posts (trace st)) req timeoutMs in
        let st := log who (PostSettled o) (log who (Post blobName attempt) st) in
        let '(c, step) := afterFetch cfg blobName indexType attempt maxRetries o
                            (consecutiveTimeouts st) in
        let st := setCounter c st in
        match step with
        | Return r => (Returned r, st)
        | Exit code => (Exited code, log who (ProcessExit code) st)
        | Retry ms => attempts fuel' (attempt + 1) (log who (Sleep ms) st)
        | Next => attempts fuel' (attempt + 1) st
        end
    end
  else
    (Returned (exhausted blobName indexType maxRetries), st).

Definition indexMhtmlFile (st : State) : Outcome IndexingResult * State :=
  attempts (Z.to_nat maxRetries) 1 st.

End Submission.

(** ** Member tasks of a batch

    The closure that [batch.map] runs for one member, cut at its [await]s.
    A [Task] is the member suspended at an [await]; [AwaitFetch] carries
    how the pending POST will settle, fixed when the call was issued. *)

Inductive Task :=
| AwaitDelay
| AwaitDownload
| AwaitFetch (fileBuffer : string) (sourceUrl : option string) (attempt : Z) (o : FetchOutcome)
| AwaitBackoff (fileBuffer : string) (sourceUrl : option string) (attempt : Z)
| Settled (r : IndexingResult).

Inductive Resumed :=
| Suspended (t : Task)
| Halted (code : Z).

Definition containerOf (source : Source) : string :=
  match source with qast => "qast-mhtml" | stock => "stock-mhtml" end.

Definition prefixOf (source : Source) : string :=
  match source with qast => "qast-mhtml/data" | stock => "stock-mhtml/data" end.

(** [downloadBlob]: the Buffer, or the message of the [Error] it throws. *)
Definition downloadBlob (w : World) (containerName blobName : string) : string + string :=
  match download w containerName blobName with
  | Stream bytes => inr bytes
  | NoStream =>
      inl ("Blobダウンロードエラー (" +:+ blobName +:+ "): "
             +:+ "Error: ダウンロードストリームが取得できません")
  | DownloadFailed shown =>
      inl ("Blobダウンロードエラー (" +:+ blobName +:+ "): " +:+ shown)
  end.

(** [s.endsWith(suffix)] *)
Definition endsWith (s suffix : string) : bool :=
  let n := String.length s in
  let k := String.length suffix in
  (k <=? n)%nat && String.eqb (substring (n - k) k s) suffix.

(** [l.slice(i, j)] for [0 <= i <= j]. *)
Definition slice {A : Type} (i j : nat) (l : list A) : list A := take (j - i) (drop i l).

(** The batches the loop of [indexSourceMhtmlFiles] cuts out of the
    listing: [l.slice(i, i + c)] for [i = 0, c, 2c, ...] while [i < l.length]. *)
Fixpoint groupsFrom {A : Type} (fuel i c : nat) (l : list A) : list (list A) :=
  if (i <? length l)%nat then
    match fuel with
    | O => []
    | S fuel' => slice i (i + c) l :: groupsFrom fuel' (i + c) c l
    end
  else [].

Definition groups {A : Type} (c : nat) (l : list A) : list (list A) :=
  groupsFrom (length l) 0 c l.

Module Report.
Record t := {
  total : nat;
  success : nat;
  failed : nat;
  results : list IndexingResult
}.
End Report.

Module Combined.
Record t := {
  total : nat;
  success : nat;
  failed : nat
}.
End Combined.

Module Run.
Record t := {
  qast : option Report.t;
  stock : option Report.t;
  combined : Combined.t
}.
End Run.

Inductive Target := TargetQast | TargetStock | TargetAll.

Record Options := {
  targetSource : option Target;
  concurrency : option nat;
  dryRun : option bool;
  delayMs : option Z
}.

(** The report built below the batch loop. *)
Definition report (results : list IndexingResult) : Report.t :=
  {| Report.total := length results;
     Report.success := length (List.filter (fun r => success r) results);
     Report.failed := length (List.filter (fun r => negb (success r)) results);
     Report.results := results |}.

(** The values of the promises of a batch, when every one is fulfilled. *)
Fixpoint allSettled (tasks : list Task) : option (list IndexingResult) :=
  match tasks with
  | [] => Some []
  | Settled r :: tasks' =>
      match allSettled tasks' with
      | Some rs => Some (r :: rs)
      | None => None
      end
  | _ :: _ => None
  end.

(** The result the member's own [catch] builds from a thrown [Error]. *)
Definition caught (blobName : string) (indexType : Source) (message : string) : IndexingResult :=
  {| success := false;
     blobName := blobName;
     source := indexType;
     error := Some message;
     statusCode := None |}.

(** A batch between two resumptions: its tasks, or the exit code once a
    member has killed the process. *)
Inductive Batch :=
| Running (tasks : list Task)
| Killed (code : Z).

Section Orchestrator.
Variable w : World.
Variable cfg : Config.
(** [extractContentLocationUrl] and [extractSourceUrl] are pure functions
    of the bytes and of the name; only the request they feed depends on
    them. *)
Variable extractContentLocationUrl : string -> option string.
Variable extractSourceUrl : Source -> string -> option string.
Variable source : Source.
Variable options : Options.

Let containerName := containerOf source.
Let timeoutMs := TIMEOUT_MS cfg.
Let maxRetries := MAX_RETRIES cfg.

Definition settle (who : Who) (r : IndexingResult) (st : State) : Resumed * State :=
  (Suspended (Settled r), log who (Fulfilled (success r)) st).

(** Top of the retry loop of the member's [indexMhtmlFile] call: issue the
    POST of [attempt], or leave the loop. *)
Definition loopHead (who : Who) (blobName fileBuffer : string) (sourceUrl : option string)
    (attempt : Z) (st : State) : Resumed * State :=
  if attempt <=? maxRetries then
    let req := formData cfg containerName blobName fileBuffer source sourceUrl in
    let o := fetch w (posts (trace st)) req timeoutMs in
    (Suspended (AwaitFetch fileBuffer sourceUrl attempt o), log who (Post blobName attempt) st)
  else
    settle who (exhausted blobName source maxRetries) st.

(** The pending [await] of a member completes and the member runs to its
    next [await]. *)
Definition resume (who : Who) (blobName : string) (t : Task) (st : State) : Resumed * State :=
  match t with
  | AwaitDelay =>
      (Suspended AwaitDownload, log who (Download blobName) st)
  | AwaitDownload =>
      match downloadBlob w containerName blobName with
      | inl message =>
          settle who (caught blobName source message) st
      | inr fileBuffer =>
          let sourceUrl :=
            match truthy (extractContentLocationUrl fileBuffer) with
            | Some url => Some url
            | None => extractSourceUrl source blobName
            end in
          loopHead who blobName fileBuffer sourceUrl 1 st
      end
  | AwaitFetch fileBuffer sourceUrl attempt o =>
      let st := log who (PostSettled o) st in
      let '(c, step) := afterFetch cfg blobName source attempt maxRetries o
                          (consecutiveTimeouts st) in
      let st := setCounter c st in
      match step with
      | Return r => settle who r st
      | Exit code => (Halted code, log who (ProcessExit code) st)
      | Retry ms => (Suspended (AwaitBackoff fileBuffer sourceUrl attempt), log who (Sleep ms) st)
      | Next => loopHead who blobName fileBuffer sourceUrl (attempt + 1) st
      end
  | AwaitBackoff fileBuffer sourceUrl attempt =>
      loopHead who blobName fileBuffer sourceUrl (attempt + 1) st
  | Settled r => (Suspended (Settled r), st)
  end.

(** A member's submission with nothing else in flight: every [await]
    completes before anything else happens. [fuel] bounds the resumptions. *)
Fixpoint alone (fuel : nat) (who : Who) (blobName : string) (r : Resumed * State)
    : Outcome IndexingResult * State :=
  match r with
  | (Halted code, st) => (Exited code, st)
  | (Suspended (Settled result), st) => (Returned result, st)
  | (Suspended t, st) =>
      match fuel with
      | O => (Pending, st)
      | S fuel' => alone fuel' who blobName (resume who blobName t st)
      end
  end.

Definition theConcurrency : nat := default (CONCURRENCY cfg) (concurrency options).
Definition theDryRun : bool := default false (dryRun options).
Definition theDelayMs : Z := default (DELAY_MS cfg) (delayMs options).

(** [batch.map(async (blobName, index) => ...)]: each member runs to its
    first [await], in order. [i] is the position of the batch in the
    listing. *)
Fixpoint startBatch (i index : nat) (batch : list string) (st : State) : list Task * State :=
  match batch with
  | [] => ([], st)
  | blobName :: batch' =>
      let '(t, st) :=
        if (0 <? index)%nat
        then (AwaitDelay, log (Doc (i + index)) (Sleep theDelayMs) st)
        else (AwaitDownload, log (Doc (i + index)) (Download blobName) st) in
      let '(ts, st) := startBatch i (S index) batch' st in
      (t :: ts, st)
  end.

(** The pending [await]s of the members complete in the order [schedule]
    names their indices. *)
Fixpoint resumeBatch (i : nat) (batch : list string) (schedule : list nat)
    (tasks : list Task) (st : State) : Batch * State :=
  match schedule with
  | [] => (Running tasks, st)
  | index :: schedule' =>
      match batch !! index, tasks !! index with
      | Some blobName, Some t =>
          match resume (Doc (i + index)) blobName t st with
          | (Suspended t', st') =>
              resumeBatch i batch schedule' (<[index := t']> tasks) st'
          | (Halted code, st') => (Killed code, st')
          end
      | _, _ => resumeBatch i batch schedule' tasks st
      end
  end.

(** [for (let i = 0; i < allBlobs.length; i += concurrency)]. [schedule i]
    is the order of completion inside the batch starting at [i]; a batch
    whose schedule ends before all members are settled is still
    [Pending]. *)
Fixpoint batches (schedule : nat -> list nat) (allBlobs : list string)
    (fuel i : nat) (results : list IndexingResult) (st : State)
    : Outcome Report.t * State :=
  if (i <? length allBlobs)%nat then
    match fuel with
    | O => (Pending, st)
    | S fuel' =>
        let batch := slice i (i + theConcurrency) allBlobs in
        let '(tasks, st) := startBatch i 0 batch st in
        match resumeBatch i batch (schedule i) tasks st with
        | (Killed code, st) => (Exited code, st)
        | (Running tasks, st) =>
            match allSettled tasks with
            | None => (Pending, st)
            | Some batchResults =>
                let st :=
                  if (i + theConcurrency <? length allBlobs)%nat
                  then log Main (Sleep 500) st
                  else st in
                batches schedule allBlobs fuel' (i + theConcurrency)
                  (results ++ batchResults) st
            end
        end
    end
  else
    (Returned (report results), st).

Definition indexSourceMhtmlFiles (schedule : nat -> list nat) (st : State)
    : Outcome Report.t * State :=
  let blobPrefix := prefixOf source in
  let '(connected, st) :=
    if theDryRun then (None, st)
    else (getProperties w, log Main GetProperties st) in
  match connected with
  | Some shown => (Threw shown, st)
  | None =>
      let st := log Main (ListBlobs containerName blobPrefix) st in
      match listBlobsFlat w containerName blobPrefix with
      | inl shown => (Threw shown, st)
      | inr names =>
          let allBlobs := List.filter (fun name => endsWith name ".mhtml") names in
          if (length allBlobs =? 0)%nat then
            (Returned {| Report.total := 0; Report.success := 0;
                         Report.failed := 0; Report.results := [] |}, st)
          else if theDryRun then
            (Returned {| Report.total := length allBlobs; Report.success := 0;
                         Report.failed := 0; Report.results := [] |}, st)
          else
            batches schedule allBlobs (length allBlobs) 0 [] st
      end
  end.

End Orchestrator.

(** ** Run coordinator: [indexAllMhtmlFiles] *)

Definition addReport (c : Combined.t) (r : Report.t) : Combined.t :=
  {| Combined.total := (Combined.total c + Report.total r)%nat;
     Combined.success := (Combined.success c + Report.success r)%nat;
     Combined.failed := (Combined.failed c + Report.failed r)%nat |}.

Definition wantsQast (t : Target) : bool :=
  match t with TargetQast | TargetAll => true | TargetStock => false end.

Definition wantsStock (t : Target) : bool :=
  match t with TargetStock | TargetAll => true | TargetQast => false end.

Section Coordinator.
Variable w : World.
Variable cfg : Config.
Variable extractContentLocationUrl : string -> option string.
Variable extractSourceUrl : Source -> string -> option string.
(** [process.env.TARGET_SOURCE], when set. *)
Variable TARGET_SOURCE : option Target.
Variable options : Options.

Definition theTarget : Target :=
  match targetSource options with
  | Some t => t
  | None => default TargetAll TARGET_SOURCE
  end.

(** One [if (targetSource === ...)] block: run the partition and add its
    report to [results]; anything but a returned report ends the run. *)
Definition partition (source : Source) (schedule : nat -> list nat)
    (results : Run.t) (st : State) : Outcome Run.t * State :=
  match indexSourceMhtmlFiles w cfg extractContentLocationUrl extractSourceUrl
          source options schedule st with
  | (Returned r, st) =>
      (Returned
         match source with
         | qast => {| Run.qast := Some r; Run.stock := Run.stock results;
                      Run.combined := addReport (Run.combined results) r |}
         | stock => {| Run.qast := Run.qast results; Run.stock := Some r;
                       Run.combined := addReport (Run.combined results) r |}
         end, st)
  | (Threw shown, st) => (Threw shown, st)
  | (Exited code, st) => (Exited code, st)
  | (Pending, st) => (Pending, st)
  end.

Definition indexAllMhtmlFiles (schedule : Source -> nat -> list nat) (st : State)
    : Outcome Run.t * State :=
  let results :=
    {| Run.qast := None; Run.stock := None;
       Run.combined := {| Combined.total := 0; Combined.success := 0;
                          Combined.failed := 0 |} |} in
  match
    (if wantsQast theTarget then partition qast (schedule qast) results st
     else (Returned results, st))
  with
  | (Returned results, st) =>
      if wantsStock theTarget then partition stock (schedule stock) results st
      else (Returned results, st)
  | other => other
  end.

End Coordinator.

(** ** The circuit breaker as a law on traces *)

Definition isSettled (e : Event) : bool :=
  match e with (_, PostSettled _) => true | _ => false end.

(** The outcomes of the settled POSTs of a trace, in the order they settled. *)
Fixpoint settled (tr : list Event) : list FetchOutcome :=
  match tr with
  | [] => []
  | (_, PostSettled o) :: tr' => o :: settled tr'
  | _ :: tr' => settled tr'
  end.

(** The counter after the settled POSTs of [tr], starting from [c]. *)
Fixpoint replay (c : Z) (tr : list Event) : Z :=
  match tr with
  | [] => c
  | (_, PostSettled o) :: tr' => replay (counterAfter o c) tr'
  | _ :: tr' => replay c tr'
  end.

(** [History cfg c tr x]: starting with the counter at [c], the events [tr]
    are what a process under the breaker may do; [x] tells whether it ended
    in the fatal exit. *)
Inductive History (cfg : Config) : Z -> list Event -> bool -> Prop :=
| History_end c :
    History cfg c [] false
| History_trip c d :
    trips cfg AbortError c = true ->
    History cfg c [(d, PostSettled AbortError); (d, ProcessExit 1)] true
| History_settled c d o tr x :
    trips cfg o c = false ->
    History cfg (counterAfter o c) tr x ->
    History cfg c ((d, PostSettled o) :: tr) x
| History_other c e tr x :
    isSettled e = false ->
    isExit e = false ->
    History cfg c tr x ->
    History cfg c (e :: tr) x.

(** [st'] is reached from [st] by a history. *)
Definition Reaches (cfg : Config) (st st' : State) (x : bool) : Prop :=
  exists new,
    trace st' = trace st ++ new
    /\ consecutiveTimeouts st' = replay (consecutiveTimeouts st) new
    /\ History cfg (consecutiveTimeouts st) new x.

(** An outcome agrees with the flag of a history: the only exit is the
    fatal one, with status 1. *)
Definition Ends {A : Type} (out : Outcome A) (x : bool) : Prop :=
  match out with
  | Exited code => code = 1 /\ x = true
  | _ => x = false
  end.

(** What the breaker guarantees of the events [new] a run adds to the trace,
    the counter being [c] before and the ceiling [N]. *)
Record BreakerLaw {A : Type} (N c : Z) (new : list Event) (out : Outcome A) : Prop := {
  (** a timeout that brings the counter to the ceiling is followed by the
      exit at once, and by nothing else *)
  trip_is_fatal :
    forall pre d post,
      new = pre ++ (d, PostSettled AbortError) :: post ->
      N <= replay c pre + 1 ->
      post = [(d, ProcessExit 1)] /\ out = Exited 1;
  (** the process exits only so, and nothing happens after the exit *)
  exit_is_last :
    forall pre e post,
      new = pre ++ e :: post ->
      isExit e = true ->
      post = [] /\ out = Exited 1
      /\ exists pre' d,
           pre = pre' ++ [(d, PostSettled AbortError)]
           /\ e = (d, ProcessExit 1)
           /\ N <= replay c pre' + 1;
  (** an exited run shows its exit *)
  exited_shows :
    forall code, out = Exited code ->
      code = 1 /\ exists pre d, new = pre ++ [(d, PostSettled AbortError); (d, ProcessExit 1)];
  (** a success resets the counter *)
  success_resets :
    forall pre d status body post,
      new = pre ++ (d, PostSettled (Response status body)) :: post ->
      ok status = true ->
      replay c (pre ++ [(d, PostSettled (Response status body))]) = 0;
  (** fewer than [N] timeouts, one success, fewer than [N] timeouts: no exit *)
  reset_spares :
    forall a b status body,
      settled new = repeat AbortError a ++ Response status body :: repeat AbortError b ->
      ok status = true ->
      c + Z.of_nat a < N ->
      Z.of_nat b < N ->
      forall code, out <> Exited code
}.

Definition isSuccess (o : FetchOutcome) : bool :=
  match o with Response status _ => ok status | _ => false end.

(** Number of timeouts among settled POSTs. *)
Fixpoint timeoutsIn (os : list FetchOutcome) : Z :=
  match os with
  | [] => 0
  | AbortError :: os' => 1 + timeoutsIn os'
  | _ :: os' => timeoutsIn os'
  end.


(** What one resumption adds to the trace. *)
Definition Adds (who : Who) (blobName : string) (t : Task) (res : Resumed)
    (st st' : State) : Prop :=
  exists new,
    trace st' = trace st ++ new
    /\ (forall e, In e new -> fst e = who)
    /\ (forall name, In (who, Download name) new -> name = blobName)
    /\ (forall r, res = Suspended (Settled r) ->
          t = Settled r \/ In (who, Fulfilled (success r)) new).

(** What a batch adds to the trace: events of its members only, and
    downloads of their own documents. *)
Definition BatchAdds (i : nat) (batch : list string) (new : list Event) : Prop :=
  (forall e, In e new -> exists k, fst e = Doc (i + k) /\ (k < length batch)%nat)
  /\ (forall g name, In (Doc g, Download name) new ->
        exists k, g = (i + k)%nat /\ batch !! k = Some name).

(** The member's promise is fulfilled with the value its submission
    returns. *)
Definition fulfil (who : Who) (r : Outcome IndexingResult * State)
    : Outcome IndexingResult * State :=
  match r with
  | (Returned result, st) => (Returned result, log who (Fulfilled (success result)) st)
  | other => other
  end.

(** ** Test doubles

    Concrete worlds on which the theorems below are instantiated. *)

Definition sixNames : list string :=
  ["qast-mhtml/data/qast_1.mhtml"; "qast-mhtml/data/readme.txt";
   "qast-mhtml/data/qast_2.mhtml"; "qast-mhtml/data/qast_3.mhtml";
   "qast-mhtml/data/qast_4.mhtml"; "qast-mhtml/data/qast_5.mhtml"].

(** A store with five documents and an endpoint that answers [o] to every
    POST. *)
Definition answering (o : FetchOutcome) : World :=
  {| getProperties := None;
     listBlobsFlat := fun _ _ => inr sixNames;
     download := fun _ _ => Stream "MIME-Version: 1.0";
     fetch := fun _ _ _ => o |}.

(** An endpoint that times out on its first [k] calls and then accepts. *)
Definition slowStart (k : nat) : World :=
  {| getProperties := None;
     listBlobsFlat := fun _ _ => inr sixNames;
     download := fun _ _ => Stream "MIME-Version: 1.0";
     fetch := fun n _ _ => if (n <? k)%nat then AbortError else Response 200 (Text "{}") |}.

(** An endpoint that alternates a timeout and an HTTP 500. *)
Definition flaky : World :=
  {| getProperties := None;
     listBlobsFlat := fun _ _ => inr sixNames;
     download := fun _ _ => Stream "MIME-Version: 1.0";
     fetch := fun n _ _ =>
       if Nat.even n then AbortError else Response 500 (Text "Internal Server Error") |}.

(** The defaults with a ceiling of two consecutive timeouts. *)
Definition strict : Config := {|
  indexEndpoint := indexEndpoint defaults;
  storageAccount := storageAccount defaults;
  MAX_CONSECUTIVE_TIMEOUTS := 2;
  TIMEOUT_MS := 30000;
  MAX_RETRIES := 3;
  CONCURRENCY := 3;
  DELAY_MS := 500
|}.

Definition oneByOne : Options :=
  {| targetSource := Some TargetQast; concurrency := Some 1%nat;
     dryRun := None; delayMs := None |}.

Definition twoByTwo : Options :=
  {| targetSource := Some TargetAll; concurrency := Some 2%nat;
     dryRun := None; delayMs := None |}.

Definition listingOnly : Options :=
  {| targetSource := None; concurrency := None; dryRun := Some true; delayMs := None |}.

(** Every member in turn, often enough for any batch of the test doubles. *)
Definition roundRobin (i : nat) : list nat :=
  concat (repeat [0; 1; 2]%nat 8).

(** Three documents and an endpoint that accepts its third call only. *)
Definition spared : World :=
  {| getProperties := None;
     listBlobsFlat := fun _ _ => inr ["a.mhtml"; "b.mhtml"; "c.mhtml"];
     download := fun _ _ => Stream "MIME-Version: 1.0";
     fetch := fun n _ _ => if (n =? 2)%nat then Response 200 (Text "{}") else AbortError |}.

(** One document at a time, two attempts each, a ceiling of three. *)
Definition three : Config := {|
  indexEndpoint := indexEndpoint defaults;
  storageAccount := storageAccount defaults;
  MAX_CONSECUTIVE_TIMEOUTS := 3;
  TIMEOUT_MS := 30000;
  MAX_RETRIES := 2;
  CONCURRENCY := 1;
  DELAY_MS := 500
|}.

Definition noOptions : Options :=
  {| targetSource := None; concurrency := None; dryRun := None; delayMs := None |}.

Definition refused : FetchOutcome := NetworkError "connect ECONNREFUSED 127.0.0.1:443".

Definition noUrl (fileBuffer : string) : option string := None.
Definition noGuess (source : Source) (blobName : string) : option string := None.


(** ** The graph of a resumption

    [Resumes cfg source blobName downloaded t c res acts c']: the task [t] of
    the document [blobName], resumed with the counter at [c] when its
    download answers [downloaded], becomes [res], does [acts] and leaves the
    counter at [c']. One constructor per path through the member's closure
    ([resume_graph]). *)
Inductive Resumes (cfg : Config) (indexType : Source) (blobName : string)
    (downloaded : string + string)
    : Task -> Z -> Resumed -> list Action -> Z -> Prop :=
| Resumes_delay c :
    Resumes cfg indexType blobName downloaded
      AwaitDelay c (Suspended AwaitDownload) [Download blobName] c
| Resumes_download_failed c message :
    downloaded = inl message ->
    Resumes cfg indexType blobName downloaded
      AwaitDownload c (Suspended (Settled (caught blobName indexType message)))
      [Fulfilled false] c
| Resumes_first_post c fileBuffer sourceUrl o :
    downloaded = inr fileBuffer ->
    1 <= MAX_RETRIES cfg ->
    Resumes cfg indexType blobName downloaded
      AwaitDownload c (Suspended (AwaitFetch fileBuffer sourceUrl 1 o))
      [Post blobName 1] c
| Resumes_no_budget c fileBuffer :
    downloaded = inr fileBuffer ->
    MAX_RETRIES cfg < 1 ->
    Resumes cfg indexType blobName downloaded
      AwaitDownload c
      (Suspended (Settled (exhausted blobName indexType (MAX_RETRIES cfg))))
      [Fulfilled false] c
| Resumes_accepted c fileBuffer sourceUrl attempt status body :
    ok status = true ->
    Resumes cfg indexType blobName downloaded
      (AwaitFetch fileBuffer sourceUrl attempt (Response status body)) c
      (Suspended (Settled {| success := true;
                             blobName := blobName;
                             source := indexType;
                             error := None;
                             statusCode := Some status |}))
      [PostSettled (Response status body); Fulfilled true] 0
| Resumes_rejected c fileBuffer sourceUrl attempt status body :
    ok status = false ->
    Resumes cfg indexType blobName downloaded
      (AwaitFetch fileBuffer sourceUrl attempt (Response status body)) c
      (Suspended (Settled {| success := false;
                             blobName := blobName;
                             source := indexType;
                             error := Some ("HTTP " +:+ showZ status +:+ ": "
                                              +:+ errorText body);
                             statusCode := Some status |}))
      [PostSettled (Response status body); Fulfilled false] c
| Resumes_tripped c fileBuffer sourceUrl attempt :
    MAX_CONSECUTIVE_TIMEOUTS cfg <= c + 1 ->
    Resumes cfg indexType blobName downloaded
      (AwaitFetch fileBuffer sourceUrl attempt AbortError) c
      (Halted 1) [PostSettled AbortError; ProcessExit 1] (c + 1)
| Resumes_timeout_retry c fileBuffer sourceUrl attempt :
    c + 1 < MAX_CONSECUTIVE_TIMEOUTS cfg ->
    attempt < MAX_RETRIES cfg ->
    Resumes cfg indexType blobName downloaded
      (AwaitFetch fileBuffer sourceUrl attempt AbortError) c
      (Suspended (AwaitBackoff fileBuffer sourceUrl attempt))
      [PostSettled AbortError; Sleep (2000 * attempt)] (c + 1)
| Resumes_timeout_last c fileBuffer sourceUrl attempt :
    c + 1 < MAX_CONSECUTIVE_TIMEOUTS cfg ->
    MAX_RETRIES cfg <= attempt ->
    Resumes cfg indexType blobName downloaded
      (AwaitFetch fileBuffer sourceUrl attempt AbortError) c
      (Suspended (Settled (exhausted blobName indexType (MAX_RETRIES cfg))))
      [PostSettled AbortError; Fulfilled false] (c + 1)
| Resumes_network_retry c fileBuffer sourceUrl attempt message :
    attempt < MAX_RETRIES cfg ->
    Resumes cfg indexType blobName downloaded
      (AwaitFetch fileBuffer sourceUrl attempt (NetworkError message)) c
      (Suspended (AwaitBackoff fileBuffer sourceUrl attempt))
      [PostSettled (NetworkError message); Sleep (1000 * attempt)] c
| Resumes_network_last c fileBuffer sourceUrl attempt message :
    MAX_RETRIES cfg <= attempt ->
    Resumes cfg indexType blobName downloaded
      (AwaitFetch fileBuffer sourceUrl attempt (NetworkError message)) c
      (Suspended (Settled (exhausted blobName indexType (MAX_RETRIES cfg))))
      [PostSettled (NetworkError message); Fulfilled false] c
| Resumes_next_post c fileBuffer sourceUrl attempt o :
    attempt + 1 <= MAX_RETRIES cfg ->
    Resumes cfg indexType blobName downloaded
      (AwaitBackoff fileBuffer sourceUrl attempt) c
      (Suspended (AwaitFetch fileBuffer sourceUrl (attempt + 1) o))
      [Post blobName (attempt + 1)] c
| Resumes_backoff_last c fileBuffer sourceUrl attempt :
    MAX_RETRIES cfg < attempt + 1 ->
    Resumes cfg indexType blobName downloaded
      (AwaitBackoff fileBuffer sourceUrl attempt) c
      (Suspended (Settled (exhausted blobName indexType (MAX_RETRIES cfg))))
      [Fulfilled false] c
| Resumes_settled c r :
    Resumes cfg indexType blobName downloaded
      (Settled r) c (Suspended (Settled r)) [] c.


(** A store that cannot be reached. *)
Definition unreachable : World :=
  {| getProperties := Some "RestError: getaddrinfo ENOTFOUND";
     listBlobsFlat := fun _ _ => inr sixNames;
     download := fun _ _ => Stream "MIME-Version: 1.0";
     fetch := fun _ _ _ => Response 200 (Text "{}") |}.

(** A store whose [qast-mhtml] container cannot be listed. *)
Definition qastUnlisted : World :=
  {| getProperties := None;
     listBlobsFlat := fun containerName _ =>
       if String.eqb containerName "qast-mhtml"
       then inl "RestError: ContainerNotFound"
       else inr sixNames;
     download := fun _ _ => Stream "MIME-Version: 1.0";
     fetch := fun _ _ _ => Response 200 (Text "{}") |}.


(** A store where one document has no readable body. *)
Definition oneUnreadable : World :=
  {| getProperties := None;
     listBlobsFlat := fun _ _ => inr sixNames;
     download := fun _ blobName =>
       if String.eqb blobName "qast-mhtml/data/qast_2.mhtml"
       then NoStream
       else Stream "MIME-Version: 1.0";
     fetch := fun _ _ _ => Response 200 (Text "{}") |}.


(** The waits of a trace, in milliseconds, in the order they were started. *)
Fixpoint sleeps (tr : list Event) : list Z :=
  match tr with
  | [] => []
  | (_, Sleep ms) :: tr' => ms :: sleeps tr'
  | _ :: tr' => sleeps tr'
  end.

(** An endpoint that times out on even calls and refuses odd ones. *)
Definition unstable : World :=
  {| getProperties := None;
     listBlobsFlat := fun _ _ => inr sixNames;
     download := fun _ _ => Stream "MIME-Version: 1.0";
     fetch := fun n _ _ =>
       if Nat.even n then AbortError
       else NetworkError "connect ECONNREFUSED 127.0.0.1:443" |}.


(** Number of POSTs issued for the document at position [g]. *)
Definition postsOf (g : nat) (tr : list Event) : nat :=
  length (List.filter
            (fun e => match e with
                      | (Doc g', Post _ _) => (g' =? g)%nat
                      | _ => false
                      end) tr).

(** Number of POSTs a task may still issue. *)
Definition budget (cfg : Config) (t : Task) : nat :=
  match t with
  | AwaitDelay | AwaitDownload => Z.to_nat (MAX_RETRIES cfg)
  | AwaitFetch _ _ attempt _ | AwaitBackoff _ _ attempt =>
      Z.to_nat (MAX_RETRIES cfg - attempt)
  | Settled _ => 0
  end.

(** ** Regular expressions

    The backtracking matcher of [String.prototype.match] and
    [RegExp.prototype.test], for the constructs the patterns of this
    program use: character classes, literals, sequence, the greedy star,
    one capturing group and the end of the subject.  A pattern is tried at
    position 0 of the subject, then 1, and so on; the first position that
    matches wins.  A matcher takes the rest of the subject, the text the
    group captured so far, and what remains to be matched as a
    continuation. *)
Module RegExp.

Inductive t (A : Type) : Type :=
| Class (p : A -> bool)
| Empty
| Seq (r1 r2 : t A)
| Star (r : t A)
| Group (r : t A)
| Eos.
Arguments Class {A} p.
Arguments Empty {A}.
Arguments Seq {A} r1 r2.
Arguments Star {A} r.
Arguments Group {A} r.
Arguments Eos {A}.

Definition Capture (A : Type) : Type := option (list A).

Fixpoint loop {A R : Type}
    (step : list A -> Capture A -> (list A -> Capture A -> option R) -> option R)
    (fuel : nat) (s : list A) (cap : Capture A)
    (k : list A -> Capture A -> option R) : option R :=
  match fuel with
  | O => k s cap
  | S fuel =>
      match step s cap (fun s' cap' =>
                          if (length s' <? length s)%nat
                          then loop step fuel s' cap' k else None) with
      | Some x => Some x
      | None => k s cap
      end
  end.

Fixpoint run {A R : Type} (r : t A) (s : list A) (cap : Capture A)
    (k : list A -> Capture A -> option R) : option R :=
  match r with
  | Class p => match s with
               | c :: s' => if p c then k s' cap else None
               | [] => None
               end
  | Empty => k s cap
  | Seq r1 r2 => run r1 s cap (fun s' cap' => run r2 s' cap' k)
  | Star r => loop (run r) (S (length s)) s cap k
  | Group r => run r s cap (fun s' _ => k s' (Some (take (length s - length s') s)))
  | Eos => match s with [] => k s cap | _ :: _ => None end
  end.

Definition matchAt {A : Type} (r : t A) (s : list A) : option (list A * Capture A) :=
  run r s None (fun s' cap => Some (take (length s - length s') s, cap)).

Fixpoint exec {A : Type} (r : t A) (s : list A) : option (list A * Capture A) :=
  match matchAt r s with
  | Some m => Some m
  | None => match s with
            | [] => None
            | _ :: s' => exec r s'
            end
  end.

Definition test {A : Type} (r : t A) (s : list A) : bool :=
  match exec r s with Some _ => true | None => false end.

Fixpoint Lit {A : Type} (same : A -> A -> bool) (l : list A) : t A :=
  match l with
  | [] => Empty
  | c :: l => Seq (Class (same c)) (Lit same l)
  end.

Definition Plus {A : Type} (r : t A) : t A := Seq r (Star r).

(** What a greedy star over one character class computes: the longest run
    first, then one character less at a time. *)
Fixpoint greedy {A R : Type} (p : A -> bool) (s : list A) (cap : Capture A)
    (k : list A -> Capture A -> option R) : option R :=
  match s with
  | c :: s' =>
      if p c then
        match greedy p s' cap k with
        | Some x => Some x
        | None => k s cap
        end
      else k s cap
  | [] => k s cap
  end.

Fixpoint skip {A : Type} (p : A -> bool) (s : list A) : list A :=
  match s with
  | c :: s' => if p c then skip p s' else s
  | [] => []
  end.

Fixpoint run_of {A : Type} (p : A -> bool) (s : list A) : list A :=
  match s with
  | c :: s' => if p c then c :: run_of p s' else []
  | [] => []
  end.

(** [l] read at the head of [s] under the comparison [same]: what is left. *)
Fixpoint after {A : Type} (same : A -> A -> bool) (l s : list A) : option (list A) :=
  match l with
  | [] => Some s
  | c :: l =>
      match s with
      | d :: s => if same c d then after same l s else None
      | [] => None
      end
  end.

End RegExp.

(** ** Source links: [extractSourceUrl] and [extractContentLocationUrl]

    Blob names are byte strings as everywhere in this model; the patterns
    applied to them hold ASCII characters only, which match the same places
    in a text and in its UTF-8 encoding. *)

(** [\d] *)
Definition digit (c : ascii) : bool :=
  let n := nat_of_ascii c in (48 <=? n)%nat && (n <=? 57)%nat.

(** [/stock_(\d+)\.mhtml$/] and [/qast_(\d+)\.mhtml$/] *)
Definition idPattern (tag : string) : RegExp.t ascii :=
  RegExp.Seq (RegExp.Lit Ascii.eqb (list_ascii_of_string tag))
    (RegExp.Seq (RegExp.Group (RegExp.Plus (RegExp.Class digit)))
       (RegExp.Seq (RegExp.Lit Ascii.eqb (list_ascii_of_string ".mhtml")) RegExp.Eos)).

(** [match[1]] inside a template literal. *)
Definition group1 (m : list ascii * RegExp.Capture ascii) : string :=
  match snd m with
  | Some text => string_of_list_ascii text
  | None => "undefined"
  end.

(** [extractSourceUrl] *)
Definition extractSourceUrl (source : Source) (blobName : string) : option string :=
  match source with
  | stock =>
      match RegExp.exec (idPattern "stock_") (list_ascii_of_string blobName) with
      | Some m =>
          Some ("https://www.stock-app.jp/teams/c20282/dashboard/all/stocks/"
                +:+ group1 m +:+ "/edit")
      | None => None
      end
  | qast =>
      match RegExp.exec (idPattern "qast_") (list_ascii_of_string blobName) with
      | Some m => Some ("https://qast.jp/teams/xxxxx/posts/" +:+ group1 m)
      | None => None
      end
  end.

(** ** Text of a document: JavaScript strings as UTF-16 code units *)

(** An ASCII text as code units. *)
Definition units (s : string) : list N := map N_of_ascii (list_ascii_of_string s).

Definition lineTerminator (c : N) : bool :=
  ((c =? 10) || (c =? 13) || (c =? 0x2028) || (c =? 0x2029))%N.

(** [\s], and what [trim] strips: white space and line terminators. *)
Definition whiteSpace (c : N) : bool :=
  (lineTerminator c
   || (c =? 9) || (c =? 11) || (c =? 12) || (c =? 32) || (c =? 0xA0)
   || (c =? 0x1680) || ((0x2000 <=? c) && (c <=? 0x200A))
   || (c =? 0x202F) || (c =? 0x205F) || (c =? 0x3000) || (c =? 0xFEFF))%N.

(** [.] without the [s] flag. *)
Definition dot (c : N) : bool := negb (lineTerminator c).

Definition upper (c : N) : N :=
  (if (97 <=? c) && (c <=? 122) then c - 32 else c)%N.

(** An ASCII character [p] of a pattern with the [i] flag and no [u] flag:
    a code unit above 127 never canonicalizes to an ASCII one. *)
Definition ignoringCase (p c : N) : bool := ((c <? 128) && (upper c =? upper p))%N.

(** [s.trim()] *)
Definition trim (s : list N) : list N :=
  rev (RegExp.skip whiteSpace (rev (RegExp.skip whiteSpace s))).

(** [/Content-Location:\s*(.+)/i] *)
Definition contentLocationPattern : RegExp.t N :=
  RegExp.Seq (RegExp.Lit ignoringCase (units "Content-Location:"))
    (RegExp.Seq (RegExp.Star (RegExp.Class whiteSpace))
       (RegExp.Group (RegExp.Plus (RegExp.Class dot)))).

(** [extractContentLocationUrl]; [toString] is [Buffer.toString('utf-8')].
    A match whose group did not take part would make [.trim()] throw, which
    the [catch] turns into [undefined]. *)
Definition extractContentLocationUrl (toString : string -> list N)
    (mhtmlContent : string) : option (list N) :=
  let content := toString mhtmlContent in
  match RegExp.exec contentLocationPattern content with
  | Some (_, Some text) => Some (trim text)
  | Some (_, None) => None
  | None => None
  end.

(** ** [MhtmlParser] of [src/storage/azureBlobDownloader.ts] *)
Module MhtmlParser.

(** [isValidMhtml] on the text of the content. *)
Definition isValidMhtml (contentStr : list N) : bool :=
  let hasMimeVersion :=
    RegExp.test (RegExp.Lit ignoringCase (units "MIME-Version:")) contentStr in
  let hasContentType :=
    RegExp.test (RegExp.Lit ignoringCase (units "Content-Type:")) contentStr in
  let hasHtml := RegExp.test (RegExp.Lit ignoringCase (units "<html")) contentStr in
  hasMimeVersion || hasContentType || hasHtml.

(** [/<title[^>]*>([^<]+)<\/title>/i] *)
Definition titlePattern : RegExp.t N :=
  RegExp.Seq (RegExp.Lit ignoringCase (units "<title"))
    (RegExp.Seq (RegExp.Star (RegExp.Class (fun c => negb (c =? 62)%N)))
       (RegExp.Seq (RegExp.Class (ignoringCase 62))
          (RegExp.Seq (RegExp.Group (RegExp.Plus (RegExp.Class (fun c => negb (c =? 60)%N))))
             (RegExp.Lit ignoringCase (units "</title>"))))).

(** [extractTitle]; the group takes part in every match of the pattern. *)
Definition extractTitle (html : list N) : option (list N) :=
  match RegExp.exec titlePattern html with
  | Some (_, Some text) => Some (trim text)
  | Some (_, None) => None
  | None => None
  end.

End MhtmlParser.


(** Sample documents. *)
Definition crlf : list N := [13; 10]%N.

(** The head of a page as a browser saves it. *)
Definition snapshot : list N :=
  units "From: <Saved by Blink>" ++ crlf
  ++ units "Snapshot-Content-Location: https://example.com/a b  " ++ crlf
  ++ units "Subject: x".

(** A header with no value at the end of a document. *)
Definition blankHeader : list N :=
  units "Subject: x" ++ crlf ++ units "content-location: " ++ crlf.

Definition page : list N :=
  units "<html><head><TITLE lang=en> Stock 12 </Title></head></html>".


(** ** The JSON client [RagIndexer]

    [src/api/ragIndexer.ts] holds the client that posts one document after
    the other; the copy of the class that comes with
    [src/mhtmlBlobIndexer.ts] posts the members of a batch together and
    retries each.  Both share [indexDocument]. *)
Module RagIndexer.

Module IndexRequest.
Record t := {
  id : string;
  source : Source;
  fileName : string;
  content : string;
  metadata : option string
}.
End IndexRequest.

Module IndexResponse.
Record t := {
  success : bool;
  id : string;
  message : option string;
  error : option string
}.
End IndexResponse.

Module BatchReport.
Record t := {
  success : nat;
  failed : nat;
  results : list IndexResponse.t
}.
End BatchReport.

Module BatchOptions.
Record t := {
  batchSize : option nat;
  delayMs : option Z;
  maxRetries : option Z
}.
End BatchOptions.

(** How [client.post] settles. *)
Inductive Reply :=
| Fulfilled (message : option string)      (* [response.data.message] *)
| FulfilledNoData                          (* [response.data] is null *)
| AxiosError (responseError : option string) (message : string)
| OtherError.

(** [value || fallback] on strings. *)
Definition orElse (value : option string) (fallback : string) : string :=
  match truthy value with
  | Some s => s
  | None => fallback
  end.

(** The body of [indexDocument] once the POST has settled.  Reading
    [message] off a null [data] throws inside the [try], and what is thrown
    there is no Axios error. *)
Definition settle (reply : Reply) (request : IndexRequest.t) : IndexResponse.t :=
  match reply with
  | Fulfilled message =>
      {| IndexResponse.success := true;
         IndexResponse.id := IndexRequest.id request;
         IndexResponse.message := Some (orElse message "インデックスが成功しました");
         IndexResponse.error := None |}
  | AxiosError responseError message =>
      {| IndexResponse.success := false;
         IndexResponse.id := IndexRequest.id request;
         IndexResponse.message := None;
         IndexResponse.error := Some (orElse responseError message) |}
  | FulfilledNoData | OtherError =>
      {| IndexResponse.success := false;
         IndexResponse.id := IndexRequest.id request;
         IndexResponse.message := None;
         IndexResponse.error := Some "Unknown error" |}
  end.

(** [batchResults.forEach(...)]: push and count. *)
Fixpoint forEach (batchResults : list IndexResponse.t) (acc : BatchReport.t)
    : BatchReport.t :=
  match batchResults with
  | [] => acc
  | result :: batchResults =>
      forEach batchResults
        {| BatchReport.results := BatchReport.results acc ++ [result];
           BatchReport.success :=
             if IndexResponse.success result then S (BatchReport.success acc)
             else BatchReport.success acc;
           BatchReport.failed :=
             if IndexResponse.success result then BatchReport.failed acc
             else S (BatchReport.failed acc) |}
  end.

Definition empty : BatchReport.t :=
  {| BatchReport.success := 0; BatchReport.failed := 0; BatchReport.results := [] |}.

(** *** One document after the other ([src/api/ragIndexer.ts]) *)
Module Sequential.

Inductive Event :=
| Post (request : IndexRequest.t)
| Sleep (ms : Z).

Definition posted (tr : list Event) : nat :=
  length (List.filter (fun e => match e with Post _ => true | Sleep _ => false end) tr).

(** The endpoint: what the [n]-th POST of the run is answered. *)
Definition Endpoint : Type := nat -> IndexRequest.t -> Reply.

Definition indexDocument (post : Endpoint) (request : IndexRequest.t) (tr : list Event)
    : IndexResponse.t * list Event :=
  (settle (post (posted tr) request) request, tr ++ [Post request]).

(** [for (const request of batch)] *)
Fixpoint eachOf (post : Endpoint) (batch : list IndexRequest.t)
    (batchResults : list IndexResponse.t) (tr : list Event)
    : list IndexResponse.t * list Event :=
  match batch with
  | [] => (batchResults, tr)
  | request :: batch =>
      let '(result, tr) := indexDocument post request tr in
      eachOf post batch (batchResults ++ [result]) tr
  end.

Section Loop.
Variable post : Endpoint.
Variable requests : list IndexRequest.t.
Variable batchSize : nat.
Variable delayMs : Z.

Fixpoint loop (fuel i : nat) (acc : BatchReport.t) (tr : list Event)
    : Outcome BatchReport.t * list Event :=
  if (i <? length requests)%nat then
    match fuel with
    | O => (Pending, tr)
    | S fuel =>
        let batch := slice i (i + batchSize) requests in
        let '(batchResults, tr) := eachOf post batch [] tr in
        let acc := forEach batchResults acc in
        let tr := if (i + batchSize <? length requests)%nat
                  then tr ++ [Sleep delayMs] else tr in
        loop fuel (i + batchSize)%nat acc tr
    end
  else (Returned acc, tr).

End Loop.

(** [batchIndexDocuments]; a batch size of 0 never advances. *)
Definition batchIndexDocuments (post : Endpoint) (requests : list IndexRequest.t)
    (options : BatchOptions.t) (tr : list Event)
    : Outcome BatchReport.t * list Event :=
  let batchSize := default 10%nat (BatchOptions.batchSize options) in
  let delayMs := default 1000 (BatchOptions.delayMs options) in
  loop post requests batchSize delayMs (length requests) 0 empty tr.

(** The requests of the batches in turn, a pause between two batches. *)
Fixpoint paced (delayMs : Z) (batches : list (list IndexRequest.t)) : list Event :=
  match batches with
  | [] => []
  | batch :: rest =>
      map Post batch
      ++ match rest with
         | [] => []
         | _ :: _ => Sleep delayMs :: paced delayMs rest
         end
  end.

End Sequential.

(** *** Batch members together, each retried (the copy with
    [src/mhtmlBlobIndexer.ts]) *)
Module Retrying.

(** What a member of a batch did: its result, the POSTs it issued and the
    pauses it took. *)
Record Member := {
  result : Outcome IndexResponse.t;
  posts : nat;
  waits : list Z
}.

(** The [while (retryCount <= maxRetries)] loop of a member; [reply k] is
    what the endpoint answers the POST issued at retry count [k]. *)
Fixpoint retry (reply : nat -> Reply) (request : IndexRequest.t) (maxRetries : Z)
    (fuel : nat) (retryCount : Z) (lastError : string) (posts : nat) (waits : list Z)
    : Member :=
  if retryCount <=? maxRetries then
    match fuel with
    | O => {| result := Pending; posts := posts; waits := waits |}
    | S fuel =>
        let waits := if 0 <? retryCount then waits ++ [retryCount * 1000] else waits in
        let result := settle (reply (Z.to_nat retryCount)) request in
        if IndexResponse.success result then
          {| result := Returned result; posts := S posts; waits := waits |}
        else
          retry reply request maxRetries fuel (retryCount + 1)
            (orElse (IndexResponse.error result) "Unknown error") (S posts) waits
    end
  else
    {| result :=
         Returned {| IndexResponse.success := false;
                     IndexResponse.id := IndexRequest.id request;
                     IndexResponse.message := None;
                     IndexResponse.error := Some ("リトライ上限到達: " +:+ lastError) |};
       posts := posts;
       waits := waits |}.

(** The function mapped over a batch. *)
Definition member (reply : nat -> Reply) (request : IndexRequest.t) (maxRetries : Z)
    : Member :=
  retry reply request maxRetries (Z.to_nat (maxRetries + 1)) 0 EmptyString 0 [].

(** [Promise.all]: the results in the order of the members, once all have
    one. *)
Fixpoint all (members : list Member) : Outcome (list IndexResponse.t) :=
  match members with
  | [] => Returned []
  | m :: members =>
      match result m, all members with
      | Returned r, Returned rs => Returned (r :: rs)
      | Returned _, other => other
      | Threw shown, _ => Threw shown
      | Exited code, _ => Exited code
      | Pending, _ => Pending
      end
  end.

Section Loop.
(** [replies j k]: the answer to the POST that the member for request [j]
    issues at retry count [k]. *)
Variable replies : nat -> nat -> Reply.
Variable requests : list IndexRequest.t.
Variable batchSize : nat.
Variable maxRetries : Z.

Definition membersOf (i : nat) (batch : list IndexRequest.t) : list Member :=
  imap (fun j request => member (replies (i + j)) request maxRetries) batch.

(** The loop over the batches.  The pause between two batches changes
    nothing that is returned and is left out. *)
Fixpoint loop (fuel i : nat) (acc : BatchReport.t) : Outcome BatchReport.t :=
  if (i <? length requests)%nat then
    match fuel with
    | O => Pending
    | S fuel =>
        let batch := slice i (i + batchSize) requests in
        match all (membersOf i batch) with
        | Returned batchResults =>
            loop fuel (i + batchSize)%nat (forEach batchResults acc)
        | Threw shown => Threw shown
        | Exited code => Exited code
        | Pending => Pending
        end
    end
  else Returned acc.

End Loop.

(** [batchIndexDocuments]; [BATCH_SIZE] and [MAX_RETRIES] are the values
    read from the environment. *)
Definition batchIndexDocuments (BATCH_SIZE : nat) (MAX_RETRIES : Z)
    (replies : nat -> nat -> Reply) (requests : list IndexRequest.t)
    (options : BatchOptions.t) : Outcome BatchReport.t :=
  let batchSize := default BATCH_SIZE (BatchOptions.batchSize options) in
  let maxRetries := default MAX_RETRIES (BatchOptions.maxRetries options) in
  loop replies requests batchSize maxRetries (length requests) 0 empty.

End Retrying.

End RagIndexer.


(** The pauses a member takes before the POSTs at retry counts
    [c, c + 1, ..., c + n - 1]. *)
Definition pauses (c n : nat) : list Z :=
  flat_map (fun k => if 0 <? Z.of_nat k then [Z.of_nat k * 1000] else []) (seq c n).

(** Sample requests and endpoints of the JSON client. *)
Definition document (id : string) : RagIndexer.IndexRequest.t :=
  {| RagIndexer.IndexRequest.id := id;
     RagIndexer.IndexRequest.source := stock;
     RagIndexer.IndexRequest.fileName := id +:+ ".mhtml";
     RagIndexer.IndexRequest.content := "<html></html>";
     RagIndexer.IndexRequest.metadata := None |}.

Definition threeDocuments : list RagIndexer.IndexRequest.t :=
  [document "a"; document "b"; document "c"].

(** The second POST of a run is refused, the others are accepted. *)
Definition secondRefused : RagIndexer.Sequential.Endpoint :=
  fun n _ =>
    match n with
    | 1%nat => RagIndexer.AxiosError (Some "duplicate id") "Request failed with status code 409"
    | _ => RagIndexer.Fulfilled None
    end.

Definition byTwo : RagIndexer.BatchOptions.t :=
  {| RagIndexer.BatchOptions.batchSize := Some 2%nat;
     RagIndexer.BatchOptions.delayMs := Some 250;
     RagIndexer.BatchOptions.maxRetries := Some 2 |}.

(** An endpoint that times out twice and then answers 503 without a body. *)
Definition failing : nat -> RagIndexer.Reply :=
  fun k =>
    match k with
    | 2%nat => RagIndexer.AxiosError None "Request failed with status code 503"
    | _ => RagIndexer.AxiosError None "timeout of 60000ms exceeded"
    end.

(** An endpoint that accepts the third POST of a member. *)
Definition thirdTime : nat -> RagIndexer.Reply :=
  fun k =>
    match k with
    | 2%nat => RagIndexer.Fulfilled (Some "indexed")
    | _ => RagIndexer.AxiosError None "timeout of 60000ms exceeded"
    end.


(** What the member for document [g] did, in order. *)
Definition actionsOf (g : nat) (tr : list Event) : list Action :=
  flat_map (fun e => match e with
                     | (Doc g', a) => if (g' =? g)%nat then [a] else []
                     | (Main, _) => []
                     end) tr.

(** The calls a member makes to the store and to the endpoint. *)
Definition isRequest (a : Action) : bool :=
  match a with
  | Download _ | Post _ _ => true
  | _ => false
  end.

Definition requestsOf (g : nat) (tr : list Event) : list Action :=
  List.filter isRequest (actionsOf g tr).

(** The POSTs of attempts 1 to [k] of a document. *)
Definition attemptsUpTo (blobName : string) (k : nat) : list Action :=
  map (fun a => Post blobName (Z.of_nat a)) (seq 1 k).


(** The calls a member suspended at [t] has made for the document
    [blobName] when it has made them in the order of the code: the
    download, then the POSTs of attempts 1, 2, ... *)
Definition inOrder (cfg : Config) (blobName : string) (acts : list Action) (t : Task)
    : Prop :=
  match t with
  | AwaitDelay => List.filter isRequest acts = []
  | AwaitDownload => List.filter isRequest acts = [Download blobName]
  | AwaitFetch _ _ attempt _ =>
      1 <= attempt <= MAX_RETRIES cfg
      /\ List.filter isRequest acts
         = Download blobName :: attemptsUpTo blobName (Z.to_nat attempt)
  | AwaitBackoff _ _ attempt =>
      1 <= attempt < MAX_RETRIES cfg
      /\ List.filter isRequest acts
         = Download blobName :: attemptsUpTo blobName (Z.to_nat attempt)
  | Settled _ =>
      exists k, (k <= Z.to_nat (MAX_RETRIES cfg))%nat
                /\ List.filter isRequest acts = Download blobName :: attemptsUpTo blobName k
  end.


(** What the main flow of a run did, in order. *)
Definition mainOf (tr : list Event) : list Action :=
  flat_map (fun e => match e with
                     | (Main, a) => [a]
                     | (Doc _, _) => []
                     end) tr.


(** Document [g] is the first member of its batch under concurrency [c]. *)
Definition firstOfBatch (c g : nat) : bool := (g mod c =? 0)%nat.


(** How the member of a document starts: the first member of a batch with
    the download, every other one with one pause of [delayMs] and then the
    download. *)
Definition startsAs (lead : bool) (delayMs : Z) (blobName : string)
    (acts : list Action) (t : Task) : Prop :=
  if lead then exists rest, acts = Download blobName :: rest
  else
    match t with
    | AwaitDelay => acts = [Sleep delayMs]
    | _ => exists rest, acts = Sleep delayMs :: Download blobName :: rest
    end.

(** A result says the same thing in all its fields: a success has a 2xx
    status code and no error, a failure has an error and no 2xx status
    code. *)
Definition consistent (r : IndexingResult) : Prop :=
  if success r then
    error r = None /\ exists status, statusCode r = Some status /\ ok status = true
  else
    (exists message, error r = Some message)
    /\ forall status, statusCode r = Some status -> ok status = false.


(** The POSTs that are issued and not yet settled after the events [tr]. *)
Definition inFlight (tr : list Event) : Z :=
  fold_right (fun e n => match snd e with
                         | Post _ _ => n + 1
                         | PostSettled _ => n - 1
                         | _ => n
                         end) 0 tr.

(** A member suspended at [t] has a POST in flight. *)
Definition posting (t : Task) : Z :=
  match t with
  | AwaitFetch _ _ _ _ => 1
  | _ => 0
  end.

Definition postingAmong (tasks : list Task) : Z :=
  fold_right (fun t n => posting t + n) 0 tasks.

(** Starting with [base] POSTs in flight, the events [new] never leave
    fewer than 0 or more than [c] in flight. *)
Definition Within (c base : Z) (new : list Event) : Prop :=
  forall pre post, new = pre ++ post -> 0 <= base + inFlight pre <= c.






(** ** Properties of the submission client *)

Lemma posts_snoc tr e :
  posts (tr ++ [e]) = (posts tr + if isPost e then 1 else 0)%nat.
Proof.
  unfold posts. rewrite List.filter_app, length_app. simpl.
  destruct (isPost e); reflexivity.
Qed.

Lemma afterFetch_counter cfg blobName indexType attempt maxRetries o c :
  fst (afterFetch cfg blobName indexType attempt maxRetries o c) = counterAfter o c.
Proof.
  destruct o as [status body| |message]; simpl.
  - destruct (ok status); reflexivity.
  - destruct (c + 1 >=? MAX_CONSECUTIVE_TIMEOUTS cfg); [reflexivity|].
    destruct (attempt <? maxRetries); reflexivity.
  - destruct (attempt <? maxRetries); reflexivity.
Qed.

Lemma timeoutsAmong_nonneg w req timeoutMs j : forall n, 0 <= timeoutsAmong w req timeoutMs n j.
Proof.
  induction j as [|j IH]; intros n; simpl; [lia|].
  specialize (IH (S n)). destruct (fetch w n req timeoutMs); lia.
Qed.

Lemma timeoutsAmong_all w req timeoutMs j :
  forall n,
    (forall i, (i < j)%nat -> fetch w (n + i) req timeoutMs = AbortError) ->
    timeoutsAmong w req timeoutMs n j = Z.of_nat j.
Proof.
  induction j as [|j IH]; intros n H; simpl; [reflexivity|].
  rewrite <- (Nat.add_0_r n) at 1. rewrite (H 0%nat) by lia.
  rewrite IH; [lia|]. intros i Hi.
  replace (S n + i)%nat with (n + S i)%nat by lia. apply H. lia.
Qed.

Section SubmissionFacts.
Variable w : World.
Variable cfg : Config.
Variable who : Who.
Variables containerName blobName fileBuffer : string.
Variable indexType : Source.
Variable sourceUrl : option string.
Variables timeoutMs maxRetries : Z.

Let req := formData cfg containerName blobName fileBuffer indexType sourceUrl.
Let run := attempts w cfg who containerName blobName fileBuffer indexType sourceUrl
             timeoutMs maxRetries.

(** One iteration whose POST fails below HTTP and does not trip the
    breaker leads to the next iteration. *)
Lemma attempts_transport_failure fuel attempt st :
  attempt <= maxRetries ->
  isResponse (fetch w (posts (trace st)) req timeoutMs) = false ->
  trips cfg (fetch w (posts (trace st)) req timeoutMs) (consecutiveTimeouts st) = false ->
  exists st',
    run (S fuel) attempt st = run fuel (attempt + 1) st'
    /\ posts (trace st') = S (posts (trace st))
    /\ consecutiveTimeouts st'
       = counterAfter (fetch w (posts (trace st)) req timeoutMs) (consecutiveTimeouts st).
Proof.
  intros Hle Hresp Htrip. unfold run; simpl. fold req.
  destruct (Z.leb_spec attempt maxRetries) as [_|]; [|lia].
  destruct (fetch w (posts (trace st)) req timeoutMs) as [status body| |message];
    simpl in *; [discriminate| |].
  - rewrite Htrip.
    destruct (attempt <? maxRetries); eexists; (split; [reflexivity|]); simpl;
      rewrite !posts_snoc; simpl; split; first [lia | reflexivity].
  - destruct (attempt <? maxRetries); eexists; (split; [reflexivity|]); simpl;
      rewrite !posts_snoc; simpl; split; first [lia | reflexivity].
Qed.

(** [j] such iterations in a row. *)
Lemma attempts_transport_failures j :
  forall fuel attempt st,
    attempt + Z.of_nat j - 1 <= maxRetries ->
    (forall i, (i < j)%nat ->
       isResponse (fetch w (posts (trace st) + i) req timeoutMs) = false) ->
    consecutiveTimeouts st + timeoutsAmong w req timeoutMs (posts (trace st)) j
      < MAX_CONSECUTIVE_TIMEOUTS cfg ->
    exists st',
      run (j + fuel)%nat attempt st = run fuel (attempt + Z.of_nat j) st'
      /\ posts (trace st') = (posts (trace st) + j)%nat
      /\ consecutiveTimeouts st'
         = consecutiveTimeouts st + timeoutsAmong w req timeoutMs (posts (trace st)) j.
Proof.
  induction j as [|j IH]; intros fuel attempt st Hle Hfail Hmax.
  - exists st. simpl. rewrite Z.add_0_r, Nat.add_0_r, Z.add_0_r. auto.
  - simpl in Hmax.
    pose proof (timeoutsAmong_nonneg w req timeoutMs j (S (posts (trace st)))) as Hnn.
    pose proof (Hfail 0%nat ltac:(lia)) as H0. rewrite Nat.add_0_r in H0.
    destruct (attempts_transport_failure (j + fuel) attempt st) as (st1 & E1 & P1 & C1);
      [lia | exact H0 | |].
    { destruct (fetch w (posts (trace st)) req timeoutMs); simpl in *; try reflexivity.
      rewrite Z.geb_leb. apply Z.leb_gt. lia. }
    destruct (IH fuel (attempt + 1) st1) as (st2 & E2 & P2 & C2).
    + lia.
    + intros i Hi. rewrite P1.
      replace (S (posts (trace st)) + i)%nat with (posts (trace st) + S i)%nat by lia.
      apply Hfail. lia.
    + rewrite C1, P1.
      destruct (fetch w (posts (trace st)) req timeoutMs); simpl in *;
        [discriminate | lia | lia].
    + exists st2. split; [|split].
      * change (S j + fuel)%nat with (S (j + fuel)). rewrite E1, E2.
        f_equal. lia.
      * rewrite P2, P1. lia.
      * rewrite C2, C1, P1. simpl.
        destruct (fetch w (posts (trace st)) req timeoutMs); simpl in *;
          [discriminate | lia | lia].
Qed.

(** The loop always leaves through a [return] or through [process.exit]. *)
Lemma attempts_settles fuel :
  forall attempt st,
    maxRetries - attempt + 1 <= Z.of_nat fuel ->
    fst (run fuel attempt st) <> Pending.
Proof.
  induction fuel as [|fuel IH]; intros attempt st Hfuel; unfold run in *; simpl.
  - destruct (Z.leb_spec attempt maxRetries); [lia | discriminate].
  - destruct (Z.leb_spec attempt maxRetries); [|discriminate].
    destruct (afterFetch _ _ _ _ _ _ _) as [c [r|code|ms|]]; simpl;
      try discriminate; apply IH; lia.
Qed.

End SubmissionFacts.

(** [indexMhtmlFile] settles: the fuel it passes to the loop is enough. *)
Lemma indexMhtmlFile_settles w cfg who containerName blobName fileBuffer indexType
    sourceUrl timeoutMs maxRetries st :
  fst (indexMhtmlFile w cfg who containerName blobName fileBuffer indexType sourceUrl
         timeoutMs maxRetries st) <> Pending.
Proof. unfold indexMhtmlFile. apply attempts_settles. lia. Qed.

(** C10. With a retry budget of 0 the loop body never runs: no POST is
    issued, the counter and the trace are left as they were, and the result
    is the failure whose message reports 0 retries. *)
Theorem indexMhtmlFile_budget_zero :
  forall w cfg who containerName blobName fileBuffer indexType sourceUrl timeoutMs st,
    indexMhtmlFile w cfg who containerName blobName fileBuffer indexType sourceUrl
      timeoutMs 0 st
    = (Returned {| success := false;
                   blobName := blobName;
                   source := indexType;
                   error := Some "0回のリトライ後も失敗";
                   statusCode := None |}, st).
Proof. reflexivity. Qed.

(** C3. When the endpoint answers the first POST of a submission with a
    status outside 200..299, the submission returns at once, whatever the
    retry budget (at least 1): exactly one POST is issued, no wait follows,
    the counter keeps its value, and the result is a failure with that
    status code and an error of the form [HTTP <status>: <body>]. *)
Theorem http_failure_is_not_retried :
  forall w cfg who containerName blobName fileBuffer indexType sourceUrl timeoutMs
         maxRetries st status body,
    1 <= maxRetries ->
    ok status = false ->
    fetch w (posts (trace st))
      (formData cfg containerName blobName fileBuffer indexType sourceUrl) timeoutMs
    = Response status body ->
    let '(out, st') :=
      indexMhtmlFile w cfg who containerName blobName fileBuffer indexType sourceUrl
        timeoutMs maxRetries st in
    out = Returned {| success := false;
                      blobName := blobName;
                      source := indexType;
                      error := Some ("HTTP " +:+ showZ status +:+ ": " +:+ errorText body);
                      statusCode := Some status |}
    /\ (forall text, body = Text text -> errorText body = text)
    /\ trace st' = (trace st ++ [(who, Post blobName 1)])
                     ++ [(who, PostSettled (Response status body))]
    /\ posts (trace st') = S (posts (trace st))
    /\ consecutiveTimeouts st' = consecutiveTimeouts st.
Proof.
  intros w cfg who containerName blobName fileBuffer indexType sourceUrl timeoutMs
         maxRetries st status body Hbudget Hok Hfetch.
  unfold indexMhtmlFile.
  destruct (Z.to_nat maxRetries) as [|fuel] eqn:Efuel; [lia|].
  simpl. destruct (Z.leb_spec 1 maxRetries) as [_|]; [|lia].
  rewrite Hfetch. simpl. rewrite Hok. simpl.
  repeat split.
  - intros text ->. reflexivity.
  - rewrite !posts_snoc. simpl. lia.
Qed.

Lemma http_failure_is_not_retried_witness :
  let '(out, st') :=
    indexMhtmlFile (answering (Response 503 (Text "Service Unavailable"))) defaults Main
      "qast-mhtml" "qast-mhtml/data/qast_1.mhtml" "MIME-Version: 1.0" qast None 30000 3
      initial in
  out = Returned {| success := false;
                    blobName := "qast-mhtml/data/qast_1.mhtml";
                    source := qast;
                    error := Some "HTTP 503: Service Unavailable";
                    statusCode := Some 503 |}
  /\ (forall text, Text "Service Unavailable" = Text text
                   -> errorText (Text "Service Unavailable") = text)
  /\ trace st' = [(Main, Post "qast-mhtml/data/qast_1.mhtml" 1);
                  (Main, PostSettled (Response 503 (Text "Service Unavailable")))]
  /\ posts (trace st') = 1%nat
  /\ consecutiveTimeouts st' = 0.
Proof.
  apply (http_failure_is_not_retried
           (answering (Response 503 (Text "Service Unavailable"))) defaults Main
           "qast-mhtml" "qast-mhtml/data/qast_1.mhtml" "MIME-Version: 1.0" qast None 30000 3
           initial 503 (Text "Service Unavailable")).
  - lia.
  - reflexivity.
  - reflexivity.
Defined.

(** C2. The retry budget counts attempts. Against an endpoint that times out
    on the next [k] POSTs and accepts the one after, and with the breaker out
    of reach, a submission with budget [maxRetries >= 1] succeeds on its
    [k+1]-th POST when [k + 1 <= maxRetries], and otherwise fails after
    exactly [maxRetries] POSTs. *)
Theorem retry_budget_counts_attempts :
  forall w cfg who containerName blobName fileBuffer indexType sourceUrl timeoutMs
         maxRetries st (k : nat) status body,
    let req := formData cfg containerName blobName fileBuffer indexType sourceUrl in
    1 <= maxRetries ->
    (forall i, (i < k)%nat -> fetch w (posts (trace st) + i) req timeoutMs = AbortError) ->
    fetch w (posts (trace st) + k) req timeoutMs = Response status body ->
    ok status = true ->
    consecutiveTimeouts st + Z.min (Z.of_nat k) maxRetries < MAX_CONSECUTIVE_TIMEOUTS cfg ->
    let '(out, st') :=
      indexMhtmlFile w cfg who containerName blobName fileBuffer indexType sourceUrl
        timeoutMs maxRetries st in
    (Z.of_nat k + 1 <= maxRetries ->
       out = Returned {| success := true;
                         blobName := blobName;
                         source := indexType;
                         error := None;
                         statusCode := Some status |}
       /\ posts (trace st') = (posts (trace st) + (k + 1))%nat
       /\ consecutiveTimeouts st' = 0)
    /\ (maxRetries < Z.of_nat k + 1 ->
         out = Returned {| success := false;
                           blobName := blobName;
                           source := indexType;
                           error := Some (showZ maxRetries +:+ "回のリトライ後も失敗");
                           statusCode := None |}
         /\ posts (trace st') = (posts (trace st) + Z.to_nat maxRetries)%nat
         /\ consecutiveTimeouts st' = consecutiveTimeouts st + maxRetries).
Proof.
  intros w cfg who containerName blobName fileBuffer indexType sourceUrl timeoutMs
         maxRetries st k status body req Hbudget Hslow Hthen Hok Hmax.
  unfold indexMhtmlFile.
  destruct (Z_le_gt_dec (Z.of_nat k + 1) maxRetries) as [Hle|Hgt].
  - (* enough budget: k timeouts, then the accepted POST *)
    destruct (attempts_transport_failures w cfg who containerName blobName fileBuffer
                indexType sourceUrl timeoutMs maxRetries k
                (Z.to_nat maxRetries - k) 1 st) as (st1 & E1 & P1 & C1).
    + lia.
    + intros i Hi. fold req. rewrite Hslow by exact Hi. reflexivity.
    + fold req. rewrite timeoutsAmong_all by exact Hslow. lia.
    + replace (k + (Z.to_nat maxRetries - k))%nat with (Z.to_nat maxRetries) in E1 by lia.
      rewrite E1.
      destruct (Z.to_nat maxRetries - k)%nat as [|fuel] eqn:Efuel; [lia|].
      simpl. destruct (Z.leb_spec (1 + Z.of_nat k) maxRetries) as [_|]; [|lia].
      fold req. rewrite P1, Hthen. simpl. rewrite Hok. simpl.
      split; [|intros; lia].
      intros _. split; [reflexivity|]. split; [|reflexivity].
      rewrite !posts_snoc, P1. simpl. lia.
  - (* the budget ends first: maxRetries timeouts *)
    destruct (attempts_transport_failures w cfg who containerName blobName fileBuffer
                indexType sourceUrl timeoutMs maxRetries (Z.to_nat maxRetries)
                0 1 st) as (st1 & E1 & P1 & C1).
    + lia.
    + intros i Hi. fold req. rewrite Hslow by lia. reflexivity.
    + fold req. rewrite timeoutsAmong_all by (intros i Hi; apply Hslow; lia). lia.
    + rewrite Nat.add_0_r in E1. rewrite E1. simpl.
      destruct (Z.leb_spec (1 + Z.of_nat (Z.to_nat maxRetries)) maxRetries) as [|_]; [lia|].
      split; [intros; lia|].
      intros _. split; [reflexivity|]. split; [exact P1|].
      rewrite C1. fold req.
      rewrite timeoutsAmong_all by (intros i Hi; apply Hslow; lia). lia.
Qed.

Lemma retry_budget_counts_attempts_witness :
  (let '(out, st') :=
     indexMhtmlFile (slowStart 2) defaults Main
       "qast-mhtml" "qast-mhtml/data/qast_1.mhtml" "MIME-Version: 1.0" qast None 30000 3
       initial in
   (2 + 1 <= 3 ->
      out = Returned {| success := true;
                        blobName := "qast-mhtml/data/qast_1.mhtml";
                        source := qast;
                        error := None;
                        statusCode := Some 200 |}
      /\ posts (trace st') = 3%nat
      /\ consecutiveTimeouts st' = 0)
   /\ (3 < 2 + 1 ->
        out = Returned {| success := false;
                          blobName := "qast-mhtml/data/qast_1.mhtml";
                          source := qast;
                          error := Some "3回のリトライ後も失敗";
                          statusCode := None |}
        /\ posts (trace st') = 3%nat
        /\ consecutiveTimeouts st' = 0 + 3)).
Proof.
  apply (retry_budget_counts_attempts (slowStart 2) defaults Main
           "qast-mhtml" "qast-mhtml/data/qast_1.mhtml" "MIME-Version: 1.0" qast None 30000 3
           initial 2 200 (Text "{}")).
  - lia.
  - intros [|[|i]] Hi; [reflexivity | reflexivity | lia].
  - reflexivity.
  - reflexivity.
  - vm_compute. reflexivity.
Defined.

(** C4, as the code has it. A submission that uses up its retry budget on
    timeouts and network failures, the breaker staying out of reach, returns
    a failure with the document reference and the partition tag, no status
    code, and the fixed message that names the budget: no detail of any
    failed attempt is kept. It has issued exactly [maxRetries] POSTs. *)
Theorem exhausted_budget_result :
  forall w cfg who containerName blobName fileBuffer indexType sourceUrl timeoutMs
         maxRetries st,
    let req := formData cfg containerName blobName fileBuffer indexType sourceUrl in
    (forall i, (i < Z.to_nat maxRetries)%nat ->
       isResponse (fetch w (posts (trace st) + i) req timeoutMs) = false) ->
    consecutiveTimeouts st
      + timeoutsAmong w req timeoutMs (posts (trace st)) (Z.to_nat maxRetries)
      < MAX_CONSECUTIVE_TIMEOUTS cfg ->
    let '(out, st') :=
      indexMhtmlFile w cfg who containerName blobName fileBuffer indexType sourceUrl
        timeoutMs maxRetries st in
    out = Returned {| success := false;
                      blobName := blobName;
                      source := indexType;
                      error := Some (showZ maxRetries +:+ "回のリトライ後も失敗");
                      statusCode := None |}
    /\ posts (trace st') = (posts (trace st) + Z.to_nat maxRetries)%nat
    /\ consecutiveTimeouts st'
       = consecutiveTimeouts st
         + timeoutsAmong w req timeoutMs (posts (trace st)) (Z.to_nat maxRetries).
Proof.
  intros w cfg who containerName blobName fileBuffer indexType sourceUrl timeoutMs
         maxRetries st req Hfail Hmax.
  unfold indexMhtmlFile.
  destruct (Z_le_gt_dec maxRetries 0) as [Hnone|Hsome].
  { replace (Z.to_nat maxRetries) with 0%nat by lia. simpl.
    destruct (Z.leb_spec 1 maxRetries) as [|_]; [lia|].
    rewrite Nat.add_0_r, Z.add_0_r. auto. }
  destruct (attempts_transport_failures w cfg who containerName blobName fileBuffer
              indexType sourceUrl timeoutMs maxRetries (Z.to_nat maxRetries)
              0 1 st) as (st1 & E1 & P1 & C1).
  - lia.
  - exact Hfail.
  - exact Hmax.
  - rewrite Nat.add_0_r in E1. rewrite E1. simpl.
    destruct (Z.leb_spec (1 + Z.of_nat (Z.to_nat maxRetries)) maxRetries) as [|_]; [lia|].
    auto.
Qed.

Lemma exhausted_budget_result_witness :
  let '(out, st') :=
    indexMhtmlFile (answering refused) defaults Main
      "qast-mhtml" "qast-mhtml/data/qast_1.mhtml" "MIME-Version: 1.0" qast None 30000 3
      initial in
  out = Returned {| success := false;
                    blobName := "qast-mhtml/data/qast_1.mhtml";
                    source := qast;
                    error := Some "3回のリトライ後も失敗";
                    statusCode := None |}
  /\ posts (trace st') = 3%nat
  /\ consecutiveTimeouts st' = 0.
Proof.
  apply (exhausted_budget_result (answering refused) defaults Main
           "qast-mhtml" "qast-mhtml/data/qast_1.mhtml" "MIME-Version: 1.0" qast None 30000 3
           initial).
  - intros i _. reflexivity.
  - vm_compute. reflexivity.
Defined.

(** C4, as stated, fails: with a budget of one attempt and a refused
    connection, the budget is exhausted on a network failure whose detail is
    the last (and only) error, and the returned error does not mention it. *)
Lemma exhausted_result_drops_last_error :
  exists r st',
    indexMhtmlFile (answering refused) defaults Main
      "qast-mhtml" "qast-mhtml/data/qast_1.mhtml" "MIME-Version: 1.0" qast None 30000 1
      initial = (Returned r, st')
    /\ trace st'
       = [(Main, Post "qast-mhtml/data/qast_1.mhtml" 1);
          (Main, PostSettled (NetworkError "connect ECONNREFUSED 127.0.0.1:443"))]
    /\ success r = false
    /\ ~ carries "connect ECONNREFUSED 127.0.0.1:443" r.
Proof.
  eexists. eexists. split; [reflexivity|]. split; [reflexivity|]. split; [reflexivity|].
  intros (e & He & Hocc). simpl in He. injection He as <-.
  vm_compute in Hocc. discriminate.
Qed.

(** ** Histories under the breaker *)

Lemma geb_false a b : (a >=? b) = false <-> a < b.
Proof. rewrite Z.geb_leb. apply Z.leb_gt. Qed.

Lemma geb_true a b : (a >=? b) = true <-> b <= a.
Proof. rewrite Z.geb_leb. apply Z.leb_le. Qed.

Lemma replay_app c tr1 tr2 : replay c (tr1 ++ tr2) = replay (replay c tr1) tr2.
Proof.
  revert c. induction tr1 as [|[d a] tr1 IH]; intros c; simpl; [reflexivity|].
  destruct a; apply IH.
Qed.

Lemma replay_other c e tr : isSettled e = false -> replay c (e :: tr) = replay c tr.
Proof. destruct e as [d []]; simpl; intros H; (discriminate || reflexivity). Qed.

Lemma settled_other e tr : isSettled e = false -> settled (e :: tr) = settled tr.
Proof. destruct e as [d []]; simpl; intros H; (discriminate || reflexivity). Qed.

Lemma History_app cfg c tr1 tr2 x :
  History cfg c tr1 false ->
  History cfg (replay c tr1) tr2 x ->
  History cfg c (tr1 ++ tr2) x.
Proof.
  intros H1. remember false as y eqn:Ey. revert Ey.
  induction H1 as [c|c d Htrip|c d o tr y Hno H1 IH|c e tr y Hs He H1 IH];
    intros Ey H2.
  - exact H2.
  - discriminate.
  - simpl in *. apply History_settled; auto.
  - rewrite replay_other in H2 by exact Hs.
    simpl. apply History_other; auto.
Qed.

Lemma History_trip_at cfg c tr x :
  History cfg c tr x ->
  forall pre d post,
    tr = pre ++ (d, PostSettled AbortError) :: post ->
    MAX_CONSECUTIVE_TIMEOUTS cfg <= replay c pre + 1 ->
    post = [(d, ProcessExit 1)] /\ x = true.
Proof.
  induction 1 as [c|c d0 Htrip|c d0 o tr x Hno H IH|c e tr x Hs He H IH];
    intros pre d post Etr Hmax.
  - destruct pre; discriminate.
  - destruct pre as [|e1 [|e2 pre]]; simpl in Etr.
    + injection Etr as <- <-. auto.
    + discriminate.
    + injection Etr as _ _ Etr. destruct pre; discriminate.
  - destruct pre as [|e1 pre]; simpl in Etr.
    + injection Etr as -> ->. simpl in Hno, Hmax. apply geb_false in Hno. lia.
    + injection Etr as <- ->. apply (IH pre d post eq_refl). exact Hmax.
  - destruct pre as [|e1 pre]; simpl in Etr.
    + injection Etr as -> ->. discriminate.
    + injection Etr as <- ->. apply (IH pre d post eq_refl).
      rewrite replay_other in Hmax by exact Hs. exact Hmax.
Qed.

Lemma History_exit_at cfg c tr x :
  History cfg c tr x ->
  forall pre e post,
    tr = pre ++ e :: post ->
    isExit e = true ->
    post = [] /\ x = true
    /\ exists pre' d,
         pre = pre' ++ [(d, PostSettled AbortError)]
         /\ e = (d, ProcessExit 1)
         /\ MAX_CONSECUTIVE_TIMEOUTS cfg <= replay c pre' + 1.
Proof.
  induction 1 as [c|c d0 Htrip|c d0 o tr x Hno H IH|c e0 tr x Hs He H IH];
    intros pre e post Etr Hexit.
  - destruct pre; discriminate.
  - destruct pre as [|e1 [|e2 pre]]; simpl in Etr.
    + injection Etr as <- _. discriminate.
    + injection Etr as <- <- <-. repeat split.
      exists [], d0. simpl in *. apply geb_true in Htrip. repeat split. exact Htrip.
    + injection Etr as _ _ Etr. destruct pre; discriminate.
  - destruct pre as [|e1 pre]; simpl in Etr.
    + injection Etr as <- _. discriminate.
    + injection Etr as <- ->.
      destruct (IH pre e post eq_refl Hexit) as (Hpost & Hx & pre' & d & -> & -> & Hmax).
      repeat split; auto. exists ((d0, PostSettled o) :: pre'), d. repeat split. exact Hmax.
  - destruct pre as [|e1 pre]; simpl in Etr.
    + injection Etr as <- _. congruence.
    + injection Etr as <- ->.
      destruct (IH pre e post eq_refl Hexit) as (Hpost & Hx & pre' & d & -> & -> & Hmax).
      repeat split; auto. exists (e0 :: pre'), d. repeat split.
      rewrite replay_other by exact Hs. exact Hmax.
Qed.

Lemma History_exited cfg c tr :
  History cfg c tr true ->
  exists pre d, tr = pre ++ [(d, PostSettled AbortError); (d, ProcessExit 1)].
Proof.
  intros H. remember true as x eqn:Ex. revert Ex.
  induction H as [c|c d0 Htrip|c d0 o tr x Hno H IH|c e0 tr x Hs He H IH]; intros Ex.
  - discriminate.
  - exists [], d0. reflexivity.
  - destruct (IH Ex) as (pre & d & ->). exists ((d0, PostSettled o) :: pre), d. reflexivity.
  - destruct (IH Ex) as (pre & d & ->). exists (e0 :: pre), d. reflexivity.
Qed.

Lemma History_timeouts_spare cfg c tr x :
  History cfg c tr x ->
  forall b,
    settled tr = repeat AbortError b ->
    c + Z.of_nat b < MAX_CONSECUTIVE_TIMEOUTS cfg ->
    x = false.
Proof.
  induction 1 as [c|c d0 Htrip|c d0 o tr x Hno H IH|c e0 tr x Hs He H IH];
    intros b Eb Hb.
  - reflexivity.
  - simpl in Htrip. apply geb_true in Htrip.
    destruct b as [|b]; [discriminate|]. lia.
  - simpl in Eb. destruct b as [|b]; [discriminate|]. simpl in Eb.
    injection Eb as -> Eb. apply (IH b Eb). simpl. lia.
  - rewrite settled_other in Eb by exact Hs. apply (IH b Eb Hb).
Qed.

Lemma History_reset_spares cfg c tr x :
  History cfg c tr x ->
  forall a b status body,
    settled tr = repeat AbortError a ++ Response status body :: repeat AbortError b ->
    ok status = true ->
    c + Z.of_nat a < MAX_CONSECUTIVE_TIMEOUTS cfg ->
    Z.of_nat b < MAX_CONSECUTIVE_TIMEOUTS cfg ->
    x = false.
Proof.
  induction 1 as [c|c d0 Htrip|c d0 o tr x Hno H IH|c e0 tr x Hs He H IH];
    intros a b status body Es Hok Ha Hb.
  - reflexivity.
  - simpl in Es. destruct a as [|[|a]]; discriminate.
  - simpl in Es. destruct a as [|a]; simpl in Es.
    + injection Es as -> Es. simpl in H. rewrite Hok in H.
      apply (History_timeouts_spare cfg 0 tr x H b Es). lia.
    + injection Es as -> Es. apply (IH a b status body Es Hok); simpl; lia.
  - rewrite settled_other in Es by exact Hs. apply (IH a b status body Es Hok Ha Hb).
Qed.

Lemma Ends_true {A : Type} (out : Outcome A) : Ends out true -> out = Exited 1.
Proof. destruct out; simpl; intros H; try discriminate. destruct H as [-> _]. reflexivity. Qed.

Lemma Ends_false {A : Type} (out : Outcome A) : Ends out false -> forall code, out <> Exited code.
Proof.
  destruct out as [a|shown|code0|]; simpl; intros H code; try discriminate.
  destruct H. discriminate.
Qed.

(** A history and an outcome that agrees with it satisfy the law. *)
Lemma History_law {A : Type} cfg c new x (out : Outcome A) :
  History cfg c new x ->
  Ends out x ->
  BreakerLaw (MAX_CONSECUTIVE_TIMEOUTS cfg) c new out.
Proof.
  intros H Hout. split.
  - intros pre d post E Hmax.
    destruct (History_trip_at cfg c new x H pre d post E Hmax) as [-> ->].
    split; [reflexivity|]. apply Ends_true. exact Hout.
  - intros pre e post E Hexit.
    destruct (History_exit_at cfg c new x H pre e post E Hexit) as (-> & -> & Hpre).
    split; [reflexivity|]. split; [apply Ends_true; exact Hout | exact Hpre].
  - intros code ->. simpl in Hout. destruct Hout as [-> ->].
    split; [reflexivity|]. apply (History_exited cfg c new H).
  - intros pre d status body post _ Hok. rewrite replay_app. simpl. rewrite Hok. reflexivity.
  - intros a b status body Es Hok Ha Hb.
    rewrite (History_reset_spares cfg c new x H a b status body Es Hok Ha Hb) in Hout.
    apply Ends_false. exact Hout.
Qed.

(** ** Every run is a history *)

Lemma Reaches_refl cfg st : Reaches cfg st st false.
Proof.
  exists []. rewrite app_nil_r. repeat split. constructor.
Qed.

Lemma Reaches_trans cfg st1 st2 st3 x :
  Reaches cfg st1 st2 false -> Reaches cfg st2 st3 x -> Reaches cfg st1 st3 x.
Proof.
  intros (n1 & T1 & C1 & H1) (n2 & T2 & C2 & H2).
  exists (n1 ++ n2). rewrite T2, T1, C2, C1, replay_app, app_assoc.
  repeat split. apply History_app; [exact H1|]. rewrite <- C1. exact H2.
Qed.

Lemma Reaches_log cfg who a st :
  isSettled (who, a) = false -> isExit (who, a) = false ->
  Reaches cfg st (log who a st) false.
Proof.
  intros Hs He. exists [(who, a)]. simpl. repeat split.
  - destruct a; (discriminate || reflexivity).
  - apply History_other; auto. constructor.
Qed.

Lemma Reaches_settled cfg who o st :
  trips cfg o (consecutiveTimeouts st) = false ->
  Reaches cfg st
    (setCounter (counterAfter o (consecutiveTimeouts st)) (log who (PostSettled o) st)) false.
Proof.
  intros Hno. exists [(who, PostSettled o)]. simpl. repeat split.
  apply History_settled; [exact Hno | constructor].
Qed.

Lemma Reaches_trip cfg who st :
  trips cfg AbortError (consecutiveTimeouts st) = true ->
  Reaches cfg st
    (log who (ProcessExit 1)
       (setCounter (consecutiveTimeouts st + 1) (log who (PostSettled AbortError) st))) true.
Proof.
  intros Htrip. exists [(who, PostSettled AbortError); (who, ProcessExit 1)]. simpl.
  rewrite <- app_assoc. repeat split. apply History_trip. exact Htrip.
Qed.

Section RunsAreHistories.
Variable w : World.
Variable cfg : Config.
Variable extractContentLocationUrl : string -> option string.
Variable extractSourceUrl : Source -> string -> option string.
Variable src : Source.

Let resume' := resume w cfg extractContentLocationUrl extractSourceUrl src.

Lemma loopHead_Reaches who blobName fileBuffer sourceUrl attempt st :
  exists t st',
    loopHead w cfg src who blobName fileBuffer sourceUrl attempt st = (Suspended t, st')
    /\ Reaches cfg st st' false.
Proof.
  unfold loopHead, settle.
  destruct (attempt <=? MAX_RETRIES cfg); eexists; eexists; (split; [reflexivity|]);
    apply Reaches_log; reflexivity.
Qed.

Lemma resume_Reaches who blobName t st :
  match resume' who blobName t st with
  | (Suspended _, st') => Reaches cfg st st' false
  | (Halted code, st') => code = 1 /\ Reaches cfg st st' true
  end.
Proof.
  unfold resume', resume.
  destruct t as [| |fileBuffer sourceUrl attempt o|fileBuffer sourceUrl attempt|r].
  - apply Reaches_log; reflexivity.
  - destruct (downloadBlob w (containerOf src) blobName) as [message|fileBuffer].
    + apply Reaches_log; reflexivity.
    + match goal with
      | |- context [loopHead w cfg src who blobName ?fb ?su ?at' st] =>
          destruct (loopHead_Reaches who blobName fb su at' st) as (t & st' & -> & H)
      end.
      exact H.
  - pose proof (Reaches_settled cfg who o st) as Hs.
    pose proof (Reaches_trip cfg who st) as Ht.
    destruct o as [status body| |message]; simpl in *.
    + destruct (ok status); simpl;
        (eapply Reaches_trans; [apply Hs; reflexivity | apply Reaches_log; reflexivity]).
    + destruct (consecutiveTimeouts st + 1 >=? MAX_CONSECUTIVE_TIMEOUTS cfg); simpl.
      * split; [reflexivity | apply Ht; reflexivity].
      * destruct (attempt <? MAX_RETRIES cfg); simpl.
        -- eapply Reaches_trans; [apply Hs; reflexivity | apply Reaches_log; reflexivity].
        -- match goal with
           | |- context [loopHead w cfg src who blobName ?fb ?su ?at' ?s] =>
               destruct (loopHead_Reaches who blobName fb su at' s) as (t & st' & -> & H)
           end.
           eapply Reaches_trans; [apply Hs; reflexivity | exact H].
    + destruct (attempt <? MAX_RETRIES cfg); simpl.
      * eapply Reaches_trans; [apply Hs; reflexivity | apply Reaches_log; reflexivity].
      * match goal with
        | |- context [loopHead w cfg src who blobName ?fb ?su ?at' ?s] =>
            destruct (loopHead_Reaches who blobName fb su at' s) as (t & st' & -> & H)
        end.
        eapply Reaches_trans; [apply Hs; reflexivity | exact H].
  - match goal with
    | |- context [loopHead w cfg src who blobName ?fb ?su ?at' st] =>
        destruct (loopHead_Reaches who blobName fb su at' st) as (t & st' & -> & H)
    end.
    exact H.
  - apply Reaches_refl.
Qed.

Variable options : Options.

Lemma startBatch_Reaches i batch :
  forall index st,
    Reaches cfg st (snd (startBatch cfg options i index batch st)) false.
Proof.
  induction batch as [|blobName batch IH]; intros index st; simpl.
  - apply Reaches_refl.
  - destruct (0 <? index)%nat;
      match goal with
      | |- context [startBatch cfg options i (S index) batch ?s] =>
          specialize (IH (S index) s);
          destruct (startBatch cfg options i (S index) batch s) as [ts st']
      end; simpl in *;
      (eapply Reaches_trans; [|exact IH]; apply Reaches_log; reflexivity).
Qed.

Lemma resumeBatch_Reaches i batch schedule :
  forall tasks st,
    match resumeBatch w cfg extractContentLocationUrl extractSourceUrl src
            i batch schedule tasks st with
    | (Running _, st') => Reaches cfg st st' false
    | (Killed code, st') => code = 1 /\ Reaches cfg st st' true
    end.
Proof.
  induction schedule as [|index schedule IH]; intros tasks st; simpl.
  - apply Reaches_refl.
  - destruct (batch !! index) as [blobName|]; [|apply IH].
    destruct (tasks !! index) as [t|]; [|apply IH].
    pose proof (resume_Reaches (Doc (i + index)) blobName t st) as Hr.
    unfold resume' in Hr.
    destruct (resume w cfg extractContentLocationUrl extractSourceUrl src
                (Doc (i + index)) blobName t st) as [[t'|code] st1].
    + specialize (IH (<[index:=t']> tasks) st1).
      destruct (resumeBatch w cfg extractContentLocationUrl extractSourceUrl src
                  i batch schedule (<[index:=t']> tasks) st1) as [[ts|code] st2].
      * eapply Reaches_trans; eauto.
      * destruct IH as [-> IH]. split; [reflexivity|]. eapply Reaches_trans; eauto.
    + exact Hr.
Qed.

Lemma batches_Reaches schedule allBlobs fuel :
  forall i results st,
    exists x,
      Reaches cfg st
        (snd (batches w cfg extractContentLocationUrl extractSourceUrl src options
                schedule allBlobs fuel i results st)) x
      /\ Ends (fst (batches w cfg extractContentLocationUrl extractSourceUrl src options
                      schedule allBlobs fuel i results st)) x.
Proof.
  induction fuel as [|fuel IH]; intros i results st; simpl.
  - exists false. destruct (i <? length allBlobs)%nat; simpl; split;
      (apply Reaches_refl || reflexivity).
  - destruct (i <? length allBlobs)%nat;
      [|exists false; split; [apply Reaches_refl | reflexivity]].
    pose proof (startBatch_Reaches i
                  (slice i (i + theConcurrency cfg options) allBlobs) 0%nat st) as Hs.
    destruct (startBatch cfg options i 0
                (slice i (i + theConcurrency cfg options) allBlobs) st) as [tasks st1].
    simpl in Hs.
    pose proof (resumeBatch_Reaches i (slice i (i + theConcurrency cfg options) allBlobs)
                  (schedule i) tasks st1) as Hr.
    destruct (resumeBatch w cfg extractContentLocationUrl extractSourceUrl src i
                (slice i (i + theConcurrency cfg options) allBlobs)
                (schedule i) tasks st1) as [[tasks'|code] st2].
    + destruct (allSettled tasks') as [batchResults|].
      * match goal with
        | |- context [batches _ _ _ _ _ _ _ _ fuel ?i' ?rs ?s] =>
            destruct (IH i' rs s) as (x & Hx & Ex);
            assert (Hpause : Reaches cfg st2 s false)
        end.
        { destruct (i + theConcurrency cfg options <? length allBlobs)%nat;
            [apply Reaches_log; reflexivity | apply Reaches_refl]. }
        exists x. split; [|exact Ex].
        eapply Reaches_trans; [exact Hs|].
        eapply Reaches_trans; [exact Hr|].
        eapply Reaches_trans; [exact Hpause | exact Hx].
      * exists false. simpl. split; [|reflexivity]. eapply Reaches_trans; eauto.
    + destruct Hr as [-> Hr]. exists true. simpl. split; [|auto].
      eapply Reaches_trans; eauto.
Qed.

Lemma indexSourceMhtmlFiles_Reaches schedule st :
  exists x,
    Reaches cfg st
      (snd (indexSourceMhtmlFiles w cfg extractContentLocationUrl extractSourceUrl src
              options schedule st)) x
    /\ Ends (fst (indexSourceMhtmlFiles w cfg extractContentLocationUrl extractSourceUrl
                    src options schedule st)) x.
Proof.
  unfold indexSourceMhtmlFiles.
  assert (Hpre : exists connected st0,
             (if theDryRun options then (None, st)
              else (getProperties w, log Main GetProperties st)) = (connected, st0)
             /\ Reaches cfg st st0 false).
  { destruct (theDryRun options); eexists; eexists; (split; [reflexivity|]);
      [apply Reaches_refl | apply Reaches_log; reflexivity]. }
  destruct Hpre as (connected & st0 & -> & H0).
  destruct connected as [shown|].
  { exists false. simpl. auto. }
  assert (H1 : Reaches cfg st (log Main (ListBlobs (containerOf src) (prefixOf src)) st0) false).
  { eapply Reaches_trans; [exact H0 | apply Reaches_log; reflexivity]. }
  destruct (listBlobsFlat w (containerOf src) (prefixOf src)) as [shown|names].
  { exists false. simpl. auto. }
  destruct (length _ =? 0)%nat; [exists false; simpl; auto|].
  destruct (theDryRun options); [exists false; simpl; auto|].
  match goal with
  | |- context [batches _ _ _ _ _ _ ?sch ?all ?f ?i ?rs ?s] =>
      destruct (batches_Reaches sch all f i rs s) as (x & Hx & Ex)
  end.
  exists x. split; [|exact Ex]. eapply Reaches_trans; eauto.
Qed.

End RunsAreHistories.

Section CoordinatorFacts.
Variable w : World.
Variable cfg : Config.
Variable extractContentLocationUrl : string -> option string.
Variable extractSourceUrl : Source -> string -> option string.
Variable TARGET_SOURCE : option Target.
Variable options : Options.

Lemma partition_Reaches src schedule results st :
  exists x,
    Reaches cfg st
      (snd (partition w cfg extractContentLocationUrl extractSourceUrl options
              src schedule results st)) x
    /\ Ends (fst (partition w cfg extractContentLocationUrl extractSourceUrl options
                    src schedule results st)) x.
Proof.
  unfold partition.
  destruct (indexSourceMhtmlFiles_Reaches w cfg extractContentLocationUrl extractSourceUrl
              src options schedule st) as (x & Hx & Ex).
  destruct (indexSourceMhtmlFiles w cfg extractContentLocationUrl extractSourceUrl
              src options schedule st) as [[r|shown|code|] st']; simpl in *;
    exists x; auto.
Qed.

Lemma indexAllMhtmlFiles_Reaches schedule st :
  exists x,
    Reaches cfg st
      (snd (indexAllMhtmlFiles w cfg extractContentLocationUrl extractSourceUrl
              TARGET_SOURCE options schedule st)) x
    /\ Ends (fst (indexAllMhtmlFiles w cfg extractContentLocationUrl extractSourceUrl
                    TARGET_SOURCE options schedule st)) x.
Proof.
  unfold indexAllMhtmlFiles.
  set (results0 := {| Run.qast := None; Run.stock := None;
                      Run.combined := {| Combined.total := 0; Combined.success := 0;
                                         Combined.failed := 0 |} |}).
  assert (Hq : exists out1 st1 x1,
             (if wantsQast (theTarget TARGET_SOURCE options)
              then partition w cfg extractContentLocationUrl extractSourceUrl options
                     qast (schedule qast) results0 st
              else (Returned results0, st)) = (out1, st1)
             /\ Reaches cfg st st1 x1 /\ Ends out1 x1).
  { destruct (wantsQast (theTarget TARGET_SOURCE options)).
    - destruct (partition_Reaches qast (schedule qast) results0 st) as (x & Hx & Ex).
      destruct (partition _ _ _ _ _ _ _ _ _) as [out1 st1]. eauto 6.
    - exists (Returned results0), st, false. repeat split. apply Reaches_refl. }
  destruct Hq as (out1 & st1 & x1 & -> & H1 & E1).
  destruct out1 as [results1|shown|code|]; simpl in *; try (exists x1; auto; fail).
  subst x1.
  destruct (wantsStock (theTarget TARGET_SOURCE options)).
  - destruct (partition_Reaches stock (schedule stock) results1 st1) as (x & Hx & Ex).
    exists x. split; [|exact Ex]. eapply Reaches_trans; eauto.
  - exists false. simpl. auto.
Qed.

End CoordinatorFacts.

Lemma attempts_Reaches w cfg who containerName blobName fileBuffer indexType sourceUrl
    timeoutMs maxRetries fuel :
  forall attempt st,
    exists x,
      Reaches cfg st
        (snd (attempts w cfg who containerName blobName fileBuffer indexType sourceUrl
                timeoutMs maxRetries fuel attempt st)) x
      /\ Ends (fst (attempts w cfg who containerName blobName fileBuffer indexType sourceUrl
                      timeoutMs maxRetries fuel attempt st)) x.
Proof.
  induction fuel as [|fuel IH]; intros attempt st; simpl.
  - exists false. destruct (attempt <=? maxRetries); simpl; split;
      (apply Reaches_refl || reflexivity).
  - destruct (attempt <=? maxRetries);
      [|exists false; split; [apply Reaches_refl | reflexivity]].
    set (o := fetch w (posts (trace st)) _ timeoutMs).
    assert (Hp : Reaches cfg st (log who (Post blobName attempt) st) false)
      by (apply Reaches_log; reflexivity).
    pose proof (Reaches_settled cfg who o (log who (Post blobName attempt) st)) as Hs.
    pose proof (Reaches_trip cfg who (log who (Post blobName attempt) st)) as Ht.
    destruct o as [status body| |message]; simpl in *.
    + exists false. destruct (ok status); simpl; (split; [|reflexivity]);
        (eapply Reaches_trans; [exact Hp | apply Hs; reflexivity]).
    + destruct (consecutiveTimeouts st + 1 >=? MAX_CONSECUTIVE_TIMEOUTS cfg); simpl.
      * exists true. split; [|auto]. eapply Reaches_trans; [exact Hp | apply Ht; reflexivity].
      * destruct (attempt <? maxRetries); simpl;
          match goal with
          | |- context [attempts _ _ _ _ _ _ _ _ _ _ fuel ?a ?s] =>
              destruct (IH a s) as (x & Hx & Ex)
          end; exists x; (split; [|exact Ex]);
          (eapply Reaches_trans; [exact Hp|]);
          (eapply Reaches_trans; [apply Hs; reflexivity|]).
        -- eapply Reaches_trans; [|exact Hx]. apply Reaches_log; reflexivity.
        -- exact Hx.
    + destruct (attempt <? maxRetries); simpl;
        match goal with
        | |- context [attempts _ _ _ _ _ _ _ _ _ _ fuel ?a ?s] =>
            destruct (IH a s) as (x & Hx & Ex)
        end; exists x; (split; [|exact Ex]);
        (eapply Reaches_trans; [exact Hp|]);
        (eapply Reaches_trans; [apply Hs; reflexivity|]).
      * eapply Reaches_trans; [|exact Hx]. apply Reaches_log; reflexivity.
      * exact Hx.
Qed.

Lemma replay_without_success tr :
  forall c,
    forallb (fun o => negb (isSuccess o)) (settled tr) = true ->
    replay c tr = c + timeoutsIn (settled tr).
Proof.
  induction tr as [|[d a] tr IH]; intros c Hall; simpl in *; [lia|].
  destruct a; try (apply IH; exact Hall).
  simpl in Hall. apply andb_prop in Hall as [Ho Hall].
  rewrite (IH _ Hall).
  destruct o as [status body| |message]; simpl in *.
  - destruct (ok status); [discriminate | reflexivity].
  - lia.
  - reflexivity.
Qed.

(** The submission a member task runs is [indexMhtmlFile]: resumed with
    nothing else in flight, the task does what the loop of [attempts] does,
    and then fulfils the member's promise. *)
Lemma alone_attempts w cfg extractContentLocationUrl extractSourceUrl src who blobName
    fileBuffer sourceUrl n :
  forall attempt st,
    MAX_RETRIES cfg - attempt + 1 <= Z.of_nat n ->
    alone w cfg extractContentLocationUrl extractSourceUrl src (2 * n) who blobName
      (loopHead w cfg src who blobName fileBuffer sourceUrl attempt st)
    = fulfil who
        (attempts w cfg who (containerOf src) blobName fileBuffer src sourceUrl
           (TIMEOUT_MS cfg) (MAX_RETRIES cfg) n attempt st).
Proof.
  induction n as [|n IH]; intros attempt st Hn.
  - unfold loopHead. simpl.
    destruct (Z.leb_spec attempt (MAX_RETRIES cfg)); [lia | reflexivity].
  - replace (2 * S n)%nat with (S (S (2 * n))) by lia.
    unfold loopHead at 1. cbn [attempts].
    destruct (Z.leb_spec attempt (MAX_RETRIES cfg)) as [Hle|Hgt]; [|reflexivity].
    cbn [alone resume]. cbv zeta.
    destruct (fetch w (posts (trace st)) _ (TIMEOUT_MS cfg)) as [status body| |message];
      cbn [afterFetch].
    + destruct (ok status); reflexivity.
    + cbn [log consecutiveTimeouts].
      destruct (consecutiveTimeouts st + 1 >=? MAX_CONSECUTIVE_TIMEOUTS cfg);
        [reflexivity|].
      destruct (Z.ltb_spec attempt (MAX_RETRIES cfg)) as [Hlt|Hge].
      * cbn [alone resume]. apply IH. lia.
      * unfold loopHead.
        destruct (Z.leb_spec (attempt + 1) (MAX_RETRIES cfg)); [lia|].
        destruct n; simpl;
          (destruct (Z.leb_spec (attempt + 1) (MAX_RETRIES cfg)); [lia | reflexivity]).
    + cbn [log consecutiveTimeouts].
      destruct (Z.ltb_spec attempt (MAX_RETRIES cfg)) as [Hlt|Hge].
      * cbn [alone resume]. apply IH. lia.
      * unfold loopHead.
        destruct (Z.leb_spec (attempt + 1) (MAX_RETRIES cfg)); [lia|].
        destruct n; simpl;
          (destruct (Z.leb_spec (attempt + 1) (MAX_RETRIES cfg)); [lia | reflexivity]).
Qed.

(** C1. The circuit breaker. In every run of the coordinator, and in every
    submission taken alone, the events added to the trace obey [BreakerLaw]
    for the ceiling [MAX_CONSECUTIVE_TIMEOUTS]: the timeout that brings the
    counter to the ceiling is followed by [process.exit(1)] and by nothing
    else (no POST is issued after it), the process exits in no other way, a
    successful POST resets the counter to 0, and so fewer than [N] timeouts,
    one success and fewer than [N] further timeouts never trip the breaker.
    The counter is at every moment the replay of the settled POSTs. The last
    two parts read the same off one loop iteration: a timeout that brings
    the counter to the ceiling takes the exit, a 2xx response stores 0. *)
Theorem circuit_breaker :
  forall w cfg,
    (forall extractContentLocationUrl extractSourceUrl TARGET_SOURCE options schedule st,
       let '(out, st') :=
         indexAllMhtmlFiles w cfg extractContentLocationUrl extractSourceUrl
           TARGET_SOURCE options schedule st in
       exists new,
         trace st' = trace st ++ new
         /\ consecutiveTimeouts st' = replay (consecutiveTimeouts st) new
         /\ BreakerLaw (MAX_CONSECUTIVE_TIMEOUTS cfg) (consecutiveTimeouts st) new out)
    /\ (forall who containerName blobName fileBuffer indexType sourceUrl timeoutMs maxRetries st,
          let '(out, st') :=
            indexMhtmlFile w cfg who containerName blobName fileBuffer indexType sourceUrl
              timeoutMs maxRetries st in
          exists new,
            trace st' = trace st ++ new
            /\ consecutiveTimeouts st' = replay (consecutiveTimeouts st) new
            /\ BreakerLaw (MAX_CONSECUTIVE_TIMEOUTS cfg) (consecutiveTimeouts st) new out)
    /\ (forall blobName indexType attempt maxRetries c,
          MAX_CONSECUTIVE_TIMEOUTS cfg <= c + 1 ->
          afterFetch cfg blobName indexType attempt maxRetries AbortError c
          = (c + 1, Exit 1))
    /\ (forall blobName indexType attempt maxRetries status body c,
          ok status = true ->
          afterFetch cfg blobName indexType attempt maxRetries (Response status body) c
          = (0, Return {| success := true;
                          blobName := blobName;
                          source := indexType;
                          error := None;
                          statusCode := Some status |})).
Proof.
  intros w cfg. split; [|split; [|split]];
    [| | intros blobName indexType attempt maxRetries c Hmax; simpl;
         apply geb_true in Hmax; rewrite Hmax; reflexivity
       | intros blobName indexType attempt maxRetries status body c Hok; simpl;
         rewrite Hok; reflexivity ].
  - intros eCLU eSU TARGET_SOURCE options schedule st.
    destruct (indexAllMhtmlFiles_Reaches w cfg eCLU eSU TARGET_SOURCE options schedule st)
      as (x & (new & T & C & H) & Ex).
    destruct (indexAllMhtmlFiles w cfg eCLU eSU TARGET_SOURCE options schedule st)
      as [out st']. simpl in *.
    exists new. split; [exact T|]. split; [exact C|]. eapply History_law; eauto.
  - intros who containerName blobName fileBuffer indexType sourceUrl timeoutMs maxRetries st.
    unfold indexMhtmlFile.
    destruct (attempts_Reaches w cfg who containerName blobName fileBuffer indexType
                sourceUrl timeoutMs maxRetries (Z.to_nat maxRetries) 1 st)
      as (x & (new & T & C & H) & Ex).
    destruct (attempts w cfg who containerName blobName fileBuffer indexType
                sourceUrl timeoutMs maxRetries (Z.to_nat maxRetries) 1 st)
      as [out st']. simpl in *.
    exists new. split; [exact T|]. split; [exact C|]. eapply History_law; eauto.
Qed.

(** An endpoint that always times out, under the defaults (ceiling 10, three
    attempts, three documents at a time): the tenth timeout ends the
    process, ten POSTs have been issued and none follows. *)
Example dead_endpoint_trips_at_ceiling :
  let '(out, st') :=
    indexAllMhtmlFiles (answering AbortError) defaults noUrl noGuess None noOptions
      (fun _ => roundRobin) initial in
  out = Exited 1
  /\ settled (trace st') = repeat AbortError 10
  /\ posts (trace st') = 10%nat
  /\ consecutiveTimeouts st' = 10
  /\ List.last (trace st') (Main, GetProperties) = (Doc 3, ProcessExit 1).
Proof. vm_compute. repeat split. Qed.

(** Ceiling 3: two timeouts, a success, two timeouts. The run completes. *)
Example success_between_timeouts_spares :
  let '(out, st') :=
    indexSourceMhtmlFiles spared three noUrl noGuess qast noOptions roundRobin initial in
  (exists rep, out = Returned rep
               /\ Report.total rep = 3%nat
               /\ Report.success rep = 1%nat
               /\ Report.failed rep = 2%nat)
  /\ settled (trace st')
     = [AbortError; AbortError; Response 200 (Text "{}"); AbortError; AbortError]
  /\ consecutiveTimeouts st' = 2.
Proof. vm_compute. split; [eexists; repeat split|]. repeat split. Qed.

(** Timeouts on both sides of an HTTP 500 add up: with a ceiling of 2 the
    second document's first timeout ends the process. *)
Example timeouts_around_http_failure_trip :
  let '(out, st') :=
    indexAllMhtmlFiles flaky strict noUrl noGuess None oneByOne (fun _ => roundRobin)
      initial in
  out = Exited 1
  /\ settled (trace st')
     = [AbortError; Response 500 (Text "Internal Server Error"); AbortError]
  /\ consecutiveTimeouts st' = 2.
Proof. vm_compute. repeat split. Qed.

(** C9. An HTTP-level failure leaves the counter as it is: after a settled
    POST the counter is up by one on a timeout, 0 on a 2xx response and
    unchanged otherwise. So in every run of the coordinator, as long as no
    POST has succeeded the counter is its initial value plus the number of
    timeouts so far, whatever HTTP failures settled in between, and the
    timeout that brings this sum to the ceiling ends the process. *)
Theorem http_failure_keeps_counter :
  forall w cfg,
    (forall blobName indexType attempt maxRetries o c,
       fst (afterFetch cfg blobName indexType attempt maxRetries o c)
       = match o with
         | AbortError => c + 1
         | Response status _ => if ok status then 0 else c
         | NetworkError _ => c
         end)
    /\ (forall blobName indexType attempt maxRetries status body c,
          ok status = false ->
          afterFetch cfg blobName indexType attempt maxRetries (Response status body) c
          = (c, Return {| success := false;
                          blobName := blobName;
                          source := indexType;
                          error := Some ("HTTP " +:+ showZ status +:+ ": " +:+ errorText body);
                          statusCode := Some status |}))
    /\ (forall extractContentLocationUrl extractSourceUrl TARGET_SOURCE options schedule st,
          let '(out, st') :=
            indexAllMhtmlFiles w cfg extractContentLocationUrl extractSourceUrl
              TARGET_SOURCE options schedule st in
          exists new,
            trace st' = trace st ++ new
            /\ consecutiveTimeouts st' = replay (consecutiveTimeouts st) new
            /\ forall pre d post,
                 new = pre ++ (d, PostSettled AbortError) :: post ->
                 forallb (fun o => negb (isSuccess o)) (settled pre) = true ->
                 replay (consecutiveTimeouts st) pre
                 = consecutiveTimeouts st + timeoutsIn (settled pre)
                 /\ (MAX_CONSECUTIVE_TIMEOUTS cfg
                       <= consecutiveTimeouts st + timeoutsIn (settled pre) + 1 ->
                     post = [(d, ProcessExit 1)] /\ out = Exited 1)).
Proof.
  intros w cfg. split; [|split].
  - intros. rewrite afterFetch_counter. reflexivity.
  - intros blobName indexType attempt maxRetries status body c Hok. simpl.
    rewrite Hok. reflexivity.
  - intros eCLU eSU TARGET_SOURCE options schedule st.
    destruct (indexAllMhtmlFiles_Reaches w cfg eCLU eSU TARGET_SOURCE options schedule st)
      as (x & (new & T & C & H) & Ex).
    destruct (indexAllMhtmlFiles w cfg eCLU eSU TARGET_SOURCE options schedule st)
      as [out st']. simpl in *.
    exists new. split; [exact T|]. split; [exact C|].
    intros pre d post E Hall.
    pose proof (replay_without_success pre (consecutiveTimeouts st) Hall) as Hr.
    split; [exact Hr|]. intros Hmax.
    destruct (History_trip_at cfg _ new x H pre d post E) as [-> ->]; [lia|].
    split; [reflexivity | apply Ends_true; exact Ex].
Qed.

(** ** Reports *)

Lemma report_counts rs :
  Report.total (report rs) = (Report.success (report rs) + Report.failed (report rs))%nat
  /\ Report.total (report rs) = length (Report.results (report rs)).
Proof.
  unfold report; simpl. split; [|reflexivity].
  symmetry. apply (List.filter_length (fun r => success r) rs).
Qed.

Lemma allSettled_length tasks :
  forall rs, allSettled tasks = Some rs -> length rs = length tasks.
Proof.
  induction tasks as [|t tasks IH]; intros rs; simpl.
  - intros [= <-]. reflexivity.
  - destruct t; try discriminate.
    destruct (allSettled tasks) as [rs'|]; [|discriminate].
    intros [= <-]. simpl. f_equal. apply IH. reflexivity.
Qed.

Lemma slice_length {A : Type} (l : list A) i c :
  length (slice i (i + c) l) = Nat.min c (length l - i).
Proof.
  unfold slice. rewrite length_take, length_drop. f_equal. lia.
Qed.

Section ReportFacts.
Variable w : World.
Variable cfg : Config.
Variable extractContentLocationUrl : string -> option string.
Variable extractSourceUrl : Source -> string -> option string.
Variable src : Source.
Variable options : Options.

Lemma startBatch_length i batch :
  forall index st, length (fst (startBatch cfg options i index batch st)) = length batch.
Proof.
  induction batch as [|blobName batch IH]; intros index st; simpl; [reflexivity|].
  destruct (0 <? index)%nat;
    match goal with
    | |- context [startBatch cfg options i (S index) batch ?s] =>
        specialize (IH (S index) s);
        destruct (startBatch cfg options i (S index) batch s) as [ts st']
    end; simpl in *; f_equal; exact IH.
Qed.

Lemma resumeBatch_length i batch schedule :
  forall tasks st tasks' st',
    resumeBatch w cfg extractContentLocationUrl extractSourceUrl src
      i batch schedule tasks st = (Running tasks', st') ->
    length tasks' = length tasks.
Proof.
  induction schedule as [|index schedule IH]; intros tasks st tasks' st'; simpl.
  - intros [= <- _]. reflexivity.
  - destruct (batch !! index) as [blobName|]; [|apply IH].
    destruct (tasks !! index) as [t|]; [|apply IH].
    destruct (resume w cfg extractContentLocationUrl extractSourceUrl src
                (Doc (i + index)) blobName t st) as [[t'|code] st1]; [|discriminate].
    intros E. rewrite (IH _ _ _ _ E). apply length_insert.
Qed.

(** A returned report is [report] of one result per listed document. *)
Lemma batches_returns schedule allBlobs fuel :
  forall i results st rep st',
    batches w cfg extractContentLocationUrl extractSourceUrl src options
      schedule allBlobs fuel i results st = (Returned rep, st') ->
    length results = Nat.min i (length allBlobs) ->
    exists rs, rep = report rs /\ length rs = length allBlobs.
Proof.
  induction fuel as [|fuel IH]; intros i results st rep st'; simpl.
  - destruct (Nat.ltb_spec i (length allBlobs)); [discriminate|].
    intros [= <- _] Hlen. exists results. split; [reflexivity | lia].
  - destruct (Nat.ltb_spec i (length allBlobs)) as [Hi|Hi];
      [|intros [= <- _] Hlen; exists results; split; [reflexivity | lia]].
    pose proof (startBatch_length i
                  (slice i (i + theConcurrency cfg options) allBlobs) 0%nat st) as Hs.
    destruct (startBatch cfg options i 0
                (slice i (i + theConcurrency cfg options) allBlobs) st) as [tasks st1].
    simpl in Hs.
    pose proof (resumeBatch_length i (slice i (i + theConcurrency cfg options) allBlobs)
                  (schedule i) tasks st1) as Hr.
    destruct (resumeBatch w cfg extractContentLocationUrl extractSourceUrl src i
                (slice i (i + theConcurrency cfg options) allBlobs)
                (schedule i) tasks st1) as [[tasks'|code] st2]; [|discriminate].
    specialize (Hr tasks' st2 eq_refl).
    destruct (allSettled tasks') as [batchResults|] eqn:Eall; [|discriminate].
    apply allSettled_length in Eall.
    intros E Hlen. apply (IH _ _ _ _ _ E).
    rewrite length_app, Eall, Hr, Hs, slice_length, Hlen. lia.
Qed.

(** With a positive concurrency the loop runs out of documents before it
    runs out of fuel: more fuel changes nothing. *)
Lemma batches_fuel schedule allBlobs fuel :
  (1 <= theConcurrency cfg options)%nat ->
  forall extra i results st,
    (length allBlobs - i <= fuel)%nat ->
    batches w cfg extractContentLocationUrl extractSourceUrl src options
      schedule allBlobs (fuel + extra) i results st
    = batches w cfg extractContentLocationUrl extractSourceUrl src options
        schedule allBlobs fuel i results st.
Proof.
  intros Hc extra. induction fuel as [|fuel IH]; intros i results st Hfuel.
  - destruct extra; simpl; destruct (Nat.ltb_spec i (length allBlobs)); (lia || reflexivity).
  - simpl. destruct (Nat.ltb_spec i (length allBlobs)); [|reflexivity].
    destruct (startBatch _ _ _ _ _ _) as [tasks st1].
    destruct (resumeBatch _ _ _ _ _ _ _ _ _ _) as [[tasks'|code] st2]; [|reflexivity].
    destruct (allSettled tasks'); [|reflexivity].
    apply IH. lia.
Qed.

End ReportFacts.

(** C5. Every report the orchestrator returns from a run that is not a dry
    run has [total = success + failed = results.length]; moreover it holds
    one result per listed document with the recognised extension. *)
Theorem report_invariant :
  forall w cfg extractContentLocationUrl extractSourceUrl src options schedule st rep st',
    theDryRun options = false ->
    indexSourceMhtmlFiles w cfg extractContentLocationUrl extractSourceUrl src options
      schedule st = (Returned rep, st') ->
    Report.total rep = (Report.success rep + Report.failed rep)%nat
    /\ Report.total rep = length (Report.results rep)
    /\ exists names,
         listBlobsFlat w (containerOf src) (prefixOf src) = inr names
         /\ length (Report.results rep)
            = length (List.filter (fun name => endsWith name ".mhtml") names).
Proof.
  intros w cfg eCLU eSU src options schedule st rep st' Hdry.
  unfold indexSourceMhtmlFiles. rewrite Hdry.
  destruct (getProperties w) as [shown|]; [discriminate|].
  destruct (listBlobsFlat w (containerOf src) (prefixOf src)) as [shown|names];
    [discriminate|].
  destruct (Nat.eqb_spec (length (List.filter (fun name => endsWith name ".mhtml") names)) 0)
    as [Hzero|Hsome].
  - intros [= <- _]. simpl. repeat split. exists names. split; [reflexivity|].
    symmetry. exact Hzero.
  - intros E. apply batches_returns in E; [|simpl; lia].
    destruct E as (rs & -> & Hlen).
    destruct (report_counts rs) as [H1 H2]. repeat split; try assumption.
    exists names. split; [reflexivity | exact Hlen].
Qed.

Lemma report_invariant_witness :
  exists rep st',
    indexSourceMhtmlFiles (slowStart 2) defaults noUrl noGuess qast twoByTwo roundRobin
      initial = (Returned rep, st')
    /\ Report.total rep = 5%nat
    /\ Report.total rep = (Report.success rep + Report.failed rep)%nat
    /\ Report.total rep = length (Report.results rep)
    /\ exists names,
         listBlobsFlat (slowStart 2) (containerOf qast) (prefixOf qast) = inr names
         /\ length (Report.results rep)
            = length (List.filter (fun name => endsWith name ".mhtml") names).
Proof.
  eexists. eexists. split; [vm_compute; reflexivity|]. split; [reflexivity|].
  eapply (report_invariant (slowStart 2) defaults noUrl noGuess qast twoByTwo roundRobin
            initial).
  - reflexivity.
  - vm_compute. reflexivity.
Defined.

(** C6. A dry run over a listing with at least one name ending in [.mhtml]
    returns the count of those names as [total], zero successes and
    failures and no results; the listing is the only thing it does: no
    connectivity check, no download, no POST. *)
Theorem dry_run_lists_only :
  forall w cfg extractContentLocationUrl extractSourceUrl src options schedule st names,
    theDryRun options = true ->
    listBlobsFlat w (containerOf src) (prefixOf src) = inr names ->
    (1 <= length (List.filter (fun name => endsWith name ".mhtml") names))%nat ->
    indexSourceMhtmlFiles w cfg extractContentLocationUrl extractSourceUrl src options
      schedule st
    = (Returned {| Report.total :=
                     length (List.filter (fun name => endsWith name ".mhtml") names);
                   Report.success := 0;
                   Report.failed := 0;
                   Report.results := [] |},
       log Main (ListBlobs (containerOf src) (prefixOf src)) st)
    /\ posts (trace (log Main (ListBlobs (containerOf src) (prefixOf src)) st))
       = posts (trace st).
Proof.
  intros w cfg eCLU eSU src options schedule st names Hdry Hlist Hsome.
  unfold indexSourceMhtmlFiles. rewrite Hdry, Hlist.
  destruct (Nat.eqb_spec (length (List.filter (fun name => endsWith name ".mhtml") names)) 0)
    as [Hzero|_]; [lia|].
  split; [reflexivity|]. simpl. rewrite posts_snoc. simpl. lia.
Qed.

Lemma dry_run_lists_only_witness :
  indexSourceMhtmlFiles (answering refused) defaults noUrl noGuess qast listingOnly
    roundRobin initial
  = (Returned {| Report.total := 5; Report.success := 0; Report.failed := 0;
                 Report.results := [] |},
     {| consecutiveTimeouts := 0;
        trace := [(Main, ListBlobs "qast-mhtml" "qast-mhtml/data")] |})
  /\ posts [(Main, ListBlobs "qast-mhtml" "qast-mhtml/data")] = 0%nat.
Proof.
  apply (dry_run_lists_only (answering refused) defaults noUrl noGuess qast listingOnly
           roundRobin initial sixNames).
  - reflexivity.
  - reflexivity.
  - vm_compute. lia.
Defined.

(** C8. The combined counts of a returned run report are the sums of the
    counts of the partition reports it includes: those of both partitions,
    run one after the other, when the selector is "all", and those of the
    named partition alone otherwise. *)
Theorem combined_is_sum :
  forall w cfg extractContentLocationUrl extractSourceUrl TARGET_SOURCE options schedule
         st results st',
    indexAllMhtmlFiles w cfg extractContentLocationUrl extractSourceUrl TARGET_SOURCE
      options schedule st = (Returned results, st') ->
    let run := fun src => indexSourceMhtmlFiles w cfg extractContentLocationUrl
                            extractSourceUrl src options (schedule src) in
    match theTarget TARGET_SOURCE options with
    | TargetAll =>
        exists q s st1,
          run qast st = (Returned q, st1)
          /\ run stock st1 = (Returned s, st')
          /\ Run.qast results = Some q
          /\ Run.stock results = Some s
          /\ Combined.total (Run.combined results) = (Report.total q + Report.total s)%nat
          /\ Combined.success (Run.combined results)
             = (Report.success q + Report.success s)%nat
          /\ Combined.failed (Run.combined results)
             = (Report.failed q + Report.failed s)%nat
    | TargetQast =>
        exists q,
          run qast st = (Returned q, st')
          /\ Run.qast results = Some q
          /\ Run.stock results = None
          /\ Combined.total (Run.combined results) = Report.total q
          /\ Combined.success (Run.combined results) = Report.success q
          /\ Combined.failed (Run.combined results) = Report.failed q
    | TargetStock =>
        exists s,
          run stock st = (Returned s, st')
          /\ Run.qast results = None
          /\ Run.stock results = Some s
          /\ Combined.total (Run.combined results) = Report.total s
          /\ Combined.success (Run.combined results) = Report.success s
          /\ Combined.failed (Run.combined results) = Report.failed s
    end.
Proof.
  intros w cfg eCLU eSU TARGET_SOURCE options schedule st results st'.
  unfold indexAllMhtmlFiles, partition.
  destruct (theTarget TARGET_SOURCE options); simpl.
  - destruct (indexSourceMhtmlFiles w cfg eCLU eSU qast options (schedule qast) st)
      as [[q|shown|code|] st1]; try discriminate.
    intros [= <- <-]. exists q. repeat split.
  - destruct (indexSourceMhtmlFiles w cfg eCLU eSU stock options (schedule stock) st)
      as [[r|shown|code|] st1]; try discriminate.
    intros [= <- <-]. exists r. repeat split.
  - destruct (indexSourceMhtmlFiles w cfg eCLU eSU qast options (schedule qast) st)
      as [[q|shown|code|] st1]; try discriminate.
    destruct (indexSourceMhtmlFiles w cfg eCLU eSU stock options (schedule stock) st1)
      as [[r|shown|code|] st2] eqn:Estock; try discriminate.
    intros [= <- <-]. exists q, r, st1. repeat split. exact Estock.
Qed.

Lemma combined_is_sum_witness :
  exists results st',
    indexAllMhtmlFiles (slowStart 2) defaults noUrl noGuess None twoByTwo
      (fun _ => roundRobin) initial = (Returned results, st')
    /\ Combined.total (Run.combined results) = 10%nat
    /\ exists q s st1,
         indexSourceMhtmlFiles (slowStart 2) defaults noUrl noGuess qast twoByTwo
           roundRobin initial = (Returned q, st1)
         /\ indexSourceMhtmlFiles (slowStart 2) defaults noUrl noGuess stock twoByTwo
              roundRobin st1 = (Returned s, st')
         /\ Run.qast results = Some q
         /\ Run.stock results = Some s
         /\ Combined.total (Run.combined results) = (Report.total q + Report.total s)%nat
         /\ Combined.success (Run.combined results)
            = (Report.success q + Report.success s)%nat
         /\ Combined.failed (Run.combined results)
            = (Report.failed q + Report.failed s)%nat.
Proof.
  eexists. eexists. split; [vm_compute; reflexivity|]. split; [reflexivity|].
  apply (combined_is_sum (slowStart 2) defaults noUrl noGuess None twoByTwo
           (fun _ => roundRobin) initial).
  vm_compute. reflexivity.
Defined.

(** ** Batches *)

Lemma groupsFrom_concat {A : Type} (c : nat) (l : list A) fuel :
  (1 <= c)%nat ->
  forall i, (length l - i <= fuel)%nat -> concat (groupsFrom fuel i c l) = drop i l.
Proof.
  intros Hc. induction fuel as [|fuel IH]; intros i Hfuel; simpl.
  - destruct (Nat.ltb_spec i (length l)); [lia|]. rewrite drop_ge by lia. reflexivity.
  - destruct (Nat.ltb_spec i (length l)); [|rewrite drop_ge by lia; reflexivity].
    simpl. rewrite IH by lia. unfold slice.
    replace (i + c - i)%nat with c by lia.
    rewrite <- (take_drop c (drop i l)) at 2. rewrite drop_drop. reflexivity.
Qed.





Ltac adds_by evs :=
  exists evs; simpl; rewrite <- ?app_assoc; simpl;
  (split; [reflexivity|]); (split; [|split]);
  [ let e := fresh "e" in let He := fresh "He" in
    intros e He; simpl in He; intuition (subst; reflexivity)
  | let name := fresh "name" in let He := fresh "He" in
    intros name He; simpl in He; intuition congruence
  | let r := fresh "r" in let Hr := fresh "Hr" in
    intros r Hr; simpl; first [discriminate | injection Hr as <-; auto | auto] ].

Section BarrierFacts.
Variable w : World.
Variable cfg : Config.
Variable extractContentLocationUrl : string -> option string.
Variable extractSourceUrl : Source -> string -> option string.
Variable src : Source.
Variable options : Options.

Lemma loopHead_shape who blobName fileBuffer sourceUrl attempt st :
  (exists o,
     loopHead w cfg src who blobName fileBuffer sourceUrl attempt st
     = (Suspended (AwaitFetch fileBuffer sourceUrl attempt o),
        log who (Post blobName attempt) st))
  \/ (exists r,
        loopHead w cfg src who blobName fileBuffer sourceUrl attempt st
        = (Suspended (Settled r), log who (Fulfilled (success r)) st)).
Proof.
  unfold loopHead, settle. destruct (attempt <=? MAX_RETRIES cfg); eauto.
Qed.

Lemma resume_Adds who blobName t st :
  Adds who blobName t
    (fst (resume w cfg extractContentLocationUrl extractSourceUrl src who blobName t st))
    st
    (snd (resume w cfg extractContentLocationUrl extractSourceUrl src who blobName t st)).
Proof.
  unfold Adds, resume.
  destruct t as [| |fileBuffer sourceUrl attempt o|fileBuffer sourceUrl attempt|r].
  - adds_by [(who, Download blobName)].
  - destruct (downloadBlob w (containerOf src) blobName) as [message|fileBuffer].
    + adds_by [(who, Fulfilled false)].
    + match goal with
      | |- context [loopHead w cfg src who blobName ?fb ?su ?at' st] =>
          destruct (loopHead_shape who blobName fb su at' st) as [[o ->]|[r ->]]
      end.
      * adds_by [(who, Post blobName 1)].
      * adds_by [(who, Fulfilled (success r))].
  - destruct o as [status body| |message]; simpl.
    + destruct (ok status); simpl.
      * adds_by [(who, PostSettled (Response status body)); (who, Fulfilled true)].
      * adds_by [(who, PostSettled (Response status body)); (who, Fulfilled false)].
    + destruct (consecutiveTimeouts st + 1 >=? MAX_CONSECUTIVE_TIMEOUTS cfg); simpl.
      * adds_by [(who, PostSettled AbortError); (who, ProcessExit 1)].
      * destruct (attempt <? MAX_RETRIES cfg); simpl.
        -- adds_by [(who, PostSettled AbortError); (who, Sleep (2000 * attempt))].
        -- match goal with
           | |- context [loopHead w cfg src who blobName ?fb ?su ?at' ?s] =>
               destruct (loopHead_shape who blobName fb su at' s) as [[o ->]|[r ->]]
           end.
           ++ adds_by [(who, PostSettled AbortError); (who, Post blobName (attempt + 1))].
           ++ adds_by [(who, PostSettled AbortError); (who, Fulfilled (success r))].
    + destruct (attempt <? MAX_RETRIES cfg); simpl.
      * adds_by [(who, PostSettled (NetworkError message)); (who, Sleep (1000 * attempt))].
      * match goal with
        | |- context [loopHead w cfg src who blobName ?fb ?su ?at' ?s] =>
            destruct (loopHead_shape who blobName fb su at' s) as [[o ->]|[r ->]]
        end.
        -- adds_by [(who, PostSettled (NetworkError message));
                    (who, Post blobName (attempt + 1))].
        -- adds_by [(who, PostSettled (NetworkError message));
                    (who, Fulfilled (success r))].
  - match goal with
    | |- context [loopHead w cfg src who blobName ?fb ?su ?at' st] =>
        destruct (loopHead_shape who blobName fb su at' st) as [[o ->]|[r0 ->]]
    end.
    + adds_by [(who, Post blobName (attempt + 1))].
    + adds_by [(who, Fulfilled (success r0))].
  - exists []. simpl. rewrite app_nil_r. repeat split.
    + intros e [].
    + intros name [].
    + intros r0 [= <-]. auto.
Qed.

Lemma startBatch_Adds i batch :
  forall index st,
    exists new,
      trace (snd (startBatch cfg options i index batch st)) = trace st ++ new
      /\ (forall e, In e new ->
            exists k, fst e = Doc (i + (index + k)) /\ (k < length batch)%nat)
      /\ (forall g name, In (Doc g, Download name) new ->
            exists k, g = (i + (index + k))%nat /\ batch !! k = Some name)
      /\ (forall k r,
            fst (startBatch cfg options i index batch st) !! k <> Some (Settled r)).
Proof.
  induction batch as [|blobName batch IH]; intros index st; simpl.
  - exists []. rewrite app_nil_r. repeat split.
    + intros e [].
    + intros g name [].
    + intros k r. rewrite lookup_nil. discriminate.
  - set (first := if (0 <? index)%nat
                  then (AwaitDelay, log (Doc (i + index)) (Sleep (theDelayMs cfg options)) st)
                  else (AwaitDownload, log (Doc (i + index)) (Download blobName) st)).
    assert (Hfirst : exists t a,
               first = (t, log (Doc (i + index)) a st)
               /\ (forall r, t <> Settled r)
               /\ (forall name, a = Download name -> name = blobName)).
    { unfold first. destruct (0 <? index)%nat; eexists; eexists;
        (split; [reflexivity|]); split; try discriminate; congruence. }
    destruct Hfirst as (t & a & -> & Ht & Ha).
    destruct (IH (S index) (log (Doc (i + index)) a st)) as (new & T & Htag & Hdl & Hns).
    destruct (startBatch cfg options i (S index) batch (log (Doc (i + index)) a st))
      as [ts st'].
    simpl in *. exists ((Doc (i + index), a) :: new).
    rewrite T, <- app_assoc. simpl. repeat split.
    + intros e [<-|He].
      * exists 0%nat. simpl. split; [f_equal; lia | lia].
      * destruct (Htag e He) as (k & Hk & Hlt). exists (S k).
        split; [rewrite Hk; f_equal; lia | lia].
    + intros g name [E|He].
      * injection E as <- ->. exists 0%nat. split; [lia|]. simpl. f_equal.
        symmetry. apply Ha. reflexivity.
      * destruct (Hdl g name He) as (k & -> & Hk). exists (S k). split; [lia | exact Hk].
    + intros [|k] r; simpl; [intros [= E]; exact (Ht r E) | apply Hns].
Qed.

Lemma resumeBatch_Adds i batch schedule :
  forall tasks st,
    exists new,
      trace (snd (resumeBatch w cfg extractContentLocationUrl extractSourceUrl src
                    i batch schedule tasks st)) = trace st ++ new
      /\ BatchAdds i batch new
      /\ (forall tasks',
            fst (resumeBatch w cfg extractContentLocationUrl extractSourceUrl src
                   i batch schedule tasks st) = Running tasks' ->
            forall k r, tasks' !! k = Some (Settled r) ->
              tasks !! k = Some (Settled r)
              \/ In (Doc (i + k), Fulfilled (success r)) new).
Proof.
  induction schedule as [|index schedule IH]; intros tasks st; simpl.
  - exists []. rewrite app_nil_r. split; [reflexivity|]. split.
    + split; [intros e [] | intros g name []].
    + intros tasks' [= <-] k r Hk. auto.
  - destruct (batch !! index) as [blobName|] eqn:Eb; [|apply IH].
    destruct (tasks !! index) as [t|] eqn:Et; [|apply IH].
    destruct (resume_Adds (Doc (i + index)) blobName t st) as (new1 & T1 & Htag1 & Hdl1 & Hs1).
    destruct (resume w cfg extractContentLocationUrl extractSourceUrl src
                (Doc (i + index)) blobName t st) as [[t'|code] st1]; simpl in *.
    + destruct (IH (<[index:=t']> tasks) st1) as (new2 & T2 & [Htag2 Hdl2] & Hs2).
      exists (new1 ++ new2). rewrite T2, T1, app_assoc. split; [reflexivity|]. split.
      * split.
        -- intros e He. apply in_app_or in He as [He|He]; [|apply Htag2; exact He].
           exists index. split; [apply Htag1; exact He|].
           apply lookup_lt_Some in Eb. exact Eb.
        -- intros g name He. apply in_app_or in He as [He|He]; [|apply Hdl2; exact He].
           assert (g = (i + index)%nat) as ->
             by (specialize (Htag1 _ He); simpl in Htag1; congruence).
           exists index. split; [reflexivity|]. rewrite Eb. f_equal. symmetry.
           apply Hdl1. exact He.
      * intros tasks' Erun k r Hk.
        destruct (Hs2 tasks' Erun k r Hk) as [Hin|Hin];
          [|right; apply in_or_app; right; exact Hin].
        destruct (Nat.eq_dec index k) as [<-|Hne].
        -- rewrite list_lookup_insert_eq in Hin by (apply lookup_lt_Some in Et; exact Et).
           injection Hin as ->.
           destruct (Hs1 r eq_refl) as [->|Hnew]; [left; exact Et|].
           right. apply in_or_app. left. exact Hnew.
        -- rewrite list_lookup_insert_ne in Hin by exact Hne. left. exact Hin.
    + exists new1. split; [exact T1|]. split.
      * split.
        -- intros e He. exists index. split; [apply Htag1; exact He|].
           apply lookup_lt_Some in Eb. exact Eb.
        -- intros g name He.
           assert (g = (i + index)%nat) as ->
             by (specialize (Htag1 _ He); simpl in Htag1; congruence).
           exists index. split; [reflexivity|]. rewrite Eb. f_equal. symmetry.
           apply Hdl1. exact He.
      * intros tasks' [=].
Qed.

Lemma slice_lookup {A : Type} (l : list A) i c k x :
  slice i (i + c) l !! k = Some x -> l !! (i + k)%nat = Some x.
Proof.
  unfold slice. intros H. apply lookup_take_Some in H as [H _].
  rewrite lookup_drop in H. exact H.
Qed.


End BarrierFacts.



(** ** Invariants of the batch loop *)

Section GraphOfResume.
Variable w : World.
Variable cfg : Config.
Variable extractContentLocationUrl : string -> option string.
Variable extractSourceUrl : Source -> string -> option string.
Variable src : Source.

(** Every resumption is one of the paths of [Resumes]. *)
Lemma resume_graph who blobName t st :
  exists acts,
    Resumes cfg src blobName (downloadBlob w (containerOf src) blobName)
      t (consecutiveTimeouts st)
      (fst (resume w cfg extractContentLocationUrl extractSourceUrl src who blobName t st))
      acts
      (consecutiveTimeouts
         (snd (resume w cfg extractContentLocationUrl extractSourceUrl src who blobName t st)))
    /\ trace (snd (resume w cfg extractContentLocationUrl extractSourceUrl src
                     who blobName t st))
       = trace st ++ map (pair who) acts.
Proof.
  unfold resume, loopHead, settle.
  destruct t as [| |fileBuffer sourceUrl attempt o|fileBuffer sourceUrl attempt|r].
  - eexists. split; [apply Resumes_delay | reflexivity].
  - destruct (downloadBlob w (containerOf src) blobName) as [message|fileBuffer] eqn:Ed.
    + eexists. split; [apply Resumes_download_failed; reflexivity | reflexivity].
    + destruct (Z.leb_spec 1 (MAX_RETRIES cfg)).
      * eexists. split; [eapply Resumes_first_post; eauto | reflexivity].
      * eexists. split; [eapply Resumes_no_budget; eauto | reflexivity].
  - destruct o as [status body| |message]; simpl.
    + destruct (ok status) eqn:Eok; simpl.
      * eexists. split; [apply Resumes_accepted; exact Eok|].
        rewrite <- app_assoc. reflexivity.
      * eexists. split; [apply Resumes_rejected; exact Eok|].
        rewrite <- app_assoc. reflexivity.
    + destruct (consecutiveTimeouts st + 1 >=? MAX_CONSECUTIVE_TIMEOUTS cfg) eqn:Etrip; simpl.
      * apply geb_true in Etrip. eexists. split; [apply Resumes_tripped; exact Etrip|].
        rewrite <- app_assoc. reflexivity.
      * apply geb_false in Etrip.
        destruct (Z.ltb_spec attempt (MAX_RETRIES cfg)); simpl.
        -- eexists. split; [apply Resumes_timeout_retry; assumption|].
           rewrite <- app_assoc. reflexivity.
        -- destruct (Z.leb_spec (attempt + 1) (MAX_RETRIES cfg)); [lia|]. simpl.
           eexists. split; [apply Resumes_timeout_last; assumption|].
           rewrite <- app_assoc. reflexivity.
    + destruct (Z.ltb_spec attempt (MAX_RETRIES cfg)); simpl.
      * eexists. split; [apply Resumes_network_retry; assumption|].
        rewrite <- app_assoc. reflexivity.
      * destruct (Z.leb_spec (attempt + 1) (MAX_RETRIES cfg)); [lia|]. simpl.
        eexists. split; [apply Resumes_network_last; assumption|].
        rewrite <- app_assoc. reflexivity.
  - destruct (Z.leb_spec (attempt + 1) (MAX_RETRIES cfg)).
    + eexists. split; [apply Resumes_next_post; assumption | reflexivity].
    + eexists. split; [apply Resumes_backoff_last; assumption | reflexivity].
  - exists []. split; [apply Resumes_settled|]. simpl. rewrite app_nil_r. reflexivity.
Qed.

End GraphOfResume.

Lemma allSettled_tasks tasks :
  forall rs, allSettled tasks = Some rs -> tasks = map Settled rs.
Proof.
  induction tasks as [|t tasks IH]; intros rs; simpl.
  - intros [= <-]. reflexivity.
  - destruct t; try discriminate.
    destruct (allSettled tasks) as [rs'|]; [|discriminate].
    intros [= <-]. simpl. f_equal. apply IH. reflexivity.
Qed.

(** A property [Inv g] of the task of each document [g] and a property [P]
    of every event, both kept by each resumption, are kept by the whole
    batch loop. *)
Section BatchInvariant.
Variable w : World.
Variable cfg : Config.
Variable extractContentLocationUrl : string -> option string.
Variable extractSourceUrl : Source -> string -> option string.
Variable src : Source.
Variable options : Options.
Variable allBlobs : list string.
Variable Inv : nat -> Task -> Prop.
Variable P : Event -> Prop.

Hypothesis resume_keeps :
  forall g blobName t st,
    allBlobs !! g = Some blobName ->
    Inv g t ->
    exists new,
      trace (snd (resume w cfg extractContentLocationUrl extractSourceUrl src
                    (Doc g) blobName t st)) = trace st ++ new
      /\ Forall P new
      /\ forall t',
           fst (resume w cfg extractContentLocationUrl extractSourceUrl src
                  (Doc g) blobName t st) = Suspended t' ->
           Inv g t'.
Hypothesis delayed :
  forall g blobName,
    allBlobs !! g = Some blobName ->
    Inv g AwaitDelay /\ P (Doc g, Sleep (theDelayMs cfg options)).
Hypothesis downloading :
  forall g blobName,
    allBlobs !! g = Some blobName ->
    Inv g AwaitDownload /\ P (Doc g, Download blobName).
Hypothesis pausing : P (Main, Sleep 500).

Lemma startBatch_invariant i batch :
  forall index st,
    (forall k blobName, batch !! k = Some blobName ->
       allBlobs !! (i + (index + k))%nat = Some blobName) ->
    exists new,
      trace (snd (startBatch cfg options i index batch st)) = trace st ++ new
      /\ Forall P new
      /\ forall k t,
           fst (startBatch cfg options i index batch st) !! k = Some t ->
           Inv (i + (index + k)) t.
Proof.
  induction batch as [|blobName batch IH]; intros index st Hnames; simpl.
  - exists []. rewrite app_nil_r. repeat split; [constructor|].
    intros k t. rewrite lookup_nil. discriminate.
  - assert (Hme : allBlobs !! (i + index)%nat = Some blobName).
    { specialize (Hnames 0%nat blobName eq_refl).
      rewrite Nat.add_0_r in Hnames. exact Hnames. }
    destruct (delayed _ _ Hme) as [Id Pd]. destruct (downloading _ _ Hme) as [Iw Pw].
    set (first := if (0 <? index)%nat
                  then (AwaitDelay, log (Doc (i + index)) (Sleep (theDelayMs cfg options)) st)
                  else (AwaitDownload, log (Doc (i + index)) (Download blobName) st)).
    assert (Hfirst : exists t a,
               first = (t, log (Doc (i + index)) a st)
               /\ Inv (i + index) t /\ P (Doc (i + index), a)).
    { unfold first. destruct (0 <? index)%nat; eauto 6. }
    destruct Hfirst as (t & a & -> & It & Pa).
    destruct (IH (S index) (log (Doc (i + index)) a st)) as (new & T & HP & HI).
    { intros k name Hk. replace (i + (S index + k))%nat with (i + (index + S k))%nat by lia.
      apply Hnames. exact Hk. }
    destruct (startBatch cfg options i (S index) batch (log (Doc (i + index)) a st))
      as [ts st'].
    simpl in *. exists ((Doc (i + index), a) :: new).
    rewrite T, <- app_assoc. simpl. repeat split.
    + constructor; assumption.
    + intros [|k] t0; simpl.
      * intros [= <-]. rewrite Nat.add_0_r. exact It.
      * intros Hk. replace (i + (index + S k))%nat with (i + (S index + k))%nat by lia.
        apply HI. exact Hk.
Qed.

Lemma resumeBatch_invariant i batch schedule :
  (forall k blobName, batch !! k = Some blobName ->
     allBlobs !! (i + k)%nat = Some blobName) ->
  forall tasks st,
    (forall k t, tasks !! k = Some t -> Inv (i + k) t) ->
    exists new,
      trace (snd (resumeBatch w cfg extractContentLocationUrl extractSourceUrl src
                    i batch schedule tasks st)) = trace st ++ new
      /\ Forall P new
      /\ forall tasks',
           fst (resumeBatch w cfg extractContentLocationUrl extractSourceUrl src
                  i batch schedule tasks st) = Running tasks' ->
           forall k t, tasks' !! k = Some t -> Inv (i + k) t.
Proof.
  intros Hnames.
  induction schedule as [|index schedule IH]; intros tasks st HI; simpl.
  - exists []. rewrite app_nil_r. repeat split; [constructor|].
    intros tasks' [= <-]. exact HI.
  - destruct (batch !! index) as [blobName|] eqn:Eb; [|apply IH; exact HI].
    destruct (tasks !! index) as [t|] eqn:Et; [|apply IH; exact HI].
    destruct (resume_keeps (i + index) blobName t st (Hnames _ _ Eb) (HI _ _ Et))
      as (new1 & T1 & P1 & I1).
    destruct (resume w cfg extractContentLocationUrl extractSourceUrl src
                (Doc (i + index)) blobName t st) as [[t'|code] st1]; simpl in *.
    + destruct (IH (<[index:=t']> tasks) st1) as (new2 & T2 & P2 & I2).
      { intros k t0 Hk. destruct (Nat.eq_dec index k) as [<-|Hne].
        - rewrite list_lookup_insert_eq in Hk by (apply lookup_lt_Some in Et; exact Et).
          injection Hk as <-. apply I1. reflexivity.
        - rewrite list_lookup_insert_ne in Hk by exact Hne. apply HI. exact Hk. }
      exists (new1 ++ new2). rewrite T2, T1, app_assoc. repeat split.
      * apply Forall_app. split; assumption.
      * exact I2.
    + exists new1. repeat split; [exact T1 | exact P1 |]. intros tasks' [=].
Qed.

Lemma batches_invariant schedule fuel :
  forall i results st,
    length results = Nat.min i (length allBlobs) ->
    (forall g r, results !! g = Some r -> Inv g (Settled r)) ->
    exists new,
      trace (snd (batches w cfg extractContentLocationUrl extractSourceUrl src options
                    schedule allBlobs fuel i results st)) = trace st ++ new
      /\ Forall P new
      /\ forall rep,
           fst (batches w cfg extractContentLocationUrl extractSourceUrl src options
                  schedule allBlobs fuel i results st) = Returned rep ->
           exists rs,
             rep = report rs
             /\ length rs = length allBlobs
             /\ forall g r, rs !! g = Some r -> Inv g (Settled r).
Proof.
  assert (Hstop : forall (i : nat) results (st : State),
             (length allBlobs <= i)%nat ->
             length results = Nat.min i (length allBlobs) ->
             (forall g r, results !! g = Some r -> Inv g (Settled r)) ->
             exists new,
               trace st = trace st ++ new
               /\ Forall P new
               /\ forall rep,
                    Returned (report results) = Returned rep ->
                    exists rs,
                      rep = report rs
                      /\ length rs = length allBlobs
                      /\ forall g r, rs !! g = Some r -> Inv g (Settled r)).
  { intros i results st Hi Hlen HI. exists []. rewrite app_nil_r.
    repeat split; [constructor|]. intros rep [= <-]. exists results.
    repeat split; [lia | exact HI]. }
  induction fuel as [|fuel IH]; intros i results st Hlen HI; simpl.
  - destruct (Nat.ltb_spec i (length allBlobs)); simpl; [|eapply Hstop; eauto].
    exists []. rewrite app_nil_r. repeat split; [constructor|]. intros rep [=].
  - destruct (Nat.ltb_spec i (length allBlobs)) as [Hi|Hi]; [|eapply Hstop; eauto].
    set (c := theConcurrency cfg options) in *.
    set (batch := slice i (i + c) allBlobs) in *.
    assert (Hnames : forall k blobName, batch !! k = Some blobName ->
              allBlobs !! (i + k)%nat = Some blobName)
      by (intros k name Hk; apply (slice_lookup allBlobs i c k name Hk)).
    destruct (startBatch_invariant i batch 0%nat st) as (new1 & T1 & P1 & I1);
      [exact Hnames|].
    pose proof (startBatch_length cfg options i batch 0%nat st) as Hl1.
    destruct (startBatch cfg options i 0 batch st) as [tasks st1]. simpl in *.
    destruct (resumeBatch_invariant i batch (schedule i) Hnames tasks st1)
      as (new2 & T2 & P2 & I2); [exact I1|].
    pose proof (resumeBatch_length w cfg extractContentLocationUrl extractSourceUrl src
                  i batch (schedule i) tasks st1) as Hl2.
    destruct (resumeBatch w cfg extractContentLocationUrl extractSourceUrl src
                i batch (schedule i) tasks st1) as [[tasks'|code] st2]; simpl in *.
    + specialize (Hl2 tasks' st2 eq_refl). specialize (I2 tasks' eq_refl).
      destruct (allSettled tasks') as [batchResults|] eqn:Eall.
      * pose proof (allSettled_length _ _ Eall) as Hl3.
        apply allSettled_tasks in Eall.
        set (pause := if (i + c <? length allBlobs)%nat then [(Main, Sleep 500)] else []).
        match goal with
        | |- context [batches _ _ _ _ _ _ _ _ fuel _ ?rs ?s] =>
            assert (T3 : trace s = trace st2 ++ pause)
              by (unfold pause; destruct (i + c <? length allBlobs)%nat; simpl;
                  [reflexivity | rewrite app_nil_r; reflexivity]);
            destruct (IH (i + c)%nat rs s) as (new3 & T4 & P4 & I4)
        end.
        -- rewrite length_app, Hl3, Hl2, Hl1, Hlen. unfold batch.
           rewrite slice_length. lia.
        -- intros g r Hg. apply lookup_app_Some in Hg as [Hg|[Hge Hg]];
             [apply HI; exact Hg|].
           replace g with (i + (g - length results))%nat by lia.
           apply I2. rewrite Eall, list_lookup_fmap, Hg. reflexivity.
        -- exists (new1 ++ new2 ++ pause ++ new3).
           rewrite T4, T3, T2, T1, <- !app_assoc. repeat split; [|exact I4].
           repeat (apply Forall_app; split); try assumption.
           unfold pause. destruct (i + c <? length allBlobs)%nat; repeat constructor.
           exact pausing.
      * exists (new1 ++ new2). simpl. rewrite T2, T1, <- app_assoc. repeat split.
        -- apply Forall_app. split; assumption.
        -- intros rep [=].
    + exists (new1 ++ new2). simpl. rewrite T2, T1, <- app_assoc. repeat split.
      * apply Forall_app. split; assumption.
      * intros rep [=].
Qed.

End BatchInvariant.

Lemma Resumes_names cfg src name downloaded t c r acts c' :
  Resumes cfg src name downloaded t c (Suspended (Settled r)) acts c' ->
  t = Settled r \/ (blobName r = name /\ source r = src).
Proof. inversion 1; subst; auto. Qed.

(** X1. Results come in listing order. Whatever the order in which the
    calls of a batch complete, the report a run that is not a dry run
    returns holds exactly one result per listed [.mhtml] name, in the order
    of the listing, each carrying that name and the partition tag. *)
Theorem results_in_listing_order :
  forall w cfg extractContentLocationUrl extractSourceUrl src options schedule st rep st',
    theDryRun options = false ->
    indexSourceMhtmlFiles w cfg extractContentLocationUrl extractSourceUrl src options
      schedule st = (Returned rep, st') ->
    exists names,
      listBlobsFlat w (containerOf src) (prefixOf src) = inr names
      /\ map blobName (Report.results rep)
         = List.filter (fun name => endsWith name ".mhtml") names
      /\ Forall (fun r => source r = src) (Report.results rep).
Proof.
  intros w cfg eCLU eSU src options schedule st rep st' Hdry.
  unfold indexSourceMhtmlFiles. rewrite Hdry.
  destruct (getProperties w) as [shown|]; [discriminate|].
  destruct (listBlobsFlat w (containerOf src) (prefixOf src)) as [shown|names];
    [discriminate|].
  set (allBlobs := List.filter (fun name => endsWith name ".mhtml") names) in *.
  intros E. exists names. split; [reflexivity|]. fold allBlobs. revert E.
  destruct (Nat.eqb_spec (length allBlobs) 0) as [Hzero|Hsome].
  { intros [= <- _]. simpl. destruct allBlobs; [|discriminate]. auto. }
  intros E.
  destruct (batches_invariant w cfg eCLU eSU src options allBlobs
              (fun g t => forall r, t = Settled r ->
                            allBlobs !! g = Some (blobName r) /\ source r = src)
              (fun _ => True)) with (schedule := schedule) (fuel := length allBlobs)
              (i := 0%nat) (results := @nil IndexingResult)
              (st := log Main (ListBlobs (containerOf src) (prefixOf src))
                       (log Main GetProperties st))
    as (new & _ & _ & Hrep).
  - intros g name t st0 Hg Ht.
    destruct (resume_graph w cfg eCLU eSU src (Doc g) name t st0) as (acts & G & T).
    exists (map (pair (Doc g)) acts). split; [exact T|]. split.
    + apply Forall_forall. auto.
    + intros t' Et' r ->. rewrite Et' in G.
      apply Resumes_names in G as [->|[<- <-]]; [apply Ht; reflexivity | auto].
  - intros g name _. split; [discriminate | exact I].
  - intros g name _. split; [discriminate | exact I].
  - exact I.
  - simpl. lia.
  - intros g r. rewrite lookup_nil. discriminate.
  - rewrite E in Hrep. destruct (Hrep rep eq_refl) as (rs & -> & Hlen & Hrs). simpl.
    split.
    + apply list_eq_same_length with (length allBlobs);
        [reflexivity | rewrite length_map; exact Hlen |].
      intros g x y _ Hx Hy. rewrite list_lookup_fmap in Hx.
      destruct (rs !! g) as [r|] eqn:Er; [|discriminate]. injection Hx as <-.
      destruct (Hrs g r Er r eq_refl) as [Hg _]. congruence.
    + apply Forall_forall. intros r Hin. apply list_elem_of_In in Hin.
      apply list_elem_of_lookup in Hin as [g Hg].
      apply (Hrs g r Hg r eq_refl).
Qed.

Lemma results_in_listing_order_witness :
  exists rep st',
    indexSourceMhtmlFiles (slowStart 2) defaults noUrl noGuess qast twoByTwo roundRobin
      initial = (Returned rep, st')
    /\ exists names,
         listBlobsFlat (slowStart 2) (containerOf qast) (prefixOf qast) = inr names
         /\ map blobName (Report.results rep)
            = List.filter (fun name => endsWith name ".mhtml") names
         /\ Forall (fun r => source r = qast) (Report.results rep).
Proof.
  eexists. eexists. split; [vm_compute; reflexivity|].
  eapply (results_in_listing_order (slowStart 2) defaults noUrl noGuess qast twoByTwo
            roundRobin initial).
  - reflexivity.
  - vm_compute. reflexivity.
Defined.

(** ** Further properties of runs *)

Lemma History_counter cfg c tr x :
  History cfg c tr x ->
  0 <= c < MAX_CONSECUTIVE_TIMEOUTS cfg ->
  if x then replay c tr = MAX_CONSECUTIVE_TIMEOUTS cfg
  else 0 <= replay c tr < MAX_CONSECUTIVE_TIMEOUTS cfg.
Proof.
  induction 1 as [c|c d Htrip|c d o tr x Hno H IH|c e tr x Hs He H IH]; intros Hc.
  - exact Hc.
  - simpl in *. apply geb_true in Htrip. lia.
  - simpl. apply IH. destruct o as [status body| |message]; simpl in *.
    + destruct (ok status); lia.
    + apply geb_false in Hno. lia.
    + exact Hc.
  - rewrite replay_other by exact Hs. apply IH. exact Hc.
Qed.

(** X2. The counter stays within its bounds. In a run of the coordinator
    that starts with the counter in [0, N), N the configured ceiling, the
    counter is in [0, N) whenever the run has not exited, and is exactly N
    when it has. *)
Theorem counter_stays_below_ceiling :
  forall w cfg extractContentLocationUrl extractSourceUrl TARGET_SOURCE options schedule st,
    0 <= consecutiveTimeouts st < MAX_CONSECUTIVE_TIMEOUTS cfg ->
    let '(out, st') :=
      indexAllMhtmlFiles w cfg extractContentLocationUrl extractSourceUrl TARGET_SOURCE
        options schedule st in
    match out with
    | Exited _ => consecutiveTimeouts st' = MAX_CONSECUTIVE_TIMEOUTS cfg
    | _ => 0 <= consecutiveTimeouts st' < MAX_CONSECUTIVE_TIMEOUTS cfg
    end.
Proof.
  intros w cfg eCLU eSU TARGET_SOURCE options schedule st Hc.
  destruct (indexAllMhtmlFiles_Reaches w cfg eCLU eSU TARGET_SOURCE options schedule st)
    as (x & (new & T & C & H) & Ex).
  destruct (indexAllMhtmlFiles w cfg eCLU eSU TARGET_SOURCE options schedule st)
    as [out st']. simpl in *.
  pose proof (History_counter cfg _ new x H Hc) as Hb. rewrite <- C in Hb.
  destruct out as [r|shown|code|]; simpl in Ex; try (subst x; exact Hb).
  destruct Ex as [_ ->]. exact Hb.
Qed.

Lemma counter_stays_below_ceiling_witness :
  let '(out, st') :=
    indexAllMhtmlFiles (answering AbortError) defaults noUrl noGuess None noOptions
      (fun _ => roundRobin) initial in
  match out with
  | Exited _ => consecutiveTimeouts st' = 10
  | _ => 0 <= consecutiveTimeouts st' < 10
  end.
Proof.
  apply (counter_stays_below_ceiling (answering AbortError) defaults noUrl noGuess None
           noOptions (fun _ => roundRobin) initial).
  simpl. lia.
Defined.

(** X3. A store that fails the connectivity check ends the whole run. When
    [getProperties] rejects and the run is not a dry run, the coordinator
    rejects with the same error whatever the selector, and the check is the
    only thing it has done: no container is listed, nothing is downloaded or
    posted. *)
Theorem connectivity_failure_ends_run :
  forall w cfg extractContentLocationUrl extractSourceUrl TARGET_SOURCE options schedule st
         shown,
    theDryRun options = false ->
    getProperties w = Some shown ->
    indexAllMhtmlFiles w cfg extractContentLocationUrl extractSourceUrl TARGET_SOURCE
      options schedule st
    = (Threw shown, log Main GetProperties st).
Proof.
  intros w cfg eCLU eSU TARGET_SOURCE options schedule st shown Hdry Hconn.
  unfold indexAllMhtmlFiles, partition, indexSourceMhtmlFiles.
  rewrite Hdry, Hconn.
  destruct (theTarget TARGET_SOURCE options); reflexivity.
Qed.

Lemma connectivity_failure_ends_run_witness :
  indexAllMhtmlFiles unreachable defaults noUrl noGuess None noOptions
    (fun _ => roundRobin) initial
  = (Threw "RestError: getaddrinfo ENOTFOUND",
     {| consecutiveTimeouts := 0; trace := [(Main, GetProperties)] |}).
Proof.
  apply (connectivity_failure_ends_run unreachable defaults noUrl noGuess None noOptions
           (fun _ => roundRobin) initial).
  - reflexivity.
  - reflexivity.
Defined.

(** X4. The partitions of an "all" run are not independent: when the run of
    [qast] does not return a report (its listing rejects, the process exits,
    or it is still pending), the coordinator ends the same way in the same
    state, and [stock] is never started. *)
Theorem failed_partition_ends_run :
  forall w cfg extractContentLocationUrl extractSourceUrl TARGET_SOURCE options schedule st
         out st1,
    theTarget TARGET_SOURCE options = TargetAll ->
    indexSourceMhtmlFiles w cfg extractContentLocationUrl extractSourceUrl qast options
      (schedule qast) st = (out, st1) ->
    (forall rep, out <> Returned rep) ->
    snd (indexAllMhtmlFiles w cfg extractContentLocationUrl extractSourceUrl TARGET_SOURCE
           options schedule st) = st1
    /\ match out with
       | Returned _ => False
       | Threw shown =>
           fst (indexAllMhtmlFiles w cfg extractContentLocationUrl extractSourceUrl
                  TARGET_SOURCE options schedule st) = Threw shown
       | Exited code =>
           fst (indexAllMhtmlFiles w cfg extractContentLocationUrl extractSourceUrl
                  TARGET_SOURCE options schedule st) = Exited code
       | Pending =>
           fst (indexAllMhtmlFiles w cfg extractContentLocationUrl extractSourceUrl
                  TARGET_SOURCE options schedule st) = Pending
       end.
Proof.
  intros w cfg eCLU eSU TARGET_SOURCE options schedule st out st1 Hall Hq Hnot.
  unfold indexAllMhtmlFiles, partition. rewrite Hall. simpl. rewrite Hq.
  destruct out as [rep|shown|code|]; simpl; auto.
  exfalso. apply (Hnot rep). reflexivity.
Qed.

Lemma failed_partition_ends_run_witness :
  snd (indexAllMhtmlFiles qastUnlisted defaults noUrl noGuess None noOptions
         (fun _ => roundRobin) initial)
  = {| consecutiveTimeouts := 0;
       trace := [(Main, GetProperties); (Main, ListBlobs "qast-mhtml" "qast-mhtml/data")] |}
  /\ fst (indexAllMhtmlFiles qastUnlisted defaults noUrl noGuess None noOptions
            (fun _ => roundRobin) initial)
     = Threw "RestError: ContainerNotFound".
Proof.
  apply (failed_partition_ends_run qastUnlisted defaults noUrl noGuess None noOptions
           (fun _ => roundRobin) initial (Threw "RestError: ContainerNotFound")).
  - reflexivity.
  - reflexivity.
  - discriminate.
Defined.

(** X5. A document that cannot be downloaded is recorded and never posted.
    In a run that is not a dry run, the member of a document whose
    [downloadBlob] throws issues no POST at all, whatever the other members
    of its batch do, and in the returned report the result at the document's
    position is the failure carrying the message of the thrown error, with
    no status code. *)
Theorem failed_download_is_never_posted :
  forall w cfg extractContentLocationUrl extractSourceUrl src options schedule st names
         g name message,
    theDryRun options = false ->
    listBlobsFlat w (containerOf src) (prefixOf src) = inr names ->
    List.filter (fun name => endsWith name ".mhtml") names !! g = Some name ->
    downloadBlob w (containerOf src) name = inl message ->
    let '(out, st') :=
      indexSourceMhtmlFiles w cfg extractContentLocationUrl extractSourceUrl src options
        schedule st in
    (exists new,
       trace st' = trace st ++ new
       /\ Forall (fun e => forall blobName attempt, e <> (Doc g, Post blobName attempt)) new)
    /\ forall rep,
         out = Returned rep ->
         Report.results rep !! g
         = Some {| success := false;
                   blobName := name;
                   source := src;
                   error := Some message;
                   statusCode := None |}.
Proof.
  intros w cfg eCLU eSU src options schedule st names g name message Hdry Hlist Hg Hdl.
  unfold indexSourceMhtmlFiles. rewrite Hdry, Hlist.
  set (P := fun e : Event => forall blobName attempt, e <> (Doc g, Post blobName attempt)).
  destruct (getProperties w) as [shown|].
  { split; [|intros rep [=]]. exists [(Main, GetProperties)]. split; [reflexivity|].
    repeat constructor. discriminate. }
  set (allBlobs := List.filter (fun name => endsWith name ".mhtml") names) in *.
  destruct (Nat.eqb_spec (length allBlobs) 0) as [Hzero|Hsome].
  { apply lookup_lt_Some in Hg. lia. }
  destruct (batches_invariant w cfg eCLU eSU src options allBlobs
              (fun g' t => g' = g ->
                 t = AwaitDelay \/ t = AwaitDownload
                 \/ t = Settled (caught name src message))
              P) with (schedule := schedule) (fuel := length allBlobs)
              (i := 0%nat) (results := @nil IndexingResult)
              (st := log Main (ListBlobs (containerOf src) (prefixOf src))
                       (log Main GetProperties st))
    as (new & T & HP & Hrep).
  - intros g' blobName t st0 Hg' Ht.
    destruct (resume_graph w cfg eCLU eSU src (Doc g') blobName t st0) as (acts & G & T).
    exists (map (pair (Doc g')) acts). split; [exact T|].
    set (res := fst (resume w cfg eCLU eSU src (Doc g') blobName t st0)) in *.
    clearbody res. clear T.
    destruct (Nat.eq_dec g' g) as [->|Hne].
    + assert (blobName = name) as -> by congruence.
      rewrite Hdl in G. specialize (Ht eq_refl).
      destruct Ht as [-> | [-> | ->]]; inversion G; subst; try discriminate.
      * split; [repeat constructor; discriminate|]. intros t' [= <-] _. auto.
      * match goal with H : inl _ = inl _ |- _ => injection H as <- end.
        split; [repeat constructor; discriminate|]. intros t' [= <-] _. auto.
      * split; [constructor|]. intros t' [= <-] _. auto.
    + split.
      * apply Forall_forall. intros e He. apply in_map_iff in He as (a & <- & _).
        intros b n H. injection H as E _. exact (Hne E).
      * intros t' _ E. exfalso. exact (Hne E).
  - intros g' blobName _. split; [auto | discriminate].
  - intros g' blobName _. split; [auto | discriminate].
  - discriminate.
  - simpl. lia.
  - intros g' r. rewrite lookup_nil. discriminate.
  - destruct (batches _ _ _ _ _ _ _ _ _ _ _ _) as [out st']. simpl in *. split.
    + exists ([(Main, GetProperties);
               (Main, ListBlobs (containerOf src) (prefixOf src))] ++ new).
      rewrite T. simpl. rewrite <- !app_assoc. split; [reflexivity|].
      simpl. repeat constructor; try discriminate. exact HP.
    + intros rep ->. destruct (Hrep rep eq_refl) as (rs & -> & Hlen & Hrs). simpl.
      pose proof (lookup_lt_Some _ _ _ Hg) as Hlt.
      destruct (lookup_lt_is_Some_2 rs g) as [r Hr]; [lia|].
      rewrite Hr. f_equal.
      destruct (Hrs g r Hr eq_refl) as [E|[E|E]]; try discriminate.
      injection E as ->. reflexivity.
Qed.

Lemma failed_download_is_never_posted_witness :
  let '(out, st') :=
    indexSourceMhtmlFiles oneUnreadable defaults noUrl noGuess qast twoByTwo roundRobin
      initial in
  (exists new,
     trace st' = trace initial ++ new
     /\ Forall (fun e => forall blobName attempt, e <> (Doc 1, Post blobName attempt)) new)
  /\ forall rep,
       out = Returned rep ->
       Report.results rep !! 1%nat
       = Some {| success := false;
                 blobName := "qast-mhtml/data/qast_2.mhtml";
                 source := qast;
                 error := Some "Blobダウンロードエラー (qast-mhtml/data/qast_2.mhtml): Error: ダウンロードストリームが取得できません";
                 statusCode := None |}.
Proof.
  apply (failed_download_is_never_posted oneUnreadable defaults noUrl noGuess qast twoByTwo
           roundRobin initial sixNames 1%nat "qast-mhtml/data/qast_2.mhtml").
  - reflexivity.
  - reflexivity.
  - reflexivity.
  - reflexivity.
Defined.

Lemma sleeps_app tr1 tr2 : sleeps (tr1 ++ tr2) = sleeps tr1 ++ sleeps tr2.
Proof.
  induction tr1 as [|[d a] tr1 IH]; simpl; [reflexivity|].
  destruct a; simpl; rewrite IH; reflexivity.
Qed.

(** One iteration that fails below HTTP without tripping the breaker, with
    the state it leaves. *)
Lemma attempts_failure_step w cfg who containerName blobName fileBuffer indexType sourceUrl
    timeoutMs maxRetries fuel attempt st o :
  attempt <= maxRetries ->
  fetch w (posts (trace st))
    (formData cfg containerName blobName fileBuffer indexType sourceUrl) timeoutMs = o ->
  isResponse o = false ->
  trips cfg o (consecutiveTimeouts st) = false ->
  attempts w cfg who containerName blobName fileBuffer indexType sourceUrl
    timeoutMs maxRetries (S fuel) attempt st
  = attempts w cfg who containerName blobName fileBuffer indexType sourceUrl
      timeoutMs maxRetries fuel (attempt + 1)
      {| consecutiveTimeouts := counterAfter o (consecutiveTimeouts st);
         trace := trace st
                  ++ [(who, Post blobName attempt); (who, PostSettled o)]
                  ++ (if attempt <? maxRetries
                      then [(who, Sleep (match o with
                                         | AbortError => 2000 * attempt
                                         | _ => 1000 * attempt
                                         end))]
                      else []) |}.
Proof.
  intros Hle Ho Hresp Htrip. cbn [attempts].
  destruct (Z.leb_spec attempt maxRetries); [|lia].
  rewrite Ho. destruct o as [status body| |message]; [discriminate| |];
    cbn [afterFetch log consecutiveTimeouts trace setCounter counterAfter trips] in *.
  - rewrite Htrip. destruct (attempt <? maxRetries); f_equal;
      unfold log, setCounter; cbn [consecutiveTimeouts trace]; f_equal;
      rewrite <- ?app_assoc; rewrite ?app_nil_r; reflexivity.
  - destruct (attempt <? maxRetries); f_equal;
      unfold log, setCounter; cbn [consecutiveTimeouts trace]; f_equal;
      rewrite <- ?app_assoc; rewrite ?app_nil_r; reflexivity.
Qed.

Lemma posts_app tr1 tr2 : posts (tr1 ++ tr2) = (posts tr1 + posts tr2)%nat.
Proof. unfold posts. rewrite List.filter_app, length_app. reflexivity. Qed.

Lemma timeoutsAmong_S w req timeoutMs n j :
  timeoutsAmong w req timeoutMs n (S j)
  = (match fetch w n req timeoutMs with AbortError => 1 | _ => 0 end)
    + timeoutsAmong w req timeoutMs (S n) j.
Proof. reflexivity. Qed.

(** The loop entered at [attempt] with exactly [j] attempts left, all failing
    below HTTP without tripping the breaker: the waits it takes. *)
Lemma attempts_backoff w cfg who containerName blobName fileBuffer indexType sourceUrl
    timeoutMs maxRetries j :
  forall attempt st,
    attempt + Z.of_nat j - 1 = maxRetries ->
    (forall i, (i < j)%nat ->
       isResponse (fetch w (posts (trace st) + i)
                     (formData cfg containerName blobName fileBuffer indexType sourceUrl)
                     timeoutMs) = false) ->
    consecutiveTimeouts st
      + timeoutsAmong w (formData cfg containerName blobName fileBuffer indexType sourceUrl)
          timeoutMs (posts (trace st)) j
      < MAX_CONSECUTIVE_TIMEOUTS cfg ->
    exists new,
      attempts w cfg who containerName blobName fileBuffer indexType sourceUrl
        timeoutMs maxRetries j attempt st
      = (Returned (exhausted blobName indexType maxRetries),
         {| consecutiveTimeouts :=
              consecutiveTimeouts st
              + timeoutsAmong w
                  (formData cfg containerName blobName fileBuffer indexType sourceUrl)
                  timeoutMs (posts (trace st)) j;
            trace := trace st ++ new |})
      /\ sleeps new
         = map (fun i =>
                  match fetch w (posts (trace st) + i)
                          (formData cfg containerName blobName fileBuffer indexType
                             sourceUrl) timeoutMs with
                  | AbortError => 2000 * (attempt + Z.of_nat i)
                  | _ => 1000 * (attempt + Z.of_nat i)
                  end)
             (seq 0 (j - 1)).
Proof.
  set (req := formData cfg containerName blobName fileBuffer indexType sourceUrl).
  induction j as [|j IH]; intros attempt st Hlast Hfail Hmax.
  - cbn [attempts]. destruct (Z.leb_spec attempt maxRetries); [lia|].
    exists []. rewrite app_nil_r. cbn [timeoutsAmong]. rewrite Z.add_0_r.
    destruct st; auto.
  - rewrite timeoutsAmong_S in Hmax |- *.
    pose proof (timeoutsAmong_nonneg w req timeoutMs j (S (posts (trace st)))) as Hnn.
    pose proof (Hfail 0%nat ltac:(lia)) as H0. rewrite Nat.add_0_r in H0.
    set (o := fetch w (posts (trace st)) req timeoutMs) in *.
    assert (Htrip : trips cfg o (consecutiveTimeouts st) = false).
    { destruct o; try reflexivity. apply geb_false. lia. }
    rewrite (attempts_failure_step w cfg who containerName blobName fileBuffer indexType
               sourceUrl timeoutMs maxRetries j attempt st o)
      by (lia || reflexivity || assumption).
    match goal with
    | |- context [attempts _ _ _ _ _ _ _ _ _ _ _ _ ?s] => set (st1 := s)
    end.
    assert (Hp : posts (trace st1) = S (posts (trace st))).
    { subst st1. cbn [trace]. rewrite !posts_app.
      destruct (attempt <? maxRetries); unfold posts; simpl; lia. }
    assert (Hc : consecutiveTimeouts st1
                 = consecutiveTimeouts st
                   + match o with AbortError => 1 | _ => 0 end).
    { subst st1. cbn [consecutiveTimeouts]. destruct o; simpl in *;
        [discriminate | lia | lia]. }
    destruct (IH (attempt + 1) st1) as (new & E & Hs).
    + lia.
    + intros i Hi. rewrite Hp.
      replace (S (posts (trace st)) + i)%nat with (posts (trace st) + S i)%nat by lia.
      apply Hfail. lia.
    + rewrite Hp, Hc. lia.
    + rewrite E, Hp, Hc. eexists. split.
      * f_equal. f_equal; [lia|]. subst st1. cbn [trace].
        rewrite <- !app_assoc. reflexivity.
      * rewrite !sleeps_app, Hs, Hp.
        replace (S j - 1)%nat with j by lia.
        destruct j as [|j].
        -- simpl. destruct (Z.ltb_spec attempt maxRetries); [lia | reflexivity].
        -- destruct (Z.ltb_spec attempt maxRetries); [|lia].
           replace (S j - 1)%nat with j by lia.
           rewrite <- cons_seq, <- seq_shift.
           cbn [sleeps map app]. rewrite map_map, Nat.add_0_r. fold o.
           rewrite Z.add_0_r.
           f_equal. apply map_ext. intros i.
           replace (S (posts (trace st)) + i)%nat with (posts (trace st) + S i)%nat
             by lia.
           replace (attempt + 1 + Z.of_nat i) with (attempt + Z.of_nat (S i)) by lia.
           reflexivity.
Qed.

(** X6. Linear backoff, and none after the last attempt. A submission whose
    attempts all fail below HTTP (timeouts or network errors) without
    tripping the breaker waits between attempts only: after attempt [a], for
    [a < maxRetries], [2000 * a] ms if it timed out and [1000 * a] ms
    otherwise; after the last attempt it returns without waiting. *)
Theorem backoff_is_linear :
  forall w cfg who containerName blobName fileBuffer indexType sourceUrl timeoutMs
         maxRetries st,
    let req := formData cfg containerName blobName fileBuffer indexType sourceUrl in
    0 <= maxRetries ->
    (forall i, (i < Z.to_nat maxRetries)%nat ->
       isResponse (fetch w (posts (trace st) + i) req timeoutMs) = false) ->
    consecutiveTimeouts st
      + timeoutsAmong w req timeoutMs (posts (trace st)) (Z.to_nat maxRetries)
      < MAX_CONSECUTIVE_TIMEOUTS cfg ->
    exists new,
      snd (indexMhtmlFile w cfg who containerName blobName fileBuffer indexType sourceUrl
             timeoutMs maxRetries st)
      = {| consecutiveTimeouts :=
             consecutiveTimeouts st
             + timeoutsAmong w req timeoutMs (posts (trace st)) (Z.to_nat maxRetries);
           trace := trace st ++ new |}
      /\ sleeps new
         = map (fun i =>
                  match fetch w (posts (trace st) + i) req timeoutMs with
                  | AbortError => 2000 * (1 + Z.of_nat i)
                  | _ => 1000 * (1 + Z.of_nat i)
                  end)
             (seq 0 (Z.to_nat maxRetries - 1)).
Proof.
  intros w cfg who containerName blobName fileBuffer indexType sourceUrl timeoutMs
         maxRetries st req Hbudget Hfail Hmax.
  unfold indexMhtmlFile.
  destruct (attempts_backoff w cfg who containerName blobName fileBuffer indexType sourceUrl
              timeoutMs maxRetries (Z.to_nat maxRetries) 1 st) as (new & E & Hs);
    [lia | exact Hfail | exact Hmax |].
  exists new. rewrite E. split; [reflexivity | exact Hs].
Qed.

Lemma backoff_is_linear_witness :
  exists new,
    snd (indexMhtmlFile unstable defaults Main "qast-mhtml" "qast-mhtml/data/qast_1.mhtml"
           "MIME-Version: 1.0" qast None 30000 4 initial)
    = {| consecutiveTimeouts := 2; trace := [] ++ new |}
    /\ sleeps new = [2000; 2000; 6000].
Proof.
  apply (backoff_is_linear unstable defaults Main "qast-mhtml"
           "qast-mhtml/data/qast_1.mhtml" "MIME-Version: 1.0" qast None 30000 4 initial).
  - lia.
  - intros [|[|[|[|i]]]] Hi; try reflexivity. simpl in Hi. lia.
  - vm_compute. reflexivity.
Defined.

Lemma postsOf_app g tr1 tr2 : postsOf g (tr1 ++ tr2) = (postsOf g tr1 + postsOf g tr2)%nat.
Proof. unfold postsOf. rewrite List.filter_app, length_app. reflexivity. Qed.

Lemma postsOf_other g g' acts : g' <> g -> postsOf g (map (pair (Doc g')) acts) = 0%nat.
Proof.
  intros Hne. unfold postsOf. induction acts as [|a acts IH]; simpl; [reflexivity|].
  destruct a; simpl; try exact IH.
  destruct (Nat.eqb_spec g' g); [contradiction | exact IH].
Qed.

(** A resumption spends what it posts. *)
Lemma Resumes_budget cfg src name downloaded t c res acts c' g :
  Resumes cfg src name downloaded t c res acts c' ->
  (postsOf g (map (pair (Doc g)) acts)
   + match res with Suspended t' => budget cfg t' | Halted _ => 0 end
   <= budget cfg t)%nat.
Proof.
  inversion 1; subst; unfold postsOf; simpl; rewrite ?Nat.eqb_refl; simpl; lia.
Qed.

Section PostBudget.
Variable w : World.
Variable cfg : Config.
Variable extractContentLocationUrl : string -> option string.
Variable extractSourceUrl : Source -> string -> option string.
Variable src : Source.
Variable options : Options.

Lemma startBatch_budget i batch :
  forall index st,
    exists new,
      trace (snd (startBatch cfg options i index batch st)) = trace st ++ new
      /\ (forall g, postsOf g new = 0%nat)
      /\ forall k t,
           fst (startBatch cfg options i index batch st) !! k = Some t ->
           budget cfg t = Z.to_nat (MAX_RETRIES cfg).
Proof.
  induction batch as [|blobName batch IH]; intros index st; simpl.
  - exists []. rewrite app_nil_r. repeat split.
    intros k t. rewrite lookup_nil. discriminate.
  - set (first := if (0 <? index)%nat
                  then (AwaitDelay, log (Doc (i + index)) (Sleep (theDelayMs cfg options)) st)
                  else (AwaitDownload, log (Doc (i + index)) (Download blobName) st)).
    assert (Hfirst : exists t a,
               first = (t, log (Doc (i + index)) a st)
               /\ budget cfg t = Z.to_nat (MAX_RETRIES cfg)
               /\ forall g, postsOf g [(Doc (i + index), a)] = 0%nat).
    { unfold first. destruct (0 <? index)%nat; eauto 6. }
    destruct Hfirst as (t & a & -> & Bt & Pa).
    destruct (IH (S index) (log (Doc (i + index)) a st)) as (new & T & HP & HB).
    destruct (startBatch cfg options i (S index) batch (log (Doc (i + index)) a st))
      as [ts st'].
    simpl in *. exists ([(Doc (i + index), a)] ++ new).
    rewrite T, <- app_assoc. repeat split.
    + intros g. rewrite postsOf_app, Pa, HP. reflexivity.
    + intros [|k] t0; simpl; [intros [= <-]; exact Bt | apply HB].
Qed.

Lemma resumeBatch_budget i batch schedule :
  forall tasks st,
    exists new,
      trace (snd (resumeBatch w cfg extractContentLocationUrl extractSourceUrl src
                    i batch schedule tasks st)) = trace st ++ new
      /\ forall g,
           (postsOf g new
            <= match (if (i <=? g)%nat then tasks !! (g - i)%nat else None) with
               | Some t => budget cfg t
               | None => 0
               end)%nat.
Proof.
  induction schedule as [|index schedule IH]; intros tasks st; simpl.
  - exists []. rewrite app_nil_r. split; [reflexivity|]. intros g. unfold postsOf. simpl. lia.
  - destruct (batch !! index) as [blobName|] eqn:Eb; [|apply IH].
    destruct (tasks !! index) as [t|] eqn:Et; [|apply IH].
    destruct (resume_graph w cfg extractContentLocationUrl extractSourceUrl src
                (Doc (i + index)) blobName t st) as (acts & G & T1).
    pose proof (Resumes_budget _ _ _ _ _ _ _ _ _ (i + index)%nat G) as B.
    destruct (resume w cfg extractContentLocationUrl extractSourceUrl src
                (Doc (i + index)) blobName t st) as [[t'|code] st1]; simpl in *.
    + destruct (IH (<[index:=t']> tasks) st1) as (new2 & T2 & B2).
      exists (map (pair (Doc (i + index))) acts ++ new2).
      rewrite T2, T1, app_assoc. split; [reflexivity|].
      intros g. rewrite postsOf_app. specialize (B2 g).
      destruct (Nat.eq_dec (i + index)%nat g) as [<-|Hne].
      * destruct (Nat.leb_spec i (i + index)%nat); [|lia].
        replace (i + index - i)%nat with index in * by lia.
        rewrite list_lookup_insert_eq in B2 by (apply lookup_lt_Some in Et; exact Et).
        rewrite Et. lia.
      * rewrite postsOf_other by exact Hne.
        destruct (Nat.leb_spec i g); [|exact B2].
        rewrite list_lookup_insert_ne in B2 by lia. exact B2.
    + exists (map (pair (Doc (i + index))) acts). split; [exact T1|].
      intros g. destruct (Nat.eq_dec (i + index)%nat g) as [<-|Hne].
      * destruct (Nat.leb_spec i (i + index)%nat); [|lia].
        replace (i + index - i)%nat with index by lia. rewrite Et. lia.
      * rewrite postsOf_other by exact Hne. lia.
Qed.

Lemma batches_budget schedule allBlobs fuel :
  forall i results st,
    exists new,
      trace (snd (batches w cfg extractContentLocationUrl extractSourceUrl src options
                    schedule allBlobs fuel i results st)) = trace st ++ new
      /\ forall g,
           (postsOf g new
            <= if (i <=? g)%nat && (g <? length allBlobs)%nat
               then Z.to_nat (MAX_RETRIES cfg) else 0)%nat.
Proof.
  induction fuel as [|fuel IH]; intros i results st; simpl.
  - exists []. destruct (i <? length allBlobs)%nat; simpl; rewrite app_nil_r;
      (split; [reflexivity|]); intros g; unfold postsOf; simpl; lia.
  - destruct (Nat.ltb_spec i (length allBlobs)) as [Hi|Hi];
      [|exists []; simpl; rewrite app_nil_r; split; [reflexivity|];
        intros g; unfold postsOf; simpl; lia].
    set (c := theConcurrency cfg options) in *.
    set (batch := slice i (i + c) allBlobs) in *.
    assert (Hlen : length batch = Nat.min c (length allBlobs - i))
      by apply slice_length.
    destruct (startBatch_budget i batch 0%nat st) as (new1 & T1 & P1 & B1).
    pose proof (startBatch_length cfg options i batch 0%nat st) as Hl1.
    destruct (startBatch cfg options i 0 batch st) as [tasks st1]. simpl in *.
    destruct (resumeBatch_budget i batch (schedule i) tasks st1) as (new2 & T2 & B2).
    assert (Hbatch : forall g,
               (postsOf g (new1 ++ new2)
                <= if (i <=? g)%nat && (g <? i + length batch)%nat
                   then Z.to_nat (MAX_RETRIES cfg) else 0)%nat).
    { intros g. rewrite postsOf_app, P1. specialize (B2 g). simpl.
      destruct (Nat.leb_spec i g); simpl; [|exact B2].
      destruct (tasks !! (g - i)%nat) as [t|] eqn:Et.
      - rewrite (B1 _ _ Et) in B2. apply lookup_lt_Some in Et.
        destruct (Nat.ltb_spec g (i + length batch)); [exact B2 | lia].
      - destruct (g <? i + length batch)%nat; lia. }
    destruct (resumeBatch w cfg extractContentLocationUrl extractSourceUrl src
                i batch (schedule i) tasks st1) as [[tasks'|code] st2]; simpl in *.
    + destruct (allSettled tasks') as [batchResults|] eqn:Eall.
      * set (pause := if (i + c <? length allBlobs)%nat then [(Main, Sleep 500)] else []).
        match goal with
        | |- context [batches _ _ _ _ _ _ _ _ fuel _ ?rs ?s] =>
            assert (T3 : trace s = trace st2 ++ pause)
              by (unfold pause; destruct (i + c <? length allBlobs)%nat; simpl;
                  [reflexivity | rewrite app_nil_r; reflexivity]);
            destruct (IH (i + c)%nat rs s) as (new3 & T4 & B4)
        end.
        exists (new1 ++ new2 ++ pause ++ new3).
        rewrite T4, T3, T2, T1, <- !app_assoc. split; [reflexivity|].
        intros g. specialize (Hbatch g). specialize (B4 g).
        assert (Hp : postsOf g pause = 0%nat)
          by (unfold pause; destruct (i + c <? length allBlobs)%nat; reflexivity).
        rewrite !postsOf_app in *. rewrite Hp.
        destruct (Nat.leb_spec i g), (Nat.ltb_spec g (length allBlobs)),
          (Nat.leb_spec (i + c) g), (Nat.ltb_spec g (i + length batch));
          simpl in *; lia.
      * exists (new1 ++ new2). simpl. rewrite T2, T1, <- app_assoc. split; [reflexivity|].
        intros g. specialize (Hbatch g).
        destruct (Nat.leb_spec i g), (Nat.ltb_spec g (length allBlobs)),
          (Nat.ltb_spec g (i + length batch)); simpl in *; lia.
    + exists (new1 ++ new2). simpl. rewrite T2, T1, <- app_assoc. split; [reflexivity|].
      intros g. specialize (Hbatch g).
      destruct (Nat.leb_spec i g), (Nat.ltb_spec g (length allBlobs)),
        (Nat.ltb_spec g (i + length batch)); simpl in *; lia.
Qed.

End PostBudget.

(** X7. Whatever the listing, the options, the endpoint's answers and the
    order of completion, and however the run of a partition ends (report,
    error or exit), no document of the partition is posted more than
    [MAX_RETRIES] times. *)
Theorem posts_per_document_bounded :
  forall w cfg extractContentLocationUrl extractSourceUrl src options schedule st,
    exists new,
      trace (snd (indexSourceMhtmlFiles w cfg extractContentLocationUrl extractSourceUrl
                    src options schedule st)) = trace st ++ new
      /\ forall g, (postsOf g new <= Z.to_nat (MAX_RETRIES cfg))%nat.
Proof.
  intros w cfg eCLU eSU src options schedule st.
  unfold indexSourceMhtmlFiles.
  set (st0 := if theDryRun options then (None, st)
              else (getProperties w, log Main GetProperties st)).
  assert (H0 : exists pre, trace (snd st0) = trace st ++ pre
                           /\ forall g, postsOf g pre = 0%nat).
  { unfold st0. destruct (theDryRun options); simpl.
    - exists []. rewrite app_nil_r. auto.
    - exists [(Main, GetProperties)]. auto. }
  destruct st0 as [connected st1]. destruct H0 as (pre & T0 & P0). simpl in T0.
  assert (Hstop : forall A (o : Outcome A) acts,
             (forall g, postsOf g acts = 0%nat) ->
             exists new, trace (snd (o, {| consecutiveTimeouts := consecutiveTimeouts st1;
                                           trace := trace st1 ++ acts |}))
                         = trace st ++ new
                         /\ forall g, (postsOf g new <= Z.to_nat (MAX_RETRIES cfg))%nat).
  { intros A o acts Pa. exists (pre ++ acts). simpl. rewrite T0, <- app_assoc.
    split; [reflexivity|]. intros g. rewrite postsOf_app, P0, Pa. lia. }
  destruct connected as [shown|].
  { exists pre. split; [exact T0|]. intros g. rewrite P0. lia. }
  destruct (listBlobsFlat w (containerOf src) (prefixOf src)) as [shown|names].
  { apply (Hstop _ (Threw shown) [(Main, ListBlobs (containerOf src) (prefixOf src))]).
    reflexivity. }
  set (allBlobs := List.filter (fun name => endsWith name ".mhtml") names).
  destruct (length allBlobs =? 0)%nat.
  { apply (Hstop _ (Returned _) [(Main, ListBlobs (containerOf src) (prefixOf src))]).
    reflexivity. }
  destruct (theDryRun options).
  { apply (Hstop _ (Returned _) [(Main, ListBlobs (containerOf src) (prefixOf src))]).
    reflexivity. }
  destruct (batches_budget w cfg eCLU eSU src options schedule allBlobs (length allBlobs)
              0%nat [] (log Main (ListBlobs (containerOf src) (prefixOf src)) st1))
    as (new & T & B).
  exists (pre ++ [(Main, ListBlobs (containerOf src) (prefixOf src))] ++ new).
  rewrite T. simpl. rewrite T0, <- !app_assoc. split; [reflexivity|].
  intros g. rewrite !postsOf_app, P0. specialize (B g).
  change (postsOf g ((Main, ListBlobs (containerOf src) (prefixOf src)) :: new))
    with (postsOf g new).
  destruct ((0 <=? g)%nat && (g <? length allBlobs)%nat); lia.
Qed.

(** ** Properties of the matcher and of the functions that read links and titles *)

Section RegularExpressions.
Import RegExp.
Lemma loop_class {A R : Type} (p : A -> bool) (k : list A -> Capture A -> option R) cap :
  forall fuel s, (length s < fuel)%nat ->
    loop (run (Class p)) fuel s cap k = greedy p s cap k.
Proof.
  induction fuel as [|fuel IH]; intros s Hlt; [lia|].
  destruct s as [|c s]; simpl; [reflexivity|].
  destruct (p c); [|reflexivity].
  destruct (Nat.ltb_spec (length s) (S (length s))); [|lia].
  rewrite IH by (simpl in Hlt; lia). reflexivity.
Qed.

Lemma run_star_class {A R : Type} (p : A -> bool) s cap (k : list A -> Capture A -> option R) :
  run (Star (Class p)) s cap k = greedy p s cap k.
Proof. simpl. apply (loop_class p k cap (S (length s)) s). lia. Qed.

Lemma run_of_skip {A : Type} (p : A -> bool) s : run_of p s ++ skip p s = s.
Proof.
  induction s as [|c s IH]; simpl; [reflexivity|].
  destruct (p c); simpl; [rewrite IH|]; reflexivity.
Qed.

Lemma run_of_all {A : Type} (p : A -> bool) s : forallb p (run_of p s) = true.
Proof.
  induction s as [|c s IH]; simpl; [reflexivity|].
  destruct (p c) eqn:E; simpl; [rewrite E; exact IH | reflexivity].
Qed.

Lemma skip_head {A : Type} (p : A -> bool) s c s' : skip p s = c :: s' -> p c = false.
Proof.
  induction s as [|d s IH]; simpl; [discriminate|].
  destruct (p d) eqn:E; [exact IH|]. intros [= -> _]. exact E.
Qed.

Lemma skip_app {A : Type} (p : A -> bool) ds rest :
  forallb p ds = true ->
  match rest with c :: _ => p c = false | [] => True end ->
  skip p (ds ++ rest) = rest /\ run_of p (ds ++ rest) = ds.
Proof.
  intros Hds Hrest. induction ds as [|d ds IH]; simpl in *.
  - destruct rest as [|c rest]; simpl; [auto|]. rewrite Hrest. auto.
  - apply andb_true_iff in Hds as [-> Hds]. destruct (IH Hds) as [-> ->]. auto.
Qed.

(** A continuation that takes the longest run is served first. *)
Lemma greedy_longest {A R : Type} (p : A -> bool) (k : list A -> Capture A -> option R) cap s x :
  k (skip p s) cap = Some x -> greedy p s cap k = Some x.
Proof.
  induction s as [|c s IH]; simpl; [auto|].
  destruct (p c); [|auto]. intros H. rewrite (IH H). reflexivity.
Qed.

(** A continuation that refuses every input led by a character of the class
    can only be served after the longest run. *)
Lemma greedy_rejecting {A R : Type} (p : A -> bool) (k : list A -> Capture A -> option R) cap s :
  (forall c s', p c = true -> k (c :: s') cap = None) ->
  greedy p s cap k = k (skip p s) cap.
Proof.
  intros Hk. induction s as [|c s IH]; simpl; [reflexivity|].
  destruct (p c) eqn:E; [|reflexivity].
  rewrite IH. destruct (k (skip p s) cap); [reflexivity|]. apply Hk, E.
Qed.

Lemma run_Lit {A R : Type} (same : A -> A -> bool) l (k : list A -> Capture A -> option R) :
  forall s cap,
    run (Lit same l) s cap k
    = match after same l s with Some s' => k s' cap | None => None end.
Proof.
  induction l as [|c l IH]; intros s cap; simpl; [reflexivity|].
  destruct s as [|d s]; [reflexivity|]. destruct (same c d); [apply IH | reflexivity].
Qed.

Lemma after_length {A : Type} (same : A -> A -> bool) l :
  forall s s', after same l s = Some s' -> length s = (length l + length s')%nat.
Proof.
  induction l as [|c l IH]; intros s s'; simpl; [intros [= ->]; reflexivity|].
  destruct s as [|d s]; [discriminate|]. destruct (same c d); [|discriminate].
  intros H. simpl. rewrite (IH _ _ H). reflexivity.
Qed.

Lemma after_split {A : Type} (same : A -> A -> bool) l :
  forall s s', after same l s = Some s' ->
    exists m, s = m ++ s' /\ length m = length l /\ after same l (m ++ []) = Some [].
Proof.
  induction l as [|c l IH]; intros s s'; simpl.
  - intros [= ->]. exists []. auto.
  - destruct s as [|d s]; [discriminate|]. destruct (same c d) eqn:E; [|discriminate].
    intros H. destruct (IH _ _ H) as (m & -> & Hlen & Hm).
    exists (d :: m). simpl. rewrite E, Hlen. auto.
Qed.

Lemma after_app {A : Type} (same : A -> A -> bool) l :
  forall m s, after same l m = Some [] -> after same l (m ++ s) = Some s.
Proof.
  induction l as [|c l IH]; intros m s; simpl.
  - intros [= ->]. reflexivity.
  - destruct m as [|d m]; [discriminate|]. simpl. destruct (same c d); [apply IH | discriminate].
Qed.

Lemma after_eqb l : forall s s', after Ascii.eqb l s = Some s' <-> s = l ++ s'.
Proof.
  induction l as [|c l IH]; intros s s'; simpl.
  - split; [intros [= ->]; reflexivity | intros ->; reflexivity].
  - destruct s as [|d s]; [split; discriminate|].
    destruct (Ascii.eqb_spec c d) as [->|Hne].
    + rewrite IH. split; [intros ->; reflexivity | intros [= ->]; reflexivity].
    + split; [discriminate | intros [= -> _]; contradiction].
Qed.

(** [exec] returns the match at some position of the subject, and finds a
    match whenever some position has one. *)
Lemma run_Seq {A R : Type} (r1 r2 : t A) s cap (k : list A -> Capture A -> option R) :
  run (Seq r1 r2) s cap k = run r1 s cap (fun s' cap' => run r2 s' cap' k).
Proof. reflexivity. Qed.

Lemma run_Group {A R : Type} (r : t A) s cap (k : list A -> Capture A -> option R) :
  run (Group r) s cap k
  = run r s cap (fun s' _ => k s' (Some (take (length s - length s') s))).
Proof. reflexivity. Qed.

Lemma run_Class {A R : Type} (p : A -> bool) s cap (k : list A -> Capture A -> option R) :
  run (Class p) s cap k
  = match s with c :: s' => if p c then k s' cap else None | [] => None end.
Proof. reflexivity. Qed.

Lemma run_Eos {A R : Type} (s : list A) cap (k : list A -> Capture A -> option R) :
  run Eos s cap k = match s with [] => k s cap | _ :: _ => None end.
Proof. reflexivity. Qed.

Lemma exec_position {A : Type} (r : t A) :
  forall s m, exec r s = Some m ->
    exists pre s', s = pre ++ s' /\ matchAt r s' = Some m.
Proof.
  induction s as [|c s IH]; intros m; simpl.
  - destruct (matchAt r []) eqn:E; [|discriminate]. intros [= <-]. exists [], []. auto.
  - destruct (matchAt r (c :: s)) eqn:E.
    + intros [= <-]. exists [], (c :: s). auto.
    + intros H. destruct (IH _ H) as (pre & s' & -> & Hm). exists (c :: pre), s'. auto.
Qed.

Lemma exec_finds {A : Type} (r : t A) :
  forall pre s m, matchAt r s = Some m -> exists m', exec r (pre ++ s) = Some m'.
Proof.
  induction pre as [|c pre IH]; intros s m Hm; simpl.
  - destruct s; simpl; rewrite Hm; eauto.
  - destruct (matchAt r (c :: pre ++ s)); [eauto|]. apply (IH _ _ Hm).
Qed.

Lemma exec_none {A : Type} (r : t A) :
  forall s, exec r s = None <-> forall pre s', s = pre ++ s' -> matchAt r s' = None.
Proof.
  intros s. split.
  - intros H pre s' ->. destruct (matchAt r s') as [m|] eqn:E; [|reflexivity].
    destruct (exec_finds r pre s' m E) as [m' Hm']. congruence.
  - intros H. destruct (exec r s) as [m|] eqn:E; [|reflexivity].
    destruct (exec_position r s m E) as (pre & s' & Hs & Hm).
    rewrite (H pre s' Hs) in Hm. discriminate.
Qed.

Lemma digit_not_dot c : digit c = true -> Ascii.eqb "."%char c = false.
Proof.
  intros H. destruct (Ascii.eqb_spec "."%char c) as [<-|]; [discriminate H | reflexivity].
Qed.

Lemma take_but_suffix {A : Type} (a b : list A) :
  take (length (a ++ b) - length b) (a ++ b) = a.
Proof.
  rewrite length_app. replace (length a + length b - length b)%nat with (length a) by lia.
  apply take_app_length.
Qed.

Lemma matchAt_idPattern tag s m :
  matchAt (idPattern tag) s = Some m
  <-> exists ds,
        s = list_ascii_of_string tag ++ ds ++ list_ascii_of_string ".mhtml"
        /\ ds <> [] /\ forallb digit ds = true /\ m = (s, Some ds).
Proof.
  unfold matchAt, idPattern, Plus.
  set (ext := list_ascii_of_string ".mhtml").
  rewrite run_Seq, run_Lit.
  destruct (after Ascii.eqb (list_ascii_of_string tag) s) as [s1|] eqn:E1.
  2:{ split; [discriminate|]. intros (ds & -> & _).
      assert (H : after Ascii.eqb (list_ascii_of_string tag)
                    (list_ascii_of_string tag ++ ds ++ ext) = Some (ds ++ ext))
        by (apply after_eqb; reflexivity).
      congruence. }
  apply after_eqb in E1. subst s.
  rewrite run_Seq, run_Group, run_Seq, run_Class.
  assert (Hinv : forall ds (P : Prop),
             list_ascii_of_string tag ++ s1 = list_ascii_of_string tag ++ ds ++ ext ->
             ds <> [] -> forallb digit ds = true ->
             (forall d ds', s1 = d :: ds' ++ ext -> digit d = true ->
                            forallb digit ds' = true -> ds = d :: ds' -> P) -> P).
  { intros ds P H Hne Hds HP. apply app_inv_head in H.
    destruct ds as [|d ds]; [contradiction|]. simpl in Hds.
    apply andb_true_iff in Hds as [Hd Hds]. apply (HP d ds); auto. }
  destruct s1 as [|d s2].
  { split; [discriminate|]. intros (ds & H & Hne & Hds & _).
    exfalso. apply (Hinv ds False H Hne Hds). discriminate. }
  destruct (digit d) eqn:Ed.
  2:{ split; [discriminate|]. intros (ds & H & Hne & Hds & _).
      exfalso. apply (Hinv ds False H Hne Hds). intros d' ds' [= <- _] Hd'. congruence. }
  rewrite run_star_class, greedy_rejecting.
  2:{ intros c s' Hc. rewrite run_Seq, run_Lit. unfold ext.
      cbn [list_ascii_of_string after]. rewrite (digit_not_dot c Hc). reflexivity. }
  rewrite run_Seq, run_Lit.
  pose proof (run_of_skip digit s2) as Hsplit.
  pose proof (run_of_all digit s2) as Hall.
  assert (Hfwd : forall ds',
             s2 = ds' ++ ext -> forallb digit ds' = true ->
             skip digit s2 = ext /\ run_of digit s2 = ds').
  { intros ds' -> Hds'. apply skip_app; [exact Hds' | reflexivity]. }
  assert (Hext : after Ascii.eqb ext ext = Some [])
    by (apply after_eqb; rewrite app_nil_r; reflexivity).
  destruct (after Ascii.eqb ext (skip digit s2)) as [s3|] eqn:E3.
  - apply after_eqb in E3. rewrite run_Eos. destruct s3 as [|c s3].
    + rewrite app_nil_r in E3. rewrite E3 in Hsplit.
      set (ds := run_of digit s2) in *. clearbody ds. subst s2.
      rewrite E3, Nat.sub_0_r, firstn_all.
      change (d :: ds ++ ext) with ((d :: ds) ++ ext). rewrite take_but_suffix.
      split.
      * intros [= <-]. exists (d :: ds). repeat split; [discriminate|].
        simpl. rewrite Ed. exact Hall.
      * intros (ds0 & H & Hne & Hds & ->). apply app_inv_head, app_inv_tail in H.
        rewrite H. reflexivity.
    + split; [discriminate|]. intros (ds & H & Hne & Hds & _).
      exfalso. apply (Hinv ds False H Hne Hds). intros d' ds' [= <- ->] _ Hds' _.
      destruct (Hfwd ds' eq_refl Hds') as [Hs _]. rewrite Hs in E3.
      rewrite <- (app_nil_r ext) in E3 at 1. apply app_inv_head in E3. discriminate.
  - split; [discriminate|]. intros (ds & H & Hne & Hds & _).
    exfalso. apply (Hinv ds False H Hne Hds). intros d' ds' [= <- ->] _ Hds' _.
    destruct (Hfwd ds' eq_refl Hds') as [Hs _]. congruence.
Qed.

Lemma list_ascii_of_string_app s1 s2 :
  list_ascii_of_string (s1 +:+ s2) = list_ascii_of_string s1 ++ list_ascii_of_string s2.
Proof. induction s1 as [|c s1 IH]; simpl; [reflexivity | rewrite IH; reflexivity]. Qed.

Lemma string_of_list_ascii_app l1 l2 :
  string_of_list_ascii (l1 ++ l2) = string_of_list_ascii l1 +:+ string_of_list_ascii l2.
Proof. induction l1 as [|c l1 IH]; simpl; [reflexivity | rewrite IH; reflexivity]. Qed.

(** The digits that end a text after a character that is no digit are
    determined by the text. *)
Lemma trailing_digits_unique (a a' : list ascii) c c' :
  digit c = false -> digit c' = false ->
  forall ds ds',
    forallb digit ds = true -> forallb digit ds' = true ->
    (a ++ [c]) ++ ds = (a' ++ [c']) ++ ds' -> ds = ds'.
Proof.
  intros Hc Hc'. induction ds as [|x ds IH] using rev_ind;
    intros ds' Hds Hds' H; destruct ds' as [|x' ds' _] using rev_ind.
  - reflexivity.
  - exfalso. rewrite app_nil_r, app_assoc in H. apply app_inj_tail in H as [_ ->].
    rewrite forallb_app in Hds'. simpl in Hds'. rewrite Hc, andb_false_r in Hds'.
    discriminate.
  - exfalso. rewrite app_nil_r, app_assoc in H. apply app_inj_tail in H as [_ <-].
    rewrite forallb_app in Hds. simpl in Hds. rewrite Hc', andb_false_r in Hds.
    discriminate.
  - rewrite !app_assoc in H. apply app_inj_tail in H as [H ->].
    rewrite forallb_app in Hds, Hds'.
    apply andb_true_iff in Hds as [Hds _]. apply andb_true_iff in Hds' as [Hds' _].
    rewrite (IH ds' Hds Hds' H). reflexivity.
Qed.

(** X8. [extractSourceUrl] returns a link exactly for the names that end
    with the partition's tag ([stock_] or [qast_]), one or more decimal
    digits and [.mhtml]; the link is the partition's page address with
    those digits as the id.  Anything may precede the tag, a folder path
    for instance; a name without the tag, without digits or with another
    ending gives no link. *)
Theorem extractSourceUrl_reads_the_id :
  forall src name url,
    let tag := match src with stock => "stock_" | qast => "qast_" end in
    let page id :=
      match src with
      | stock => "https://www.stock-app.jp/teams/c20282/dashboard/all/stocks/"
                 +:+ id +:+ "/edit"
      | qast => "https://qast.jp/teams/xxxxx/posts/" +:+ id
      end in
    extractSourceUrl src name = Some url
    <-> exists prefix id,
          name = prefix +:+ tag +:+ id +:+ ".mhtml"
          /\ id <> ""
          /\ forallb digit (list_ascii_of_string id) = true
          /\ url = page id.
Proof.
  intros src name url tag page.
  assert (Hcode : extractSourceUrl src name
                  = match exec (idPattern tag) (list_ascii_of_string name) with
                    | Some m => Some (page (group1 m))
                    | None => None
                    end)
    by (destruct src; reflexivity).
  assert (Htag : exists body, list_ascii_of_string tag = body ++ ["_"%char])
    by (destruct src; [exists (list_ascii_of_string "qast")
                      | exists (list_ascii_of_string "stock")]; reflexivity).
  destruct Htag as [body Htag].
  rewrite Hcode. clear Hcode. split.
  - destruct (exec (idPattern tag) (list_ascii_of_string name)) as [m|] eqn:E;
      [|discriminate].
    intros [= <-]. apply exec_position in E as (pre & s' & Hname & Hm).
    apply matchAt_idPattern in Hm as (ds & -> & Hne & Hds & ->).
    exists (string_of_list_ascii pre), (string_of_list_ascii ds).
    rewrite list_ascii_of_string_of_list_ascii. repeat split.
    + rewrite <- (string_of_list_ascii_of_string name), Hname.
      rewrite !string_of_list_ascii_app, !string_of_list_ascii_of_string. reflexivity.
    + destruct ds; [contradiction | discriminate].
    + exact Hds.
  - intros (prefix & id & -> & Hne & Hds & ->).
    rewrite !list_ascii_of_string_app.
    set (ext := list_ascii_of_string ".mhtml").
    assert (Hm : matchAt (idPattern tag)
                   (list_ascii_of_string tag ++ list_ascii_of_string id ++ ext)
                 = Some (list_ascii_of_string tag ++ list_ascii_of_string id ++ ext,
                         Some (list_ascii_of_string id))).
    { apply matchAt_idPattern. exists (list_ascii_of_string id). repeat split; [|exact Hds].
      destruct id; [contradiction | discriminate]. }
    destruct (exec_finds _ (list_ascii_of_string prefix) _ _ Hm) as [m' E].
    rewrite E. apply exec_position in E as (pre & s' & Hname & Hm').
    apply matchAt_idPattern in Hm' as (ds & -> & _ & Hds' & ->).
    unfold group1. simpl snd.
    assert (ds = list_ascii_of_string id) as ->.
    { fold ext in Hname. rewrite Htag in Hname.
      rewrite !app_assoc in Hname. apply app_inv_tail in Hname.
      symmetry. eapply (trailing_digits_unique _ _ "_"%char "_"%char);
        [reflexivity | reflexivity | exact Hds | exact Hds' |].
      exact Hname. }
    rewrite string_of_list_ascii_of_string. reflexivity.
Qed.


Lemma exec_first {A : Type} (r : t A) s m :
  matchAt r s = Some m ->
  forall pre,
    (forall k, (k < length pre)%nat -> matchAt r (drop k (pre ++ s)) = None) ->
    exec r (pre ++ s) = Some m.
Proof.
  intros Hm. induction pre as [|c pre IH]; intros Hpre; simpl.
  - destruct s; simpl; rewrite Hm; reflexivity.
  - pose proof (Hpre 0%nat ltac:(simpl; lia)) as H0. simpl in H0. rewrite H0.
    apply IH. intros k Hk. apply (Hpre (S k)). simpl. lia.
Qed.

Lemma ignoringCase_upper p c :
  (p < 128)%N -> ignoringCase p c = true <-> upper c = upper p.
Proof.
  intros Hp. unfold ignoringCase, upper.
  destruct (N.ltb_spec c 128), (N.leb_spec 97 c), (N.leb_spec c 122),
    (N.leb_spec 97 p), (N.leb_spec p 122); simpl;
    rewrite ?N.eqb_eq; try tauto; split; try discriminate; lia.
Qed.

Lemma after_ignoringCase l :
  Forall (fun p => (p < 128)%N) l ->
  forall h s, map upper h = map upper l -> after ignoringCase l (h ++ s) = Some s.
Proof.
  induction 1 as [|p l Hp _ IH]; intros h s Hh.
  - destruct h; [reflexivity | discriminate].
  - destruct h as [|c h]; [discriminate|]. injection Hh as Hc Hh. simpl.
    apply (ignoringCase_upper p c Hp) in Hc. rewrite Hc. apply IH, Hh.
Qed.

Lemma dot_not_whiteSpace c : whiteSpace c = false -> dot c = true.
Proof.
  unfold whiteSpace, dot. destruct (lineTerminator c); [discriminate | reflexivity].
Qed.

(** X9. The first place of the document that reads [Content-Location:], in
    any letter case and also inside a longer header name such as
    [Snapshot-Content-Location:], decides: white space after it, line
    breaks included, is skipped; the link is the text from the first
    character that is no white space to the end of that line, trimmed. *)
Theorem content_location_first_occurrence :
  forall toString mhtmlContent pre h ws c v rest,
    toString mhtmlContent = pre ++ h ++ ws ++ (c :: v) ++ rest ->
    (forall k, (k < length pre)%nat ->
       after ignoringCase (units "Content-Location:") (drop k (toString mhtmlContent))
       = None) ->
    map upper h = map upper (units "Content-Location:") ->
    forallb whiteSpace ws = true ->
    whiteSpace c = false ->
    forallb dot v = true ->
    match rest with r :: _ => lineTerminator r = true | [] => True end ->
    extractContentLocationUrl toString mhtmlContent = Some (trim (c :: v)).
Proof.
  intros toString mhtmlContent pre h ws c v rest Hcontent Hfirst Hh Hws Hc Hv Hrest.
  unfold extractContentLocationUrl. cbv zeta.
  set (s := h ++ ws ++ (c :: v) ++ rest) in *.
  assert (Hm : matchAt contentLocationPattern s
               = Some (take (length s - length rest) s, Some (c :: v))).
  { unfold matchAt, contentLocationPattern, Plus.
    rewrite run_Seq, run_Lit. unfold s at 1.
    rewrite (after_ignoringCase (units "Content-Location:")) by
      (try exact Hh; repeat constructor).
    rewrite run_Seq, run_star_class.
    apply greedy_longest.
    destruct (skip_app whiteSpace ws ((c :: v) ++ rest) Hws) as [-> _]; [exact Hc|].
    rewrite run_Group, run_Seq, run_Class. cbn [app].
    rewrite (dot_not_whiteSpace c Hc), run_star_class.
    apply greedy_longest.
    destruct (skip_app dot v rest Hv) as [-> _].
    { destruct rest as [|r rest]; [exact I|]. unfold dot. rewrite Hrest. reflexivity. }
    do 3 f_equal. change (c :: v ++ rest) with ((c :: v) ++ rest). apply take_but_suffix. }
  rewrite Hcontent, (exec_first contentLocationPattern s _ Hm); [reflexivity|].
  intros k Hk. specialize (Hfirst k Hk). rewrite Hcontent in Hfirst.
  unfold matchAt, contentLocationPattern. rewrite run_Seq, run_Lit, Hfirst. reflexivity.
Qed.

Lemma after_ignoringCase_inv l :
  Forall (fun p => (p < 128)%N) l ->
  forall s s', after ignoringCase l s = Some s' ->
    exists h, s = h ++ s' /\ map upper h = map upper l.
Proof.
  induction 1 as [|p l Hp _ IH]; intros s s'; simpl.
  - intros [= ->]. exists []. auto.
  - destruct s as [|c s]; [discriminate|].
    destruct (ignoringCase p c) eqn:E; [|discriminate].
    intros H. destruct (IH _ _ H) as (h & -> & Hh).
    apply (ignoringCase_upper p c Hp) in E. exists (c :: h). simpl. rewrite E, Hh. auto.
Qed.

(** Whatever a greedy star hands on comes after a run of the class. *)
Lemma greedy_some {A R : Type} (p : A -> bool) (k : list A -> Capture A -> option R) cap :
  forall s x, greedy p s cap k = Some x ->
    exists a b, s = a ++ b /\ forallb p a = true /\ k b cap = Some x.
Proof.
  induction s as [|c s IH]; intros x; simpl.
  - intros H. exists [], []. auto.
  - destruct (p c) eqn:E.
    + destruct (greedy p s cap k) as [y|] eqn:G.
      * intros [= <-]. destruct (IH y eq_refl) as (a & b & -> & Ha & Hk).
        exists (c :: a), b. simpl. rewrite E. auto.
      * intros H. exists [], (c :: s). auto.
    + intros H. exists [], (c :: s). auto.
Qed.

Lemma skip_idempotent {A : Type} (p : A -> bool) s : skip p (skip p s) = skip p s.
Proof.
  induction s as [|c s IH]; simpl; [reflexivity|].
  destruct (p c) eqn:E; [exact IH|]. simpl. rewrite E. reflexivity.
Qed.

Lemma forallb_skip {A : Type} (p q : A -> bool) s :
  forallb q s = true -> forallb q (skip p s) = true.
Proof.
  induction s as [|c s IH]; simpl; [auto|]. intros H.
  apply andb_true_iff in H as [Hc Hs]. destruct (p c); [auto|]. simpl. rewrite Hc. exact Hs.
Qed.

Lemma forallb_rev {A : Type} (q : A -> bool) s : forallb q (rev s) = forallb q s.
Proof.
  induction s as [|c s IH]; simpl; [reflexivity|].
  rewrite forallb_app, IH. simpl. rewrite andb_true_r. apply andb_comm.
Qed.

(** What [trim] returns starts and ends with no white space. *)
Lemma trim_trimmed s :
  skip whiteSpace (trim s) = trim s /\ skip whiteSpace (rev (trim s)) = rev (trim s).
Proof.
  unfold trim. set (t := skip whiteSpace s). set (u := skip whiteSpace (rev t)).
  split.
  - pose proof (run_of_skip whiteSpace (rev t)) as H. fold u in H.
    apply (f_equal (@rev N)) in H. rewrite rev_app_distr, rev_involutive in H.
    destruct (rev u) as [|c w] eqn:E; [reflexivity|].
    assert (Hc : whiteSpace c = false).
    { apply (skip_head whiteSpace s c (w ++ rev (run_of whiteSpace (rev t)))).
      fold t. symmetry. exact H. }
    simpl. rewrite Hc. reflexivity.
  - rewrite rev_involutive. apply skip_idempotent.
Qed.

Lemma forallb_trim q s : forallb q s = true -> forallb q (trim s) = true.
Proof.
  intros H. unfold trim. rewrite forallb_rev. apply forallb_skip.
  rewrite forallb_rev. apply forallb_skip, H.
Qed.

(** X10. A link [extractContentLocationUrl] returns comes from a document
    that holds the header text, lies on one line, and neither starts nor
    ends with white space. *)
Theorem content_location_shape :
  forall toString mhtmlContent url,
    extractContentLocationUrl toString mhtmlContent = Some url ->
    (exists pre h rest,
        toString mhtmlContent = pre ++ h ++ rest
        /\ map upper h = map upper (units "Content-Location:"))
    /\ forallb dot url = true
    /\ skip whiteSpace url = url
    /\ skip whiteSpace (rev url) = rev url.
Proof.
  intros toString mhtmlContent url. unfold extractContentLocationUrl. cbv zeta.
  destruct (exec contentLocationPattern (toString mhtmlContent)) as [[m0 [text|]]|] eqn:E;
    try discriminate.
  intros [= <-]. apply exec_position in E as (pre & s & Hcontent & Hm).
  unfold matchAt, contentLocationPattern, Plus in Hm.
  rewrite run_Seq, run_Lit in Hm.
  destruct (after ignoringCase (units "Content-Location:") s) as [s1|] eqn:E1;
    [|discriminate].
  apply after_ignoringCase_inv in E1 as (h & -> & Hh); [|repeat constructor].
  rewrite run_Seq, run_star_class in Hm.
  apply greedy_some in Hm as (ws & s2 & -> & _ & Hm).
  rewrite run_Group, run_Seq, run_Class in Hm.
  destruct s2 as [|c s3]; [discriminate|]. destruct (dot c) eqn:Ec; [|discriminate].
  rewrite run_star_class in Hm.
  apply greedy_some in Hm as (v & rest & -> & Hv & Hm).
  injection Hm as _ <-.
  change (take (S (length (v ++ rest)) - length rest) (c :: v ++ rest))
    with (take (length ((c :: v) ++ rest) - length rest) ((c :: v) ++ rest)).
  rewrite take_but_suffix.
  split; [|split].
  - exists pre, h, (ws ++ c :: v ++ rest). auto.
  - apply forallb_trim. simpl. rewrite Ec. exact Hv.
  - apply trim_trimmed.
Qed.

(** After white space only, the group can take one blank that is no line
    terminator, the last one, and nothing else. *)
Lemma greedy_blank {M : Type} (f : list N -> M) :
  forall ws,
    forallb whiteSpace ws = true ->
    match greedy whiteSpace ws None
            (fun s' cap' =>
               run (Group (Seq (Class dot) (Star (Class dot)))) s' cap'
                 (fun s'' cap'' => Some (f s'', cap''))) with
    | Some (_, cap) =>
        existsb dot ws = true /\ exists w, cap = Some [w] /\ whiteSpace w = true
    | None => existsb dot ws = false
    end.
Proof.
  induction ws as [|w ws IH]; intros Hws.
  - reflexivity.
  - simpl in Hws. apply andb_true_iff in Hws as [Hw Hws]. specialize (IH Hws).
    cbn [greedy existsb]. rewrite Hw.
    match type of IH with
    | match ?g with _ => _ end => destruct g as [[m cap]|] eqn:G
    end.
    + destruct IH as [-> IH]. rewrite orb_true_r. auto.
    + rewrite IH, orb_false_r, run_Group, run_Seq, run_Class.
      destruct (dot w) eqn:Ew; [|reflexivity].
      rewrite run_star_class.
      assert (Hskip : skip dot ws = ws).
      { clear -IH. destruct ws as [|c ws]; [reflexivity|]. simpl in *.
        apply orb_false_iff in IH as [-> _]. reflexivity. }
      erewrite greedy_longest; [|rewrite Hskip; reflexivity].
      split; [reflexivity|]. exists w. split; [|exact Hw].
      f_equal. change (w :: ws) with ([w] ++ ws). apply take_but_suffix.
Qed.

Lemma upper_colon c : upper c = 58%N -> c = 58%N.
Proof.
  unfold upper. destruct (N.leb_spec 97 c), (N.leb_spec c 122); simpl; lia.
Qed.

(** The header text cannot begin inside a copy of itself that only white
    space follows. *)
Lemma header_not_inside h ws a b :
  map upper h = map upper (units "Content-Location:") ->
  forallb whiteSpace ws = true ->
  h ++ ws = a ++ b -> a <> [] ->
  after ignoringCase (units "Content-Location:") b = None.
Proof.
  intros Hh Hws Hsplit Ha.
  destruct (after ignoringCase (units "Content-Location:") b) as [r|] eqn:E;
    [exfalso | reflexivity].
  apply after_ignoringCase_inv in E as (h' & -> & Hh'); [|repeat constructor].
  assert (Hlen : length h = 17%nat)
    by (apply (f_equal (@length N)) in Hh; rewrite !length_map in Hh; exact Hh).
  assert (Hlen' : length h' = 17%nat)
    by (apply (f_equal (@length N)) in Hh'; rewrite !length_map in Hh'; exact Hh').
  assert (Hcolon : h' !! 16%nat = Some 58%N).
  { apply (f_equal (fun l => l !! 16%nat)) in Hh'. rewrite list_lookup_fmap in Hh'.
    destruct (h' !! 16%nat) as [c|]; [|discriminate].
    injection Hh' as Hc. apply upper_colon in Hc. congruence. }
  assert (Hin : (a ++ h' ++ r) !! (length a + 16)%nat = Some 58%N).
  { rewrite lookup_app_r by lia. replace (length a + 16 - length a)%nat with 16%nat by lia.
    rewrite lookup_app_l by lia. exact Hcolon. }
  rewrite <- Hsplit in Hin.
  assert (length a <> 0%nat) by (destruct a; [contradiction | discriminate]).
  rewrite lookup_app_r in Hin by lia.
  apply list_elem_of_lookup_2, list_elem_of_In in Hin.
  rewrite forallb_forall in Hws. specialize (Hws _ Hin). discriminate.
Qed.

(** X11. When only white space follows the first [Content-Location:] up to
    the end of the document, the result is the empty string if some of
    that white space is no line terminator (a blank or a tab), and no link
    at all otherwise. *)
Theorem content_location_blank_value :
  forall toString mhtmlContent pre h ws,
    toString mhtmlContent = pre ++ h ++ ws ->
    (forall k, (k < length pre)%nat ->
       after ignoringCase (units "Content-Location:") (drop k (toString mhtmlContent))
       = None) ->
    map upper h = map upper (units "Content-Location:") ->
    forallb whiteSpace ws = true ->
    extractContentLocationUrl toString mhtmlContent
    = if existsb dot ws then Some [] else None.
Proof.
  intros toString mhtmlContent pre h ws Hcontent Hfirst Hh Hws.
  unfold extractContentLocationUrl. cbv zeta.
  assert (Hat : matchAt contentLocationPattern (h ++ ws)
                = greedy whiteSpace ws None
                    (fun s' cap' =>
                       run (Group (Seq (Class dot) (Star (Class dot)))) s' cap'
                         (fun s'' cap'' =>
                            Some (take (length (h ++ ws) - length s'') (h ++ ws), cap'')))).
  { unfold matchAt, contentLocationPattern, Plus. rewrite run_Seq, run_Lit.
    rewrite (after_ignoringCase (units "Content-Location:")) by
      (try exact Hh; repeat constructor).
    rewrite run_Seq, run_star_class. reflexivity. }
  pose proof (greedy_blank (fun s'' => take (length (h ++ ws) - length s'') (h ++ ws))
                ws Hws) as Hblank.
  cbv beta in Hblank. rewrite <- Hat in Hblank.
  assert (Hpre : forall k, (k < length pre)%nat ->
                   matchAt contentLocationPattern (drop k (pre ++ h ++ ws)) = None).
  { intros k Hk. specialize (Hfirst k Hk). rewrite Hcontent in Hfirst.
    unfold matchAt, contentLocationPattern. rewrite run_Seq, run_Lit, Hfirst. reflexivity. }
  rewrite Hcontent.
  destruct (matchAt contentLocationPattern (h ++ ws)) as [[m0 cap]|] eqn:Hm.
  - destruct Hblank as (-> & w & -> & Hw).
    rewrite (exec_first contentLocationPattern (h ++ ws) _ Hm pre Hpre).
    unfold trim. simpl. rewrite Hw. reflexivity.
  - rewrite Hblank.
    assert (Hnone : exec contentLocationPattern (pre ++ h ++ ws) = None).
    { apply exec_none. intros a b Hsplit.
      destruct (Nat.lt_ge_cases (length a) (length pre)) as [Hlt|Hge].
      - rewrite <- (Hpre (length a) Hlt), Hsplit, drop_app_length. reflexivity.
      - destruct (decide (length a = length pre)) as [Heq|Hne].
        + apply app_inj_1 in Hsplit as [_ <-]; [exact Hm | congruence].
        + assert (Hb : after ignoringCase (units "Content-Location:") b = None).
          { apply (header_not_inside h ws (drop (length pre) a) b Hh Hws).
            - apply (f_equal (drop (length pre))) in Hsplit.
              rewrite drop_app_length in Hsplit. rewrite Hsplit.
              rewrite drop_app_le by lia. reflexivity.
            - intros Hnil. apply (f_equal (@length N)) in Hnil.
              rewrite length_drop in Hnil. simpl in Hnil. lia. }
          unfold matchAt, contentLocationPattern. rewrite run_Seq, run_Lit, Hb.
          reflexivity. }
    rewrite Hnone. reflexivity.
Qed.

(** A literal under the [i] flag is found in a subject exactly when a copy
    of it, in any letter case, is part of the subject. *)
Lemma test_Lit l s :
  Forall (fun p => (p < 128)%N) l ->
  test (Lit ignoringCase l) s = true
  <-> exists a m b, s = a ++ m ++ b /\ map upper m = map upper l.
Proof.
  intros Hl. unfold test. split.
  - destruct (exec (Lit ignoringCase l) s) as [m|] eqn:E; [|discriminate].
    intros _. apply exec_position in E as (pre & s' & -> & Hm).
    unfold matchAt in Hm. rewrite run_Lit in Hm.
    destruct (after ignoringCase l s') as [r|] eqn:E; [|discriminate].
    apply (after_ignoringCase_inv l Hl) in E as (h & -> & Hh).
    exists pre, h, r. auto.
  - intros (a & m & b & -> & Hm).
    assert (H : matchAt (Lit ignoringCase l) (m ++ b)
                = Some (take (length (m ++ b) - length b) (m ++ b), None)).
    { unfold matchAt. rewrite run_Lit, (after_ignoringCase l Hl m b Hm). reflexivity. }
    destruct (exec_finds _ a _ _ H) as [m' ->]. reflexivity.
Qed.

(** X12. [isValidMhtml] accepts exactly the contents in which one of the
    texts [MIME-Version:], [Content-Type:] and [<html] occurs somewhere, in
    any letter case: a plain HTML page passes. *)
Theorem isValidMhtml_markers :
  forall contentStr,
    MhtmlParser.isValidMhtml contentStr = true
    <-> exists before marker after,
          contentStr = before ++ marker ++ after
          /\ (map upper marker = map upper (units "MIME-Version:")
              \/ map upper marker = map upper (units "Content-Type:")
              \/ map upper marker = map upper (units "<html")).
Proof.
  intros s. unfold MhtmlParser.isValidMhtml. cbv zeta.
  rewrite !orb_true_iff, !test_Lit by repeat constructor.
  split.
  - intros [[(a & m & b & H & Hm)|(a & m & b & H & Hm)]|(a & m & b & H & Hm)];
      exists a, m, b; auto.
  - intros (a & m & b & H & [Hm|[Hm|Hm]]); [left; left | left; right | right];
      exists a, m, b; auto.
Qed.

(** The title element the pattern accepts at the head of a subject. *)
Lemma matchAt_titlePattern s m :
  matchAt MhtmlParser.titlePattern s = Some m ->
  exists h attrs text e rest,
    s = h ++ attrs ++ [62%N] ++ text ++ e ++ rest
    /\ map upper h = map upper (units "<title")
    /\ forallb (fun c => negb (c =? 62)%N) attrs = true
    /\ text <> []
    /\ forallb (fun c => negb (c =? 60)%N) text = true
    /\ map upper e = map upper (units "</title>")
    /\ snd m = Some text.
Proof.
  unfold matchAt, MhtmlParser.titlePattern, Plus.
  rewrite run_Seq, run_Lit.
  destruct (after ignoringCase (units "<title") s) as [s1|] eqn:E1; [|discriminate].
  apply after_ignoringCase_inv in E1 as (h & -> & Hh); [|repeat constructor].
  rewrite run_Seq, run_star_class. intros Hm.
  apply greedy_some in Hm as (attrs & s2 & -> & Hattrs & Hm).
  rewrite run_Seq, run_Class in Hm.
  destruct s2 as [|g s3]; [discriminate|].
  destruct (ignoringCase 62 g) eqn:Eg; [|discriminate].
  apply ignoringCase_upper in Eg; [|reflexivity].
  assert (g = 62%N) as ->
    by (revert Eg; unfold upper; destruct (N.leb_spec 97 g), (N.leb_spec g 122); simpl; lia).
  rewrite run_Seq, run_Group, run_Seq, run_Class in Hm.
  destruct s3 as [|c s4]; [discriminate|].
  destruct (negb (c =? 60)%N) eqn:Ec; [|discriminate].
  rewrite run_star_class in Hm.
  apply greedy_some in Hm as (text & s5 & -> & Htext & Hm).
  rewrite run_Lit in Hm.
  destruct (after ignoringCase (units "</title>") s5) as [rest|] eqn:E5; [|discriminate].
  apply after_ignoringCase_inv in E5 as (e & -> & He); [|repeat constructor].
  injection Hm as <-.
  exists h, attrs, (c :: text), e, rest.
  split; [reflexivity|]. split; [exact Hh|]. split; [exact Hattrs|].
  split; [discriminate|]. split; [simpl; rewrite Ec; exact Htext|].
  split; [exact He|].
  simpl. f_equal.
    change (take (S (length (text ++ e ++ rest)) - length (e ++ rest))
              (c :: text ++ e ++ rest))
      with (take (length ((c :: text) ++ e ++ rest) - length (e ++ rest))
              ((c :: text) ++ e ++ rest)).
    apply take_but_suffix.
Qed.

Lemma matchAt_titlePattern_intro h attrs text e rest :
  map upper h = map upper (units "<title") ->
  forallb (fun c => negb (c =? 62)%N) attrs = true ->
  text <> [] ->
  forallb (fun c => negb (c =? 60)%N) text = true ->
  map upper e = map upper (units "</title>") ->
  exists m0,
    matchAt MhtmlParser.titlePattern (h ++ attrs ++ [62%N] ++ text ++ e ++ rest)
    = Some (m0, Some text).
Proof.
  intros Hh Hattrs Hne Htext He.
  destruct text as [|c text]; [contradiction|]. simpl in Htext.
  apply andb_true_iff in Htext as [Hc Htext].
  assert (He0 : exists e', e = 60%N :: e').
  { destruct e as [|x e]; [discriminate|]. injection He as Hx _.
    exists e. f_equal. revert Hx. unfold upper.
    destruct (N.leb_spec 97 x), (N.leb_spec x 122); simpl; lia. }
  destruct He0 as [e' He0].
  unfold matchAt, MhtmlParser.titlePattern, Plus. eexists.
  rewrite run_Seq, run_Lit, (after_ignoringCase (units "<title")) by
    (try exact Hh; repeat constructor).
  rewrite run_Seq, run_star_class.
  apply greedy_longest.
  destruct (skip_app (fun c => negb (c =? 62)%N) attrs
              ([62%N] ++ (c :: text) ++ e ++ rest) Hattrs) as [-> _]; [reflexivity|].
  rewrite run_Seq, run_Class. cbn [app].
  change (ignoringCase 62 62) with true. cbv iota.
  rewrite run_Seq, run_Group, run_Seq, run_Class, Hc, run_star_class.
  apply greedy_longest.
  destruct (skip_app (fun c => negb (c =? 60)%N) text (e ++ rest) Htext) as [-> _].
  { rewrite He0. reflexivity. }
  rewrite run_Lit, (after_ignoringCase (units "</title>")) by
    (try exact He; repeat constructor).
  do 3 f_equal.
  change (take (length (c :: text ++ e ++ rest) - length (e ++ rest))
            (c :: text ++ e ++ rest))
    with (take (length ((c :: text) ++ e ++ rest) - length (e ++ rest))
            ((c :: text) ++ e ++ rest)).
  apply take_but_suffix.
Qed.

(** X13. The title of a page is the trimmed text of its first [title]
    element, when that text is not empty and holds no tag: the tag name in
    any letter case, attributes allowed. *)
Theorem title_of_first_element :
  forall html pre h attrs text e rest,
    html = pre ++ h ++ attrs ++ [62%N] ++ text ++ e ++ rest ->
    (forall k, (k < length pre)%nat ->
       after ignoringCase (units "<title") (drop k html) = None) ->
    map upper h = map upper (units "<title") ->
    forallb (fun c => negb (c =? 62)%N) attrs = true ->
    text <> [] ->
    forallb (fun c => negb (c =? 60)%N) text = true ->
    map upper e = map upper (units "</title>") ->
    MhtmlParser.extractTitle html = Some (trim text).
Proof.
  intros html pre h attrs text e rest -> Hfirst Hh Hattrs Hne Htext He.
  destruct (matchAt_titlePattern_intro h attrs text e rest Hh Hattrs Hne Htext He)
    as [m0 Hm].
  unfold MhtmlParser.extractTitle.
  rewrite (exec_first MhtmlParser.titlePattern _ _ Hm pre); [reflexivity|].
  intros k Hk. specialize (Hfirst k Hk).
  unfold matchAt, MhtmlParser.titlePattern. rewrite run_Seq, run_Lit, Hfirst. reflexivity.
Qed.

(** X14. A title [extractTitle] returns is the trimmed text between an
    opening [title] tag and the closing tag that follows it directly, with
    no other tag in between. *)
Theorem title_comes_from_an_element :
  forall html title,
    MhtmlParser.extractTitle html = Some title ->
    exists pre h attrs text e rest,
      html = pre ++ h ++ attrs ++ [62%N] ++ text ++ e ++ rest
      /\ map upper h = map upper (units "<title")
      /\ forallb (fun c => negb (c =? 62)%N) attrs = true
      /\ text <> []
      /\ forallb (fun c => negb (c =? 60)%N) text = true
      /\ map upper e = map upper (units "</title>")
      /\ title = trim text.
Proof.
  intros html title. unfold MhtmlParser.extractTitle.
  destruct (exec MhtmlParser.titlePattern html) as [[m0 [text|]]|] eqn:E; try discriminate.
  intros [= <-]. apply exec_position in E as (pre & s & -> & Hm).
  apply matchAt_titlePattern in Hm
    as (h & attrs & text' & e & rest & -> & Hh & Hattrs & Hne & Htext & He & Hcap).
  simpl in Hcap. injection Hcap as ->.
  exists pre, h, attrs, text', e, rest. repeat split; auto.
Qed.

Lemma content_location_first_occurrence_witness :
  extractContentLocationUrl (fun _ => snapshot) EmptyString
  = Some (units "https://example.com/a b").
Proof.
  apply (content_location_first_occurrence (fun _ => snapshot) EmptyString
           (units "From: <Saved by Blink>" ++ crlf ++ units "Snapshot-")
           (units "Content-Location:") (units " ")
           104%N (units "ttps://example.com/a b  ") (crlf ++ units "Subject: x")).
  - reflexivity.
  - intros k Hk.
    do 33 (destruct k as [|k]; [vm_compute; reflexivity|]).
    vm_compute in Hk. lia.
  - reflexivity.
  - reflexivity.
  - reflexivity.
  - reflexivity.
  - reflexivity.
Defined.

Lemma content_location_shape_witness :
  (exists pre h rest,
      snapshot = pre ++ h ++ rest
      /\ map upper h = map upper (units "Content-Location:"))
  /\ forallb dot (units "https://example.com/a b") = true
  /\ skip whiteSpace (units "https://example.com/a b") = units "https://example.com/a b"
  /\ skip whiteSpace (rev (units "https://example.com/a b"))
     = rev (units "https://example.com/a b").
Proof.
  apply (content_location_shape (fun _ => snapshot) EmptyString
           (units "https://example.com/a b")).
  vm_compute. reflexivity.
Defined.

Lemma content_location_blank_value_witness :
  extractContentLocationUrl (fun _ => blankHeader) EmptyString = Some [].
Proof.
  apply (content_location_blank_value (fun _ => blankHeader) EmptyString
           (units "Subject: x" ++ crlf) (units "content-location:") (units " " ++ crlf)).
  - reflexivity.
  - intros k Hk.
    do 12 (destruct k as [|k]; [vm_compute; reflexivity|]).
    vm_compute in Hk. lia.
  - reflexivity.
  - reflexivity.
Defined.

Lemma title_of_first_element_witness :
  MhtmlParser.extractTitle page = Some (units "Stock 12").
Proof.
  apply (title_of_first_element page (units "<html><head>") (units "<TITLE")
           (units " lang=en") (units " Stock 12 ") (units "</Title>")
           (units "</head></html>")).
  - reflexivity.
  - intros k Hk.
    do 12 (destruct k as [|k]; [vm_compute; reflexivity|]).
    vm_compute in Hk. lia.
  - reflexivity.
  - reflexivity.
  - discriminate.
  - reflexivity.
  - reflexivity.
Defined.

Lemma title_comes_from_an_element_witness :
  exists pre h attrs text e rest,
    page = pre ++ h ++ attrs ++ [62%N] ++ text ++ e ++ rest
    /\ map upper h = map upper (units "<title")
    /\ forallb (fun c => negb (c =? 62)%N) attrs = true
    /\ text <> []
    /\ forallb (fun c => negb (c =? 60)%N) text = true
    /\ map upper e = map upper (units "</title>")
    /\ units "Stock 12" = trim text.
Proof.
  apply (title_comes_from_an_element page (units "Stock 12")).
  vm_compute. reflexivity.
Defined.

End RegularExpressions.

(** ** Properties of the JSON client *)

Section RagIndexerFacts.
Import RagIndexer.

Lemma forEach_spec batchResults :
  forall acc,
    forEach batchResults acc
    = {| BatchReport.results := BatchReport.results acc ++ batchResults;
         BatchReport.success :=
           (BatchReport.success acc
            + length (List.filter IndexResponse.success batchResults))%nat;
         BatchReport.failed :=
           (BatchReport.failed acc
            + length (List.filter (fun r => negb (IndexResponse.success r))
                        batchResults))%nat |}.
Proof.
  induction batchResults as [|r rs IH]; intros [succ fail res]; simpl.
  - rewrite app_nil_r, !Nat.add_0_r. reflexivity.
  - rewrite IH. simpl. rewrite <- app_assoc. simpl.
    destruct (IndexResponse.success r); simpl; f_equal; lia.
Qed.

Lemma filter_split {A : Type} (p : A -> bool) l :
  (length (List.filter p l) + length (List.filter (fun x => negb (p x)) l))%nat = length l.
Proof.
  induction l as [|x l IH]; simpl; [reflexivity|].
  destruct (p x); simpl; lia.
Qed.

Lemma posted_app tr1 tr2 :
  Sequential.posted (tr1 ++ tr2) = (Sequential.posted tr1 + Sequential.posted tr2)%nat.
Proof. unfold Sequential.posted. rewrite List.filter_app, length_app. reflexivity. Qed.

Lemma posted_posts batch :
  Sequential.posted (map Sequential.Post batch) = length batch.
Proof.
  unfold Sequential.posted. induction batch as [|r batch IH]; simpl; [reflexivity|].
  rewrite IH. reflexivity.
Qed.

Lemma eachOf_spec post batch :
  forall batchResults tr,
    Sequential.eachOf post batch batchResults tr
    = (batchResults
       ++ imap (fun j request => settle (post (Sequential.posted tr + j)%nat request) request)
            batch,
       tr ++ map Sequential.Post batch).
Proof.
  induction batch as [|request batch IH]; intros batchResults tr; simpl.
  - rewrite !app_nil_r. reflexivity.
  - rewrite IH. rewrite <- !app_assoc. simpl. f_equal.
    f_equal. rewrite Nat.add_0_r. f_equal.
    apply imap_ext. intros j r _. simpl.
    rewrite posted_app.
    change (Sequential.posted [Sequential.Post request]) with 1%nat.
    replace (Sequential.posted tr + 1 + j)%nat with (Sequential.posted tr + S j)%nat by lia.
    reflexivity.
Qed.

Lemma sequential_loop post requests batchSize delayMs :
  (1 <= batchSize)%nat ->
  forall fuel i acc tr,
    (length requests - i <= fuel)%nat ->
    Sequential.loop post requests batchSize delayMs fuel i acc tr
    = (Returned
         (forEach
            (imap (fun j request =>
                     settle (post (Sequential.posted tr + j)%nat request) request)
               (drop i requests))
            acc),
       tr ++ Sequential.paced delayMs (groupsFrom fuel i batchSize requests)).
Proof.
  intros Hb. induction fuel as [|fuel IH]; intros i acc tr Hfuel; simpl.
  - destruct (Nat.ltb_spec i (length requests)); [lia|].
    rewrite drop_ge by lia. simpl. rewrite app_nil_r. reflexivity.
  - destruct (Nat.ltb_spec i (length requests)) as [Hi|Hi];
      [|rewrite drop_ge by lia; simpl; rewrite app_nil_r; reflexivity].
    rewrite eachOf_spec. cbn [app].
    set (batch := slice i (i + batchSize) requests).
    assert (Hdrop : drop i requests = batch ++ drop (i + batchSize) requests).
    { unfold batch, slice. replace (i + batchSize - i)%nat with batchSize by lia.
      rewrite <- drop_drop. symmetry. apply take_drop. }
    assert (Hlen : length batch = Nat.min batchSize (length requests - i))
      by apply slice_length.
    rewrite IH by lia. rewrite Hdrop, imap_app.
    rewrite !forEach_spec. cbn [BatchReport.results BatchReport.success BatchReport.failed].
    rewrite List.filter_app, List.filter_app, !length_app.
    assert (Hposted :
              forall extra, Sequential.posted extra = 0%nat ->
                Sequential.posted ((tr ++ map Sequential.Post batch) ++ extra)
                = (Sequential.posted tr + length batch)%nat).
    { intros extra He. rewrite !posted_app, posted_posts, He. lia. }
    assert (Hext :
              forall tr',
                Sequential.posted tr' = (Sequential.posted tr + length batch)%nat ->
                imap (fun j request =>
                        settle (post (Sequential.posted tr' + j)%nat request) request)
                  (drop (i + batchSize) requests)
                = imap (fun n request =>
                          settle (post (Sequential.posted tr + (length batch + n))%nat
                                    request) request)
                    (drop (i + batchSize) requests)).
    { intros tr' Htr'. apply imap_ext. intros j r _. simpl. rewrite Htr'.
      do 2 f_equal. lia. }
    destruct (Nat.ltb_spec (i + batchSize) (length requests)) as [Hmore|Hlast].
    + rewrite (Hext _ (Hposted [Sequential.Sleep delayMs] eq_refl)).
      f_equal; [f_equal; f_equal; try lia; rewrite <- ?app_assoc; try reflexivity|].
      destruct fuel as [|fuel']; [lia|].
      cbn [groupsFrom]. destruct (Nat.ltb_spec (i + batchSize) (length requests)); [|lia].
      cbn [Sequential.paced]. rewrite <- !app_assoc. reflexivity.
    + pose proof (Hposted [] eq_refl) as Hp. rewrite app_nil_r in Hp.
      rewrite (Hext _ Hp).
      f_equal; [f_equal; f_equal; try lia; rewrite <- ?app_assoc; try reflexivity|].
      assert (Hnone : groupsFrom fuel (i + batchSize) batchSize requests = []).
      { destruct fuel; simpl; destruct (Nat.ltb_spec (i + batchSize) (length requests));
          (lia || reflexivity). }
      rewrite Hnone. cbn [Sequential.paced]. rewrite !app_nil_r. reflexivity.
Qed.

(** X15. The sequential client answers every request, in order.  With a
    batch size of at least 1, [batchIndexDocuments] returns; its results
    are, in the order of the requests, what [indexDocument] makes of the
    answer to the [j]-th POST of the call, which carries request [j]; the
    two counters count the successes and the failures among them and add up
    to the number of requests.  The batch size has no influence on what is
    returned. *)
Theorem sequential_one_response_per_request :
  forall post requests options tr,
    (1 <= default 10%nat (BatchOptions.batchSize options))%nat ->
    exists rep,
      fst (Sequential.batchIndexDocuments post requests options tr) = Returned rep
      /\ BatchReport.results rep
         = imap (fun j request =>
                   settle (post (Sequential.posted tr + j)%nat request) request)
             requests
      /\ BatchReport.success rep
         = length (List.filter IndexResponse.success (BatchReport.results rep))
      /\ (BatchReport.success rep + BatchReport.failed rep)%nat = length requests.
Proof.
  intros post requests options tr Hb. unfold Sequential.batchIndexDocuments.
  rewrite sequential_loop by (exact Hb || (simpl; lia)).
  rewrite forEach_spec. simpl. eexists. split; [reflexivity|]. simpl.
  split; [reflexivity|]. split; [reflexivity|].
  rewrite filter_split, length_imap. reflexivity.
Qed.

Lemma sequential_one_response_per_request_witness :
  exists rep,
    fst (Sequential.batchIndexDocuments secondRefused threeDocuments byTwo []) = Returned rep
    /\ BatchReport.results rep
       = imap (fun j request =>
                 settle (secondRefused (Sequential.posted [] + j)%nat request) request)
           threeDocuments
    /\ BatchReport.success rep
       = length (List.filter IndexResponse.success (BatchReport.results rep))
    /\ (BatchReport.success rep + BatchReport.failed rep)%nat = length threeDocuments.
Proof.
  apply (sequential_one_response_per_request secondRefused threeDocuments byTwo []).
  simpl. lia.
Defined.

Lemma paced_posts delayMs batches :
  List.filter (fun e => match e with Sequential.Post _ => true | _ => false end)
    (Sequential.paced delayMs batches)
  = map Sequential.Post (concat batches).
Proof.
  induction batches as [|batch rest IH]; [reflexivity|].
  cbn [Sequential.paced concat]. rewrite List.filter_app, map_app. f_equal.
  - induction batch as [|r batch IHb]; simpl; [reflexivity | rewrite IHb; reflexivity].
  - destruct rest as [|next rest]; [reflexivity|]. exact IH.
Qed.

(** X16. The sequential client posts every request exactly once, in the
    order given, batch after batch, and pauses [delayMs] between two
    batches and not after the last. *)
Theorem sequential_pacing :
  forall post requests options tr,
    (1 <= default 10%nat (BatchOptions.batchSize options))%nat ->
    exists new,
      snd (Sequential.batchIndexDocuments post requests options tr) = tr ++ new
      /\ new = Sequential.paced (default 1000 (BatchOptions.delayMs options))
                 (groups (default 10%nat (BatchOptions.batchSize options)) requests)
      /\ List.filter (fun e => match e with Sequential.Post _ => true | _ => false end) new
         = map Sequential.Post requests.
Proof.
  intros post requests options tr Hb. unfold Sequential.batchIndexDocuments.
  rewrite sequential_loop by (exact Hb || (simpl; lia)).
  eexists. split; [reflexivity|]. split; [reflexivity|].
  rewrite paced_posts. unfold groups.
  rewrite groupsFrom_concat by (exact Hb || lia). reflexivity.
Qed.

Lemma sequential_pacing_witness :
  exists new,
    snd (Sequential.batchIndexDocuments secondRefused threeDocuments byTwo []) = [] ++ new
    /\ new = Sequential.paced 250 [[document "a"; document "b"]; [document "c"]]
    /\ List.filter (fun e => match e with Sequential.Post _ => true | _ => false end) new
       = map Sequential.Post threeDocuments.
Proof.
  apply (sequential_pacing secondRefused threeDocuments byTwo []).
  simpl. lia.
Defined.

Lemma retry_failures reply request maxRetries n :
  forall fuel c lastError posts waits,
    (n <= fuel)%nat ->
    Z.of_nat (c + n) <= maxRetries + 1 ->
    (forall j, (j < n)%nat ->
       IndexResponse.success (settle (reply (c + j)%nat) request) = false) ->
    Retrying.retry reply request maxRetries fuel (Z.of_nat c) lastError posts waits
    = Retrying.retry reply request maxRetries (fuel - n) (Z.of_nat (c + n))
        match n with
        | O => lastError
        | S m => orElse (IndexResponse.error (settle (reply (c + m)%nat) request))
                   "Unknown error"
        end
        (posts + n) (waits ++ pauses c n).
Proof.
  induction n as [|n IH]; intros fuel c lastError posts waits Hfuel Hc Hfail.
  - rewrite !Nat.add_0_r, Nat.sub_0_r. unfold pauses. simpl. rewrite app_nil_r. reflexivity.
  - destruct fuel as [|fuel]; [lia|].
    cbn [Retrying.retry].
    destruct (Z.leb_spec (Z.of_nat c) maxRetries); [|lia].
    rewrite Nat2Z.id.
    pose proof (Hfail 0%nat ltac:(lia)) as H0. rewrite Nat.add_0_r in H0. rewrite H0.
    replace (Z.of_nat c + 1) with (Z.of_nat (S c)) by lia.
    rewrite IH; [| lia | lia |].
    2:{ intros j Hj. replace (S c + j)%nat with (c + S j)%nat by lia. apply Hfail. lia. }
    replace (S c + n)%nat with (c + S n)%nat by lia.
    replace (S posts + n)%nat with (posts + S n)%nat by lia.
    cbn [Nat.sub]. f_equal.
    + destruct n as [|m]; [rewrite Nat.add_0_r; reflexivity|].
      replace (S c + m)%nat with (c + S m)%nat by lia. reflexivity.
    + unfold pauses. cbn [seq flat_map].
      destruct (0 <? Z.of_nat c); simpl; rewrite <- ?app_assoc; reflexivity.
Qed.

Lemma pauses_positive n :
  forall c, (1 <= c)%nat -> pauses c n = map (fun k => Z.of_nat k * 1000) (seq c n).
Proof.
  unfold pauses. induction n as [|n IH]; intros c Hc; [reflexivity|].
  cbn [seq flat_map map]. destruct (Z.ltb_spec 0 (Z.of_nat c)); [|lia].
  rewrite IH by lia. reflexivity.
Qed.

Lemma pauses_from_zero n :
  pauses 0 (S n) = map (fun k => Z.of_nat k * 1000) (seq 1 n).
Proof. unfold pauses. cbn [seq flat_map]. apply (pauses_positive n 1). lia. Qed.

(** X17. A member of a batch whose POSTs all fail gives up after
    [maxRetries + 1] of them, having paused [1000 * k] ms before the retry
    number [k]; its result is the failure whose error is the fixed prefix
    followed by the error of the last POST. *)
Theorem retrying_exhausted :
  forall reply request maxRetries,
    0 <= maxRetries ->
    (forall k, (k <= Z.to_nat maxRetries)%nat ->
       IndexResponse.success (settle (reply k) request) = false) ->
    Retrying.member reply request maxRetries
    = {| Retrying.result :=
           Returned
             {| IndexResponse.success := false;
                IndexResponse.id := IndexRequest.id request;
                IndexResponse.message := None;
                IndexResponse.error :=
                  Some ("リトライ上限到達: "
                        +:+ orElse (IndexResponse.error
                                      (settle (reply (Z.to_nat maxRetries)) request))
                              "Unknown error") |};
         Retrying.posts := S (Z.to_nat maxRetries);
         Retrying.waits := map (fun k => Z.of_nat k * 1000) (seq 1 (Z.to_nat maxRetries)) |}.
Proof.
  intros reply request maxRetries Hm Hfail. unfold Retrying.member.
  replace (Z.to_nat (maxRetries + 1)) with (S (Z.to_nat maxRetries)) by lia.
  change 0 with (Z.of_nat 0) at 1.
  rewrite (retry_failures reply request maxRetries (S (Z.to_nat maxRetries)));
    [| lia | lia | intros j Hj; apply Hfail; simpl; lia].
  rewrite Nat.sub_diag. cbn [Retrying.retry].
  destruct (Z.leb_spec (Z.of_nat (0 + S (Z.to_nat maxRetries))) maxRetries); [lia|].
  rewrite pauses_from_zero. reflexivity.
Qed.

Lemma retrying_exhausted_witness :
  Retrying.member failing (document "a") 2
  = {| Retrying.result :=
         Returned
           {| IndexResponse.success := false;
              IndexResponse.id := "a";
              IndexResponse.message := None;
              IndexResponse.error :=
                Some "リトライ上限到達: Request failed with status code 503" |};
       Retrying.posts := 3;
       Retrying.waits := [1000; 2000] |}.
Proof.
  apply (retrying_exhausted failing (document "a") 2).
  - lia.
  - intros k Hk. do 3 (destruct k as [|k]; [reflexivity|]). simpl in Hk. lia.
Defined.

(** X18. A member of a batch returns the result of its first POST that
    succeeds, provided one of the first [maxRetries + 1] does: after [k]
    failures it has posted [k + 1] times and paused 1000, 2000, ...,
    [1000 * k] ms. *)
Theorem retrying_first_success :
  forall reply request maxRetries k,
    0 <= maxRetries ->
    (k <= Z.to_nat maxRetries)%nat ->
    (forall j, (j < k)%nat -> IndexResponse.success (settle (reply j) request) = false) ->
    IndexResponse.success (settle (reply k) request) = true ->
    Retrying.member reply request maxRetries
    = {| Retrying.result := Returned (settle (reply k) request);
         Retrying.posts := S k;
         Retrying.waits := map (fun j => Z.of_nat j * 1000) (seq 1 k) |}.
Proof.
  intros reply request maxRetries k Hm Hk Hfail Hok. unfold Retrying.member.
  change 0 with (Z.of_nat 0) at 1.
  rewrite (retry_failures reply request maxRetries k);
    [| lia | lia | intros j Hj; apply Hfail; exact Hj].
  replace (Z.to_nat (maxRetries + 1) - k)%nat with (S (Z.to_nat maxRetries - k)) by lia.
  cbn [Retrying.retry Nat.add].
  destruct (Z.leb_spec (Z.of_nat k) maxRetries); [|lia].
  rewrite Nat2Z.id, Hok. f_equal.
  rewrite <- pauses_from_zero. unfold pauses.
  rewrite seq_S, flat_map_app. cbn [flat_map Nat.add app]. rewrite app_nil_r.
  destruct (0 <? Z.of_nat k); [reflexivity | rewrite app_nil_r; reflexivity].
Qed.

Lemma retrying_first_success_witness :
  Retrying.member thirdTime (document "a") 2
  = {| Retrying.result :=
         Returned
           {| IndexResponse.success := true;
              IndexResponse.id := "a";
              IndexResponse.message := Some "indexed";
              IndexResponse.error := None |};
       Retrying.posts := 3;
       Retrying.waits := [1000; 2000] |}.
Proof.
  apply (retrying_first_success thirdTime (document "a") 2 2).
  - lia.
  - simpl. lia.
  - intros j Hj. do 2 (destruct j as [|j]; [reflexivity|]). lia.
  - reflexivity.
Defined.

Lemma retry_returns reply request maxRetries :
  forall fuel c lastError posts waits,
    0 <= c ->
    (Z.to_nat (maxRetries + 1 - c) <= fuel)%nat ->
    exists r,
      Retrying.result (Retrying.retry reply request maxRetries fuel c lastError posts waits)
      = Returned r
      /\ IndexResponse.id r = IndexRequest.id request
      /\ (Retrying.posts
            (Retrying.retry reply request maxRetries fuel c lastError posts waits)
          <= posts + Z.to_nat (maxRetries + 1 - c))%nat.
Proof.
  induction fuel as [|fuel IH]; intros c lastError posts waits Hc Hfuel;
    cbn [Retrying.retry]; destruct (Z.leb_spec c maxRetries) as [Hle|Hgt];
    try lia.
  - eexists. simpl. split; [reflexivity|]. split; [reflexivity | lia].
  - destruct (IndexResponse.success (settle (reply (Z.to_nat c)) request)) eqn:E.
    + eexists. simpl. split; [reflexivity|]. split; [|lia].
      destruct (reply (Z.to_nat c)); reflexivity.
    + destruct (IH (c + 1)
                  (orElse (IndexResponse.error (settle (reply (Z.to_nat c)) request))
                     "Unknown error")
                  (S posts)
                  (if 0 <? c then waits ++ [c * 1000] else waits))
        as (r & Hr & Hid & Hposts); [lia | lia |].
      exists r. split; [exact Hr|]. split; [exact Hid | lia].
  - eexists. simpl. split; [reflexivity|]. split; [reflexivity | lia].
Qed.

Lemma all_returned members :
  Forall (fun m => exists r, Retrying.result m = Returned r) members ->
  exists rs,
    Retrying.all members = Returned rs
    /\ Forall2 (fun m r => Retrying.result m = Returned r) members rs.
Proof.
  induction 1 as [|m members [r Hr] _ (rs & Hall & Hrs)].
  - exists []. split; [reflexivity | constructor].
  - exists (r :: rs). simpl. rewrite Hr, Hall. split; [reflexivity|]. constructor; auto.
Qed.

Lemma membersOf_returned replies maxRetries i batch :
  Forall (fun m => exists r, Retrying.result m = Returned r)
    (Retrying.membersOf replies maxRetries i batch).
Proof.
  apply Forall_forall. intros m Hin. apply list_elem_of_In in Hin.
  unfold Retrying.membersOf in Hin. apply elem_of_lookup_imap in Hin as (j & request & -> & _).
  destruct (retry_returns (replies (i + j)%nat) request maxRetries
              (Z.to_nat (maxRetries + 1)) 0 EmptyString 0%nat [])
    as (r & Hr & _); [lia | lia |].
  exists r. exact Hr.
Qed.

Lemma retrying_loop replies requests batchSize maxRetries :
  (1 <= batchSize)%nat ->
  forall fuel i acc,
    (length requests - i <= fuel)%nat ->
    exists rs,
      Forall2 (fun m r => Retrying.result m = Returned r)
        (Retrying.membersOf replies maxRetries i (drop i requests)) rs
      /\ Retrying.loop replies requests batchSize maxRetries fuel i acc
         = Returned (forEach rs acc).
Proof.
  intros Hb. induction fuel as [|fuel IH]; intros i acc Hfuel; simpl.
  - destruct (Nat.ltb_spec i (length requests)); [lia|].
    rewrite drop_ge by lia. exists []. split; [constructor | reflexivity].
  - destruct (Nat.ltb_spec i (length requests)) as [Hi|Hi];
      [|rewrite drop_ge by lia; exists []; split; [constructor | reflexivity]].
    set (batch := slice i (i + batchSize) requests).
    assert (Hdrop : drop i requests = batch ++ drop (i + batchSize) requests).
    { unfold batch, slice. replace (i + batchSize - i)%nat with batchSize by lia.
      rewrite <- drop_drop. symmetry. apply take_drop. }
    assert (Hlen : length batch = Nat.min batchSize (length requests - i))
      by apply slice_length.
    destruct (all_returned _ (membersOf_returned replies maxRetries i batch))
      as (rs1 & Hall & Hrs1).
    rewrite Hall.
    destruct (IH (i + batchSize)%nat (forEach rs1 acc)) as (rs2 & Hrs2 & Hloop); [lia|].
    exists (rs1 ++ rs2). split.
    + rewrite Hdrop. unfold Retrying.membersOf. rewrite imap_app.
      apply Forall2_app; [exact Hrs1|].
      destruct (Nat.le_gt_cases (length requests) (i + batchSize)) as [Hlast|Hmore].
      * rewrite drop_ge in * by lia. exact Hrs2.
      * unfold Retrying.membersOf in Hrs2.
        erewrite imap_ext; [exact Hrs2|]. intros j r _. simpl.
        replace (i + (length batch + j))%nat with (i + batchSize + j)%nat by lia.
        reflexivity.
    + rewrite Hloop. f_equal. rewrite !forEach_spec. simpl.
      rewrite !List.filter_app, !length_app, <- app_assoc. f_equal; lia.
Qed.

(** X19. The retrying client answers every request too.  With a batch size
    of at least 1, [batchIndexDocuments] returns; the results are what the
    members returned, in the order of the requests and with their ids; the
    two counters add up to the number of requests; and no request is posted
    more than [maxRetries + 1] times. *)
Theorem retrying_one_response_per_request :
  forall BATCH_SIZE MAX_RETRIES replies requests options,
    let batchSize := default BATCH_SIZE (BatchOptions.batchSize options) in
    let maxRetries := default MAX_RETRIES (BatchOptions.maxRetries options) in
    (1 <= batchSize)%nat ->
    exists rep,
      Retrying.batchIndexDocuments BATCH_SIZE MAX_RETRIES replies requests options
      = Returned rep
      /\ Forall2 (fun m r => Retrying.result m = Returned r)
           (Retrying.membersOf replies maxRetries 0 requests) (BatchReport.results rep)
      /\ map IndexResponse.id (BatchReport.results rep) = map IndexRequest.id requests
      /\ (BatchReport.success rep + BatchReport.failed rep)%nat = length requests
      /\ Forall (fun m => (Retrying.posts m <= Z.to_nat (maxRetries + 1))%nat)
           (Retrying.membersOf replies maxRetries 0 requests).
Proof.
  intros BATCH_SIZE MAX_RETRIES replies requests options batchSize maxRetries Hb.
  unfold Retrying.batchIndexDocuments. fold batchSize maxRetries.
  destruct (retrying_loop replies requests batchSize maxRetries Hb
              (length requests) 0%nat empty) as (rs & Hrs & Hloop); [lia|].
  rewrite drop_0 in Hrs. rewrite Hloop, forEach_spec. simpl.
  eexists. split; [reflexivity|]. simpl.
  assert (Hlen : length rs = length requests).
  { apply Forall2_length in Hrs. unfold Retrying.membersOf in Hrs.
    rewrite length_imap in Hrs. congruence. }
  split; [exact Hrs|]. split; [|split].
  - apply list_eq_same_length with (length requests);
      [rewrite length_map; reflexivity | rewrite length_map; exact Hlen |].
    intros j x y _ Hx Hy. rewrite list_lookup_fmap in Hx. rewrite list_lookup_fmap in Hy.
    destruct (rs !! j) as [r|] eqn:Er; [|discriminate].
    destruct (requests !! j) as [request|] eqn:Eq; [|discriminate].
    injection Hx as <-. injection Hy as <-.
    assert (Hm : Retrying.membersOf replies maxRetries 0 requests !! j
                 = Some (Retrying.member (replies j) request maxRetries)).
    { unfold Retrying.membersOf. rewrite list_lookup_imap, Eq. reflexivity. }
    pose proof (Forall2_lookup_lr _ _ _ _ _ _ Hrs Hm Er) as Hres.
    destruct (retry_returns (replies j) request maxRetries
                (Z.to_nat (maxRetries + 1)) 0 EmptyString 0%nat [])
      as (r' & Hr' & Hid & _); [lia | lia |].
    unfold Retrying.member in Hres. rewrite Hres in Hr'. injection Hr' as ->. exact Hid.
  - rewrite filter_split. exact Hlen.
  - apply Forall_forall. intros m Hin. apply list_elem_of_In in Hin.
    unfold Retrying.membersOf in Hin.
    apply elem_of_lookup_imap in Hin as (j & request & -> & _).
    destruct (retry_returns (replies (0 + j)%nat) request maxRetries
                (Z.to_nat (maxRetries + 1)) 0 EmptyString 0%nat [])
      as (r & _ & _ & Hposts); [lia | lia |].
    unfold Retrying.member. rewrite Z.sub_0_r in Hposts. exact Hposts.
Qed.

Lemma retrying_one_response_per_request_witness :
  exists rep,
    Retrying.batchIndexDocuments 10 3 (fun _ => thirdTime) threeDocuments byTwo
    = Returned rep
    /\ Forall2 (fun m r => Retrying.result m = Returned r)
         (Retrying.membersOf (fun _ => thirdTime) 2 0 threeDocuments)
         (BatchReport.results rep)
    /\ map IndexResponse.id (BatchReport.results rep)
       = map IndexRequest.id threeDocuments
    /\ (BatchReport.success rep + BatchReport.failed rep)%nat = length threeDocuments
    /\ Forall (fun m => (Retrying.posts m <= Z.to_nat (2 + 1))%nat)
         (Retrying.membersOf (fun _ => thirdTime) 2 0 threeDocuments).
Proof.
  apply (retrying_one_response_per_request 10 3 (fun _ => thirdTime) threeDocuments byTwo).
  simpl. lia.
Defined.

End RagIndexerFacts.

(** ** Each document on its own *)

Lemma actionsOf_app g tr1 tr2 : actionsOf g (tr1 ++ tr2) = actionsOf g tr1 ++ actionsOf g tr2.
Proof. unfold actionsOf. apply flat_map_app. Qed.

Lemma actionsOf_own g acts : actionsOf g (map (pair (Doc g)) acts) = acts.
Proof.
  unfold actionsOf. induction acts as [|a acts IH]; simpl; [reflexivity|].
  rewrite Nat.eqb_refl, IH. reflexivity.
Qed.

Lemma actionsOf_other g g' acts : g' <> g -> actionsOf g (map (pair (Doc g')) acts) = [].
Proof.
  intros Hne. unfold actionsOf. induction acts as [|a acts IH]; simpl; [reflexivity|].
  destruct (Nat.eqb_spec g' g); [contradiction | exact IH].
Qed.

Lemma firstOfBatch_spec c J k :
  (k < c)%nat -> firstOfBatch c (J * c + k) = (k =? 0)%nat.
Proof.
  intros Hk. unfold firstOfBatch.
  rewrite Nat.add_comm, Nat.Div0.mod_add, Nat.mod_small by exact Hk. reflexivity.
Qed.

(** A property of what a document's member has done so far and of the
    await it is suspended at, kept by every resumption of that member, holds
    for every document when the run returns: the members of a batch do not
    interfere in it, whatever the order of completion. *)
Section DocumentHistory.
Variable w : World.
Variable cfg : Config.
Variable extractContentLocationUrl : string -> option string.
Variable extractSourceUrl : Source -> string -> option string.
Variable src : Source.
Variable options : Options.
Variable allBlobs : list string.
Variable Inv : nat -> list Action -> Task -> Prop.
(** [leads g]: document [g] is the first of its batch. *)
Variable leads : nat -> bool.

Hypothesis leads_spec :
  forall J k, (k < theConcurrency cfg options)%nat ->
    leads (J * theConcurrency cfg options + k) = (k =? 0)%nat.
Hypothesis step_keeps :
  forall g blobName acts t c t' acts' c',
    allBlobs !! g = Some blobName ->
    Inv g acts t ->
    Resumes cfg src blobName (downloadBlob w (containerOf src) blobName)
      t c (Suspended t') acts' c' ->
    Inv g (acts ++ acts') t'.
Hypothesis first_member :
  forall g blobName,
    allBlobs !! g = Some blobName -> leads g = true ->
    Inv g [Download blobName] AwaitDownload.
Hypothesis later_member :
  forall g blobName,
    allBlobs !! g = Some blobName -> leads g = false ->
    Inv g [Sleep (theDelayMs cfg options)] AwaitDelay.

Lemma startBatch_history i batch :
  forall index st,
    (forall k blobName, batch !! k = Some blobName ->
       allBlobs !! (i + (index + k))%nat = Some blobName) ->
    (forall k, (k < length batch)%nat ->
       leads (i + (index + k)) = negb (0 <? index + k)%nat) ->
    exists new,
      trace (snd (startBatch cfg options i index batch st)) = trace st ++ new
      /\ (forall g, (g < i + index \/ i + index + length batch <= g)%nat ->
            actionsOf g new = [])
      /\ forall k t,
           fst (startBatch cfg options i index batch st) !! k = Some t ->
           Inv (i + (index + k)) (actionsOf (i + (index + k)) new) t.
Proof.
  induction batch as [|blobName batch IH]; intros index st Hnames Hleads; simpl.
  - exists []. rewrite app_nil_r. repeat split.
    intros k t. rewrite lookup_nil. discriminate.
  - assert (Hme : allBlobs !! (i + index)%nat = Some blobName).
    { specialize (Hnames 0%nat blobName eq_refl).
      rewrite Nat.add_0_r in Hnames. exact Hnames. }
    assert (Hlead : leads (i + index) = negb (0 <? index)%nat).
    { specialize (Hleads 0%nat ltac:(simpl; lia)).
      rewrite Nat.add_0_r in Hleads. exact Hleads. }
    set (first := if (0 <? index)%nat
                  then (AwaitDelay, log (Doc (i + index)) (Sleep (theDelayMs cfg options)) st)
                  else (AwaitDownload, log (Doc (i + index)) (Download blobName) st)).
    assert (Hfirst : exists t a,
               first = (t, log (Doc (i + index)) a st) /\ Inv (i + index) [a] t).
    { unfold first. destruct (0 <? index)%nat; simpl in Hlead; eauto. }
    destruct Hfirst as (t & a & -> & It).
    destruct (IH (S index) (log (Doc (i + index)) a st)) as (new & T & Hout & HI).
    { intros k name Hk. replace (i + (S index + k))%nat with (i + (index + S k))%nat by lia.
      apply Hnames. exact Hk. }
    { intros k Hk. replace (i + (S index + k))%nat with (i + (index + S k))%nat by lia.
      replace (S index + k)%nat with (index + S k)%nat by lia.
      apply Hleads. simpl. lia. }
    destruct (startBatch cfg options i (S index) batch (log (Doc (i + index)) a st))
      as [ts st'].
    simpl in *. exists (map (pair (Doc (i + index))) [a] ++ new).
    rewrite T, <- app_assoc. split; [reflexivity|]. split.
    + intros g Hg. rewrite actionsOf_app, Hout by lia.
      rewrite actionsOf_other by lia. reflexivity.
    + intros [|k] t0.
      * intros [= <-]. rewrite Nat.add_0_r, actionsOf_app, Hout by lia.
        rewrite actionsOf_own. exact It.
      * intros Hk. rewrite actionsOf_app.
        rewrite actionsOf_other by lia.
        replace (i + (index + S k))%nat with (i + (S index + k))%nat by lia.
        apply HI. exact Hk.
Qed.

Lemma resumeBatch_history i batch schedule :
  (forall k blobName, batch !! k = Some blobName ->
     allBlobs !! (i + k)%nat = Some blobName) ->
  forall tasks st (done : nat -> list Action),
    (forall k t, tasks !! k = Some t -> Inv (i + k) (done k) t) ->
    exists new,
      trace (snd (resumeBatch w cfg extractContentLocationUrl extractSourceUrl src
                    i batch schedule tasks st)) = trace st ++ new
      /\ (forall g, (g < i \/ i + length tasks <= g)%nat -> actionsOf g new = [])
      /\ forall tasks',
           fst (resumeBatch w cfg extractContentLocationUrl extractSourceUrl src
                  i batch schedule tasks st) = Running tasks' ->
           forall k t, tasks' !! k = Some t ->
                       Inv (i + k) (done k ++ actionsOf (i + k) new) t.
Proof.
  intros Hnames.
  induction schedule as [|index schedule IH]; intros tasks st done HI; simpl.
  - exists []. rewrite app_nil_r. repeat split.
    intros tasks' [= <-] k t Hk. simpl. rewrite app_nil_r. apply HI, Hk.
  - destruct (batch !! index) as [blobName|] eqn:Eb; [|apply IH; exact HI].
    destruct (tasks !! index) as [t|] eqn:Et; [|apply IH; exact HI].
    destruct (resume_graph w cfg extractContentLocationUrl extractSourceUrl src
                (Doc (i + index)) blobName t st) as (acts & G & T1).
    pose proof (lookup_lt_Some _ _ _ Et) as Hindex.
    destruct (resume w cfg extractContentLocationUrl extractSourceUrl src
                (Doc (i + index)) blobName t st) as [[t'|code] st1]; simpl in *.
    + destruct (IH (<[index:=t']> tasks) st1
                  (fun k => done k ++ actionsOf (i + k) (map (pair (Doc (i + index))) acts)))
        as (new2 & T2 & Hout & I2).
      { intros k t0 Hk. destruct (Nat.eq_dec index k) as [<-|Hne].
        - rewrite list_lookup_insert_eq in Hk by exact Hindex.
          injection Hk as <-. rewrite actionsOf_own.
          apply (step_keeps _ _ _ _ _ _ _ _ (Hnames _ _ Eb) (HI _ _ Et) G).
        - rewrite list_lookup_insert_ne in Hk by exact Hne.
          rewrite actionsOf_other by lia. rewrite app_nil_r. apply HI. exact Hk. }
      rewrite length_insert in Hout.
      exists (map (pair (Doc (i + index))) acts ++ new2).
      rewrite T2, T1, app_assoc. split; [reflexivity|]. split.
      * intros g Hg. rewrite actionsOf_app, Hout by exact Hg.
        rewrite actionsOf_other by lia. reflexivity.
      * intros tasks' E k t0 Hk. rewrite actionsOf_app, app_assoc.
        apply (I2 tasks' E k t0 Hk).
    + exists (map (pair (Doc (i + index))) acts). split; [exact T1|]. split.
      * intros g Hg. apply actionsOf_other. lia.
      * intros tasks' [=].
Qed.

Lemma batches_history schedule fuel :
  forall i results st,
    length results = Nat.min i (length allBlobs) ->
    (exists J, i = J * theConcurrency cfg options)%nat ->
    exists new,
      trace (snd (batches w cfg extractContentLocationUrl extractSourceUrl src options
                    schedule allBlobs fuel i results st)) = trace st ++ new
      /\ (forall g, (g < i)%nat -> actionsOf g new = [])
      /\ forall rep,
           fst (batches w cfg extractContentLocationUrl extractSourceUrl src options
                  schedule allBlobs fuel i results st) = Returned rep ->
           exists rs,
             rep = report (results ++ rs)
             /\ length (results ++ rs) = length allBlobs
             /\ forall k r, rs !! k = Some r ->
                  Inv (length results + k) (actionsOf (length results + k) new) (Settled r).
Proof.
  assert (Hstop : forall (i : nat) results (st : State),
             (length allBlobs <= i)%nat ->
             length results = Nat.min i (length allBlobs) ->
             exists new,
               trace st = trace st ++ new
               /\ (forall g, (g < i)%nat -> actionsOf g new = [])
               /\ forall rep,
                    Returned (report results) = Returned rep ->
                    exists rs,
                      rep = report (results ++ rs)
                      /\ length (results ++ rs) = length allBlobs
                      /\ forall k r, rs !! k = Some r ->
                           Inv (length results + k)
                             (actionsOf (length results + k) new) (Settled r)).
  { intros i results st Hi Hlen. exists []. rewrite app_nil_r.
    repeat split. intros rep [= <-]. exists []. rewrite app_nil_r.
    repeat split; [lia|]. intros k r. rewrite lookup_nil. discriminate. }
  induction fuel as [|fuel IH]; intros i results st Hlen [J HJ]; simpl.
  - destruct (Nat.ltb_spec i (length allBlobs)); simpl; [|eapply Hstop; eauto].
    exists []. rewrite app_nil_r. repeat split. intros rep [=].
  - destruct (Nat.ltb_spec i (length allBlobs)) as [Hi|Hi]; [|eapply Hstop; eauto].
    set (c := theConcurrency cfg options) in *.
    set (batch := slice i (i + c) allBlobs) in *.
    assert (Hnames : forall k blobName, batch !! k = Some blobName ->
              allBlobs !! (i + k)%nat = Some blobName)
      by (intros k name Hk; apply (slice_lookup allBlobs i c k name Hk)).
    assert (Hbatch : length batch = Nat.min c (length allBlobs - i))
      by apply slice_length.
    destruct (startBatch_history i batch 0%nat st) as (new1 & T1 & O1 & I1);
      [exact Hnames | |].
    { intros k Hk. cbn [Nat.add]. rewrite HJ, leads_spec by lia.
      destruct k; reflexivity. }
    pose proof (startBatch_length cfg options i batch 0%nat st) as Hl1.
    destruct (startBatch cfg options i 0 batch st) as [tasks st1]. simpl in *.
    destruct (resumeBatch_history i batch (schedule i) Hnames tasks st1
                (fun k => actionsOf (i + k) new1))
      as (new2 & T2 & O2 & I2); [exact I1|].
    pose proof (resumeBatch_length w cfg extractContentLocationUrl extractSourceUrl src
                  i batch (schedule i) tasks st1) as Hl2.
    assert (Hbefore : forall g, (g < i)%nat -> actionsOf g (new1 ++ new2) = []).
    { intros g Hg. rewrite actionsOf_app, O1, O2 by lia. reflexivity. }
    destruct (resumeBatch w cfg extractContentLocationUrl extractSourceUrl src
                i batch (schedule i) tasks st1) as [[tasks'|code] st2]; simpl in *.
    + specialize (Hl2 tasks' st2 eq_refl). specialize (I2 tasks' eq_refl).
      destruct (allSettled tasks') as [batchResults|] eqn:Eall.
      * pose proof (allSettled_length _ _ Eall) as Hl3.
        apply allSettled_tasks in Eall.
        set (pause := if (i + c <? length allBlobs)%nat then [(Main, Sleep 500)] else []).
        assert (Hpause : forall g, actionsOf g pause = [])
          by (intros g; unfold pause; destruct (i + c <? length allBlobs)%nat; reflexivity).
        match goal with
        | |- context [batches _ _ _ _ _ _ _ _ fuel _ ?rs ?s] =>
            assert (T3 : trace s = trace st2 ++ pause)
              by (unfold pause; destruct (i + c <? length allBlobs)%nat; simpl;
                  [reflexivity | rewrite app_nil_r; reflexivity]);
            destruct (IH (i + c)%nat rs s) as (new3 & T4 & O4 & I4)
        end.
        { rewrite length_app, Hl3, Hl2, Hl1, Hlen. lia. }
        { exists (S J). rewrite HJ. simpl. lia. }
        exists (new1 ++ new2 ++ pause ++ new3).
        rewrite T4, T3, T2, T1, <- !app_assoc. split; [reflexivity|]. split.
        { intros g Hg. rewrite !actionsOf_app, O1, O2, Hpause, O4 by lia. reflexivity. }
        intros rep Hrep. destruct (I4 rep Hrep) as (rs & -> & Hlen' & Hrs).
        exists (batchResults ++ rs). rewrite app_assoc. split; [reflexivity|].
        split; [exact Hlen'|].
        rewrite !length_app in Hlen'.
        assert (Hres : length results = i) by lia.
        intros k r Hk. rewrite Hres.
        rewrite !actionsOf_app, Hpause. cbn [app].
        apply lookup_app_Some in Hk as [Hk|[Hge Hk]].
        -- pose proof (lookup_lt_Some _ _ _ Hk) as Hlt.
           rewrite O4 by lia. rewrite app_nil_r.
           apply I2. rewrite Eall, list_lookup_fmap, Hk. reflexivity.
        -- pose proof (lookup_lt_Some _ _ _ Hk) as Hlt.
           assert (Hfull : length batchResults = c) by lia.
           rewrite O1, O2 by lia. cbn [app].
           specialize (Hrs _ _ Hk). rewrite length_app, Hres in Hrs.
           replace (i + k)%nat with (i + length batchResults + (k - length batchResults))%nat
             by lia.
           exact Hrs.
      * exists (new1 ++ new2). simpl. rewrite T2, T1, <- app_assoc.
        split; [reflexivity|]. split; [exact Hbefore|]. intros rep [=].
    + exists (new1 ++ new2). simpl. rewrite T2, T1, <- app_assoc.
      split; [reflexivity|]. split; [exact Hbefore|]. intros rep [=].
Qed.

End DocumentHistory.

Lemma attemptsUpTo_next blobName attempt :
  1 <= attempt ->
  attemptsUpTo blobName (Z.to_nat (attempt + 1))
  = attemptsUpTo blobName (Z.to_nat attempt) ++ [Post blobName (attempt + 1)].
Proof.
  intros Ha. unfold attemptsUpTo.
  replace (Z.to_nat (attempt + 1)) with (S (Z.to_nat attempt)) by lia.
  rewrite seq_S, map_app. simpl. do 3 f_equal. lia.
Qed.

Lemma Resumes_inOrder cfg src blobName downloaded acts t c t' acts' c' :
  inOrder cfg blobName acts t ->
  Resumes cfg src blobName downloaded t c (Suspended t') acts' c' ->
  inOrder cfg blobName (acts ++ acts') t'.
Proof.
  intros Hin G.
  inversion G; subst; cbn [inOrder] in *; rewrite List.filter_app;
    cbn [List.filter isRequest].
  - rewrite Hin. reflexivity.
  - exists 0%nat. rewrite Hin. split; [lia | reflexivity].
  - rewrite Hin. split; [lia | reflexivity].
  - exists 0%nat. rewrite Hin. split; [lia | reflexivity].
  - destruct Hin as [Ha ->]. exists (Z.to_nat attempt). rewrite app_nil_r.
    split; [lia | reflexivity].
  - destruct Hin as [Ha ->]. exists (Z.to_nat attempt). rewrite app_nil_r.
    split; [lia | reflexivity].
  - destruct Hin as [Ha ->]. rewrite app_nil_r. split; [lia | reflexivity].
  - destruct Hin as [Ha ->]. exists (Z.to_nat attempt). rewrite app_nil_r.
    split; [lia | reflexivity].
  - destruct Hin as [Ha ->]. rewrite app_nil_r. split; [lia | reflexivity].
  - destruct Hin as [Ha ->]. exists (Z.to_nat attempt). rewrite app_nil_r.
    split; [lia | reflexivity].
  - destruct Hin as [Ha ->]. split; [lia|]. rewrite attemptsUpTo_next by lia. reflexivity.
  - destruct Hin as [Ha ->]. exists (Z.to_nat attempt). rewrite app_nil_r.
    split; [lia | reflexivity].
  - rewrite app_nil_r. exact Hin.
Qed.

(** X20. Every document is downloaded once and then posted attempt after
    attempt.  In the run of a partition that returns a report (dry run
    off), whatever the order of completion inside the batches, the calls
    made for each listed document are, in this order: one download of the
    document, then the POSTs of attempts 1, 2, ..., k, for some k that is
    at most [MAX_RETRIES] (none when the download failed).  A retry never
    downloads again, and no attempt number is skipped or repeated. *)
Theorem document_requests_in_order :
  forall w cfg extractContentLocationUrl extractSourceUrl src options schedule st rep st'
         names,
    theDryRun options = false ->
    indexSourceMhtmlFiles w cfg extractContentLocationUrl extractSourceUrl src options
      schedule st = (Returned rep, st') ->
    listBlobsFlat w (containerOf src) (prefixOf src) = inr names ->
    exists new,
      trace st' = trace st ++ new
      /\ forall g blobName,
           List.filter (fun name => endsWith name ".mhtml") names !! g = Some blobName ->
           exists k,
             (k <= Z.to_nat (MAX_RETRIES cfg))%nat
             /\ requestsOf g new = Download blobName :: attemptsUpTo blobName k.
Proof.
  intros w cfg eCLU eSU src options schedule st rep st' names Hdry.
  unfold indexSourceMhtmlFiles. rewrite Hdry.
  destruct (getProperties w) as [shown|]; [discriminate|].
  intros E Hlist. rewrite Hlist in E.
  set (allBlobs := List.filter (fun name => endsWith name ".mhtml") names) in *.
  revert E. destruct (Nat.eqb_spec (length allBlobs) 0) as [Hzero|Hsome].
  { intros [= <- <-].
    exists [(Main, GetProperties); (Main, ListBlobs (containerOf src) (prefixOf src))].
    split; [simpl; rewrite <- app_assoc; reflexivity|].
    intros g name Hg. apply lookup_lt_Some in Hg. lia. }
  intros E.
  destruct (batches_history w cfg eCLU eSU src options allBlobs
              (fun g acts t => match allBlobs !! g with
                               | Some blobName => inOrder cfg blobName acts t
                               | None => True
                               end)
              (firstOfBatch (theConcurrency cfg options)))
    with (schedule := schedule) (fuel := length allBlobs)
         (i := 0%nat) (results := @nil IndexingResult)
         (st := log Main (ListBlobs (containerOf src) (prefixOf src))
                  (log Main GetProperties st))
    as (new & T & _ & Hrep).
  - apply firstOfBatch_spec.
  - intros g name acts t c t' acts' c' Hg. rewrite Hg. apply Resumes_inOrder.
  - intros g name Hg _. rewrite Hg. reflexivity.
  - intros g name Hg _. rewrite Hg. reflexivity.
  - simpl. lia.
  - exists 0%nat. reflexivity.
  - rewrite E in Hrep, T. simpl in T.
    destruct (Hrep rep eq_refl) as (rs & _ & Hlen & Hrs). simpl in Hlen, Hrs.
    exists ([(Main, GetProperties); (Main, ListBlobs (containerOf src) (prefixOf src))]
            ++ new).
    split; [rewrite T, <- !app_assoc; reflexivity|].
    intros g name Hg.
    destruct (rs !! g) as [r|] eqn:Er;
      [|apply lookup_ge_None in Er; apply lookup_lt_Some in Hg; lia].
    specialize (Hrs g r Er). rewrite Hg in Hrs.
    unfold requestsOf. rewrite actionsOf_app. exact Hrs.
Qed.

Lemma document_requests_in_order_witness :
  exists rep st',
    indexSourceMhtmlFiles (slowStart 2) defaults noUrl noGuess qast twoByTwo roundRobin
      initial = (Returned rep, st')
    /\ exists new,
         trace st' = trace initial ++ new
         /\ forall g blobName,
              List.filter (fun name => endsWith name ".mhtml") sixNames !! g = Some blobName ->
              exists k,
                (k <= Z.to_nat (MAX_RETRIES defaults))%nat
                /\ requestsOf g new = Download blobName :: attemptsUpTo blobName k.
Proof.
  eexists. eexists. split; [vm_compute; reflexivity|].
  eapply (document_requests_in_order (slowStart 2) defaults noUrl noGuess qast twoByTwo
            roundRobin initial).
  - reflexivity.
  - vm_compute. reflexivity.
  - reflexivity.
Defined.

(** ** The main flow *)

Lemma mainOf_app tr1 tr2 : mainOf (tr1 ++ tr2) = mainOf tr1 ++ mainOf tr2.
Proof. unfold mainOf. apply flat_map_app. Qed.

Lemma mainOf_members new :
  (forall e, In e new -> exists g, fst e = Doc g) -> mainOf new = [].
Proof.
  induction new as [|[who a] new IH]; intros H; [reflexivity|].
  destruct (H (who, a) (or_introl eq_refl)) as [g Hg]. simpl in Hg. subst who.
  simpl. apply IH. intros e He. apply H. right. exact He.
Qed.

Section MainFlow.
Variable w : World.
Variable cfg : Config.
Variable extractContentLocationUrl : string -> option string.
Variable extractSourceUrl : Source -> string -> option string.
Variable src : Source.
Variable options : Options.

Lemma batches_main schedule allBlobs fuel :
  forall i results st,
    exists new,
      trace (snd (batches w cfg extractContentLocationUrl extractSourceUrl src options
                    schedule allBlobs fuel i results st)) = trace st ++ new
      /\ forall rep,
           fst (batches w cfg extractContentLocationUrl extractSourceUrl src options
                  schedule allBlobs fuel i results st) = Returned rep ->
           mainOf new
           = repeat (Sleep 500)
               (length (groupsFrom fuel i (theConcurrency cfg options) allBlobs) - 1).
Proof.
  induction fuel as [|fuel IH]; intros i results st; simpl.
  - destruct (i <? length allBlobs)%nat; simpl; exists []; rewrite app_nil_r;
      (split; [reflexivity|]); [intros rep [=] | reflexivity].
  - destruct (Nat.ltb_spec i (length allBlobs)) as [Hi|Hi];
      [|exists []; simpl; rewrite app_nil_r; split; reflexivity].
    set (c := theConcurrency cfg options) in *.
    set (batch := slice i (i + c) allBlobs) in *.
    destruct (startBatch_Adds cfg options i batch 0%nat st) as (new1 & T1 & A1 & _).
    destruct (startBatch cfg options i 0 batch st) as [tasks st1]. simpl in *.
    destruct (resumeBatch_Adds w cfg extractContentLocationUrl extractSourceUrl src
                i batch (schedule i) tasks st1) as (new2 & T2 & [A2 _] & _).
    assert (M1 : mainOf new1 = []).
    { apply mainOf_members. intros e He. destruct (A1 e He) as (k & Hk & _). eauto. }
    assert (M2 : mainOf new2 = []).
    { apply mainOf_members. intros e He. destruct (A2 e He) as (k & Hk & _). eauto. }
    destruct (resumeBatch w cfg extractContentLocationUrl extractSourceUrl src
                i batch (schedule i) tasks st1) as [[tasks'|code] st2]; simpl in *.
    + destruct (allSettled tasks') as [batchResults|] eqn:Eall.
      * set (pause := if (i + c <? length allBlobs)%nat then [(Main, Sleep 500)] else []).
        match goal with
        | |- context [batches _ _ _ _ _ _ _ _ fuel _ ?rs ?s] =>
            assert (T3 : trace s = trace st2 ++ pause)
              by (unfold pause; destruct (i + c <? length allBlobs)%nat; simpl;
                  [reflexivity | rewrite app_nil_r; reflexivity]);
            destruct (IH (i + c)%nat rs s) as (new3 & T4 & M4)
        end.
        exists (new1 ++ new2 ++ pause ++ new3).
        rewrite T4, T3, T2, T1, <- !app_assoc. split; [reflexivity|].
        intros rep Hrep. specialize (M4 rep Hrep).
        rewrite !mainOf_app, M1, M2, M4. cbn [app]. rewrite Nat.sub_0_r.
        unfold pause. destruct (Nat.ltb_spec (i + c) (length allBlobs)) as [Hmore|Hlast].
        -- destruct fuel as [|fuel']; simpl in Hrep |- *;
             destruct (Nat.ltb_spec (i + c) (length allBlobs)); try lia;
             [discriminate Hrep|].
           simpl. rewrite Nat.sub_0_r. reflexivity.
        -- assert (Hnone : groupsFrom fuel (i + c) c allBlobs = []).
           { destruct fuel; simpl; destruct (Nat.ltb_spec (i + c) (length allBlobs));
               (lia || reflexivity). }
           rewrite Hnone. reflexivity.
      * exists (new1 ++ new2). simpl. rewrite T2, T1, <- app_assoc.
        split; [reflexivity|]. intros rep [=].
    + exists (new1 ++ new2). simpl. rewrite T2, T1, <- app_assoc.
      split; [reflexivity|]. intros rep [=].
Qed.

End MainFlow.

(** X21. The main flow of a partition pauses between batches only, and
    always 500 ms.  In a run that returns a report (dry run off) the main
    flow checks the connection, lists the partition, and then pauses 500 ms
    once between two consecutive batches, not after the last one; the
    [delayMs] option plays no part in these pauses. *)
Theorem pauses_between_batches :
  forall w cfg extractContentLocationUrl extractSourceUrl src options schedule st rep st'
         names,
    theDryRun options = false ->
    indexSourceMhtmlFiles w cfg extractContentLocationUrl extractSourceUrl src options
      schedule st = (Returned rep, st') ->
    listBlobsFlat w (containerOf src) (prefixOf src) = inr names ->
    exists new,
      trace st' = trace st ++ new
      /\ mainOf new
         = [GetProperties; ListBlobs (containerOf src) (prefixOf src)]
           ++ repeat (Sleep 500)
                (length (groups (theConcurrency cfg options)
                           (List.filter (fun name => endsWith name ".mhtml") names)) - 1).
Proof.
  intros w cfg eCLU eSU src options schedule st rep st' names Hdry.
  unfold indexSourceMhtmlFiles. rewrite Hdry.
  destruct (getProperties w) as [shown|]; [discriminate|].
  intros E Hlist. rewrite Hlist in E.
  set (allBlobs := List.filter (fun name => endsWith name ".mhtml") names) in *.
  revert E. destruct (Nat.eqb_spec (length allBlobs) 0) as [Hzero|Hsome].
  { intros [= <- <-].
    exists [(Main, GetProperties); (Main, ListBlobs (containerOf src) (prefixOf src))].
    split; [simpl; rewrite <- app_assoc; reflexivity|].
    destruct allBlobs; [reflexivity | discriminate]. }
  intros E.
  destruct (batches_main w cfg eCLU eSU src options schedule allBlobs (length allBlobs)
              0%nat [] (log Main (ListBlobs (containerOf src) (prefixOf src))
                          (log Main GetProperties st)))
    as (new & T & M).
  rewrite E in T, M. simpl in T.
  exists ([(Main, GetProperties); (Main, ListBlobs (containerOf src) (prefixOf src))]
          ++ new).
  split; [rewrite T, <- !app_assoc; reflexivity|].
  rewrite mainOf_app, (M rep eq_refl). reflexivity.
Qed.

Lemma pauses_between_batches_witness :
  exists rep st',
    indexSourceMhtmlFiles (slowStart 2) defaults noUrl noGuess qast twoByTwo roundRobin
      initial = (Returned rep, st')
    /\ exists new,
         trace st' = trace initial ++ new
         /\ mainOf new
            = [GetProperties; ListBlobs (containerOf qast) (prefixOf qast)]
              ++ repeat (Sleep 500)
                   (length (groups (theConcurrency defaults twoByTwo)
                              (List.filter (fun name => endsWith name ".mhtml") sixNames))
                    - 1).
Proof.
  eexists. eexists. split; [vm_compute; reflexivity|].
  eapply (pauses_between_batches (slowStart 2) defaults noUrl noGuess qast twoByTwo
            roundRobin initial).
  - reflexivity.
  - vm_compute. reflexivity.
  - reflexivity.
Defined.

Lemma Resumes_startsAs cfg src lead delayMs blobName downloaded acts t c t' acts' c' :
  startsAs lead delayMs blobName acts t ->
  Resumes cfg src blobName downloaded t c (Suspended t') acts' c' ->
  startsAs lead delayMs blobName (acts ++ acts') t'.
Proof.
  unfold startsAs. intros Hs G. destruct lead.
  - destruct Hs as [rest ->]. exists (rest ++ acts'). reflexivity.
  - inversion G; subst;
      first [ rewrite Hs; exists []; reflexivity
            | destruct Hs as [rest Hs]; rewrite Hs; eexists; simpl; reflexivity ].
Qed.

(** X22. Inside a batch the start is staggered once, not member by member.
    In a run that returns a report (dry run off), the first member of every
    batch starts with the download of its document; every other member
    starts with exactly one pause of [delayMs] followed by the download,
    whatever its position in the batch. *)
Theorem members_start_after_one_delay :
  forall w cfg extractContentLocationUrl extractSourceUrl src options schedule st rep st'
         names,
    theDryRun options = false ->
    indexSourceMhtmlFiles w cfg extractContentLocationUrl extractSourceUrl src options
      schedule st = (Returned rep, st') ->
    listBlobsFlat w (containerOf src) (prefixOf src) = inr names ->
    exists new,
      trace st' = trace st ++ new
      /\ forall g blobName,
           List.filter (fun name => endsWith name ".mhtml") names !! g = Some blobName ->
           exists rest,
             actionsOf g new
             = (if firstOfBatch (theConcurrency cfg options) g then []
                else [Sleep (theDelayMs cfg options)])
               ++ Download blobName :: rest.
Proof.
  intros w cfg eCLU eSU src options schedule st rep st' names Hdry.
  unfold indexSourceMhtmlFiles. rewrite Hdry.
  destruct (getProperties w) as [shown|]; [discriminate|].
  intros E Hlist. rewrite Hlist in E.
  set (allBlobs := List.filter (fun name => endsWith name ".mhtml") names) in *.
  revert E. destruct (Nat.eqb_spec (length allBlobs) 0) as [Hzero|Hsome].
  { intros [= <- <-].
    exists [(Main, GetProperties); (Main, ListBlobs (containerOf src) (prefixOf src))].
    split; [simpl; rewrite <- app_assoc; reflexivity|].
    intros g name Hg. apply lookup_lt_Some in Hg. lia. }
  intros E.
  destruct (batches_history w cfg eCLU eSU src options allBlobs
              (fun g acts t =>
                 match allBlobs !! g with
                 | Some blobName =>
                     startsAs (firstOfBatch (theConcurrency cfg options) g)
                       (theDelayMs cfg options) blobName acts t
                 | None => True
                 end)
              (firstOfBatch (theConcurrency cfg options)))
    with (schedule := schedule) (fuel := length allBlobs)
         (i := 0%nat) (results := @nil IndexingResult)
         (st := log Main (ListBlobs (containerOf src) (prefixOf src))
                  (log Main GetProperties st))
    as (new & T & _ & Hrep).
  - apply firstOfBatch_spec.
  - intros g name acts t c t' acts' c' Hg. rewrite Hg. apply Resumes_startsAs.
  - intros g name Hg Hlead. rewrite Hg, Hlead. exists []. reflexivity.
  - intros g name Hg Hlead. rewrite Hg, Hlead. reflexivity.
  - simpl. lia.
  - exists 0%nat. reflexivity.
  - rewrite E in Hrep, T. simpl in T.
    destruct (Hrep rep eq_refl) as (rs & _ & Hlen & Hrs). simpl in Hlen, Hrs.
    exists ([(Main, GetProperties); (Main, ListBlobs (containerOf src) (prefixOf src))]
            ++ new).
    split; [rewrite T, <- !app_assoc; reflexivity|].
    intros g name Hg.
    destruct (rs !! g) as [r|] eqn:Er;
      [|apply lookup_ge_None in Er; apply lookup_lt_Some in Hg; lia].
    specialize (Hrs g r Er). rewrite Hg in Hrs. unfold startsAs in Hrs.
    rewrite actionsOf_app. cbn [actionsOf flat_map app].
    destruct (firstOfBatch (theConcurrency cfg options) g); exact Hrs.
Qed.

Lemma members_start_after_one_delay_witness :
  exists rep st',
    indexSourceMhtmlFiles (slowStart 2) defaults noUrl noGuess qast twoByTwo roundRobin
      initial = (Returned rep, st')
    /\ exists new,
         trace st' = trace initial ++ new
         /\ forall g blobName,
              List.filter (fun name => endsWith name ".mhtml") sixNames !! g = Some blobName ->
              exists rest,
                actionsOf g new
                = (if firstOfBatch (theConcurrency defaults twoByTwo) g then []
                   else [Sleep (theDelayMs defaults twoByTwo)])
                  ++ Download blobName :: rest.
Proof.
  eexists. eexists. split; [vm_compute; reflexivity|].
  eapply (members_start_after_one_delay (slowStart 2) defaults noUrl noGuess qast twoByTwo
            roundRobin initial).
  - reflexivity.
  - vm_compute. reflexivity.
  - reflexivity.
Defined.

Lemma Resumes_consistent cfg src name downloaded t c r acts c' :
  Resumes cfg src name downloaded t c (Suspended (Settled r)) acts c' ->
  t = Settled r \/ consistent r.
Proof.
  unfold consistent.
  inversion 1; subst; auto; right; simpl;
    try (split; [eauto | intros status' [=]]; fail).
  - split; [reflexivity | eauto].
  - split; [eauto|]. intros status' [= <-]. assumption.
Qed.

(** X23. Every result of a returned report is consistent: a success carries
    a status code between 200 and 299 and no error; a failure carries an
    error message, and its status code, when it has one, is outside 200 to
    299. *)
Theorem results_are_consistent :
  forall w cfg extractContentLocationUrl extractSourceUrl src options schedule st rep st',
    indexSourceMhtmlFiles w cfg extractContentLocationUrl extractSourceUrl src options
      schedule st = (Returned rep, st') ->
    Forall consistent (Report.results rep).
Proof.
  intros w cfg eCLU eSU src options schedule st rep st'.
  unfold indexSourceMhtmlFiles.
  destruct (if theDryRun options then (None, st)
            else (getProperties w, log Main GetProperties st)) as [connected st0].
  destruct connected as [shown|]; [discriminate|].
  destruct (listBlobsFlat w (containerOf src) (prefixOf src)) as [shown|names];
    [discriminate|].
  set (allBlobs := List.filter (fun name => endsWith name ".mhtml") names) in *.
  destruct (Nat.eqb_spec (length allBlobs) 0) as [Hzero|Hsome].
  { intros [= <- _]. constructor. }
  destruct (theDryRun options); [intros [= <- _]; constructor|].
  intros E.
  destruct (batches_invariant w cfg eCLU eSU src options allBlobs
              (fun g t => forall r, t = Settled r -> consistent r)
              (fun _ => True)) with (schedule := schedule) (fuel := length allBlobs)
              (i := 0%nat) (results := @nil IndexingResult)
              (st := log Main (ListBlobs (containerOf src) (prefixOf src)) st0)
    as (new & _ & _ & Hrep).
  - intros g name t st1 Hg Ht.
    destruct (resume_graph w cfg eCLU eSU src (Doc g) name t st1) as (acts & G & T).
    exists (map (pair (Doc g)) acts). split; [exact T|]. split.
    + apply Forall_forall. auto.
    + intros t' Et' r ->. rewrite Et' in G.
      apply Resumes_consistent in G as [->|Hc]; [apply Ht; reflexivity | exact Hc].
  - intros g name _. split; [discriminate | exact I].
  - intros g name _. split; [discriminate | exact I].
  - exact I.
  - simpl. lia.
  - intros g r. rewrite lookup_nil. discriminate.
  - rewrite E in Hrep. destruct (Hrep rep eq_refl) as (rs & -> & Hlen & Hrs). simpl.
    apply Forall_forall. intros r Hin. apply list_elem_of_In in Hin.
    apply list_elem_of_lookup in Hin as [g Hg]. apply (Hrs g r Hg r eq_refl).
Qed.

Lemma results_are_consistent_witness :
  exists rep st',
    indexSourceMhtmlFiles (slowStart 2) defaults noUrl noGuess qast twoByTwo roundRobin
      initial = (Returned rep, st')
    /\ Forall consistent (Report.results rep).
Proof.
  eexists. eexists. split; [vm_compute; reflexivity|].
  eapply (results_are_consistent (slowStart 2) defaults noUrl noGuess qast twoByTwo
            roundRobin initial).
  vm_compute. reflexivity.
Defined.

(** ** POSTs in flight *)

Lemma inFlight_app tr1 tr2 : inFlight (tr1 ++ tr2) = inFlight tr1 + inFlight tr2.
Proof.
  unfold inFlight. induction tr1 as [|[who a] tr1 IH]; simpl; [lia|].
  rewrite IH. destruct a; lia.
Qed.

Lemma Within_nil c base : 0 <= base <= c -> Within c base [].
Proof.
  intros H pre post E. symmetry in E. apply app_eq_nil in E as [-> _]. simpl. lia.
Qed.

Lemma Within_app c base new1 new2 :
  Within c base new1 -> Within c (base + inFlight new1) new2 ->
  Within c base (new1 ++ new2).
Proof.
  intros H1 H2 pre post E.
  apply app_eq_app in E as (l & [[-> ->]|[-> ->]]).
  - apply (H1 pre l). reflexivity.
  - rewrite inFlight_app, Z.add_assoc. apply (H2 l post). reflexivity.
Qed.

Lemma Within_quiet c base new :
  0 <= base <= c ->
  (forall e, In e new -> match snd e with Post _ _ | PostSettled _ => False | _ => True end) ->
  Within c base new /\ inFlight new = 0.
Proof.
  intros Hb. induction new as [|[who a] new IH]; intros Hq.
  - split; [apply Within_nil, Hb | reflexivity].
  - destruct IH as [IH1 IH2]; [intros e He; apply Hq; right; exact He|].
    pose proof (Hq (who, a) (or_introl eq_refl)) as Ha. simpl in Ha.
    assert (Hone : inFlight [(who, a)] = 0) by (destruct a; simpl; tauto || reflexivity).
    split.
    + change ((who, a) :: new) with ([(who, a)] ++ new). apply Within_app.
      * intros pre post E. destruct pre as [|e pre]; simpl; [lia|].
        injection E as <- E. symmetry in E. apply app_eq_nil in E as [-> _].
        change (inFlight [(who, a)]) with (inFlight [(who, a)]) in Hone.
        unfold inFlight in Hone |- *. simpl in *. lia.
      * rewrite Hone, Z.add_0_r. exact IH1.
    + change ((who, a) :: new) with ([(who, a)] ++ new).
      rewrite inFlight_app, Hone, IH2. reflexivity.
Qed.

(** A resumption settles the POST of its member or issues its next one. *)
Lemma Resumes_inFlight cfg src blobName downloaded who t c res acts c' base n :
  Resumes cfg src blobName downloaded t c res acts c' ->
  0 <= base <= n ->
  0 <= base + (match res with Suspended t' => posting t' | Halted _ => 0 end - posting t)
    <= n ->
  Within n base (map (pair who) acts)
  /\ inFlight (map (pair who) acts)
     = match res with Suspended t' => posting t' | Halted _ => 0 end - posting t.
Proof.
  intros G Hb Ha.
  assert (Hpre : forall acts0,
             (forall pre post, acts0 = pre ++ post ->
                inFlight (map (pair who) pre) = 0
                \/ inFlight (map (pair who) pre) = inFlight (map (pair who) acts0)) ->
             0 <= base + inFlight (map (pair who) acts0) <= n ->
             Within n base (map (pair who) acts0)).
  { intros acts0 Hstep Hend pre post E.
    apply map_eq_app in E as (pre0 & post0 & -> & <- & _).
    destruct (Hstep pre0 post0 eq_refl) as [H0|H0];
      match goal with
      | |- _ <= _ + ?x <= _ => replace x with (inFlight (map (pair who) pre0)) by reflexivity
      end; rewrite H0; lia. }
  assert (Htwo : forall a b : Action,
             inFlight [(who, b)] = 0 ->
             forall pre post, [a; b] = pre ++ post ->
               inFlight (map (pair who) pre) = 0
               \/ inFlight (map (pair who) pre) = inFlight (map (pair who) [a; b])).
  { intros a b Hb0 pre post E.
    destruct pre as [|x [|y [|z pre]]]; simpl in E.
    - left. reflexivity.
    - injection E as <- _. right. unfold inFlight in *. simpl in *. destruct a; lia.
    - injection E as <- <- _. right. reflexivity.
    - apply (f_equal (@length Action)) in E. simpl in E. rewrite length_app in E. lia. }
  assert (Hone : forall a : Action,
             forall pre post, [a] = pre ++ post ->
               inFlight (map (pair who) pre) = 0
               \/ inFlight (map (pair who) pre) = inFlight (map (pair who) [a])).
  { intros a pre post E. destruct pre as [|x [|y pre]]; simpl in E.
    - left. reflexivity.
    - injection E as <- _. right. reflexivity.
    - apply (f_equal (@length Action)) in E. simpl in E. rewrite length_app in E. lia. }
  inversion G; subst; cbn [posting] in Ha |- *;
    (split; [apply Hpre; [first [apply Htwo; reflexivity | apply Hone |
                                 intros pre post E; symmetry in E;
                                 apply app_eq_nil in E as [-> _]; left; reflexivity]
                         | unfold inFlight; simpl; lia]
           | unfold inFlight; simpl; lia]).
Qed.

Lemma postingAmong_insert tasks :
  forall index t t',
    tasks !! index = Some t ->
    postingAmong (<[index:=t']> tasks) = postingAmong tasks - posting t + posting t'.
Proof.
  induction tasks as [|t0 tasks IH]; intros index t t' H; [discriminate|].
  destruct index as [|index]; simpl in *.
  - injection H as ->. lia.
  - rewrite (IH _ _ _ H). lia.
Qed.

Lemma postingAmong_bounds tasks : 0 <= postingAmong tasks <= Z.of_nat (length tasks).
Proof.
  induction tasks as [|t tasks IH]; simpl; [lia|].
  assert (0 <= posting t <= 1) by (destruct t; simpl; lia). lia.
Qed.

Lemma postingAmong_settled rs : postingAmong (map Settled rs) = 0.
Proof. induction rs as [|r rs IH]; simpl; [reflexivity | exact IH]. Qed.

Section InFlight.
Variable w : World.
Variable cfg : Config.
Variable extractContentLocationUrl : string -> option string.
Variable extractSourceUrl : Source -> string -> option string.
Variable src : Source.
Variable options : Options.

Lemma startBatch_quiet i batch :
  forall index st,
    exists new,
      trace (snd (startBatch cfg options i index batch st)) = trace st ++ new
      /\ (forall e, In e new ->
            match snd e with Post _ _ | PostSettled _ => False | _ => True end)
      /\ postingAmong (fst (startBatch cfg options i index batch st)) = 0.
Proof.
  induction batch as [|blobName batch IH]; intros index st; simpl.
  - exists []. rewrite app_nil_r. repeat split. intros e [].
  - set (first := if (0 <? index)%nat
                  then (AwaitDelay, log (Doc (i + index)) (Sleep (theDelayMs cfg options)) st)
                  else (AwaitDownload, log (Doc (i + index)) (Download blobName) st)).
    assert (Hfirst : exists t a,
               first = (t, log (Doc (i + index)) a st)
               /\ posting t = 0
               /\ match a with Post _ _ | PostSettled _ => False | _ => True end).
    { unfold first. destruct (0 <? index)%nat; eauto 6. }
    destruct Hfirst as (t & a & -> & Ht & Ha).
    destruct (IH (S index) (log (Doc (i + index)) a st)) as (new & T & Hq & Hp).
    destruct (startBatch cfg options i (S index) batch (log (Doc (i + index)) a st))
      as [ts st'].
    simpl in *. exists ((Doc (i + index), a) :: new).
    rewrite T, <- app_assoc. split; [reflexivity|]. split.
    + intros e [<-|He]; [exact Ha | apply Hq, He].
    + rewrite Ht, Hp. reflexivity.
Qed.

Lemma resumeBatch_inFlight i batch schedule :
  forall tasks st,
    exists new,
      trace (snd (resumeBatch w cfg extractContentLocationUrl extractSourceUrl src
                    i batch schedule tasks st)) = trace st ++ new
      /\ Within (Z.of_nat (length tasks)) (postingAmong tasks) new
      /\ forall tasks',
           fst (resumeBatch w cfg extractContentLocationUrl extractSourceUrl src
                  i batch schedule tasks st) = Running tasks' ->
           postingAmong tasks + inFlight new = postingAmong tasks'.
Proof.
  induction schedule as [|index schedule IH]; intros tasks st; simpl.
  - exists []. rewrite app_nil_r. split; [reflexivity|]. split.
    + apply Within_nil, postingAmong_bounds.
    + intros tasks' [= <-]. simpl. lia.
  - destruct (batch !! index) as [blobName|] eqn:Eb; [|apply IH].
    destruct (tasks !! index) as [t|] eqn:Et; [|apply IH].
    destruct (resume_graph w cfg extractContentLocationUrl extractSourceUrl src
                (Doc (i + index)) blobName t st) as (acts & G & T1).
    pose proof (postingAmong_bounds tasks) as Hb.
    destruct (resume w cfg extractContentLocationUrl extractSourceUrl src
                (Doc (i + index)) blobName t st) as [[t'|code] st1]; simpl in *.
    + pose proof (postingAmong_insert tasks index t t' Et) as Hins.
      pose proof (postingAmong_bounds (<[index:=t']> tasks)) as Hb'.
      rewrite length_insert in Hb'.
      destruct (Resumes_inFlight _ _ _ _ (Doc (i + index)) _ _ _ _ _
                  (postingAmong tasks) (Z.of_nat (length tasks)) G Hb) as [W1 D1];
        [lia|].
      destruct (IH (<[index:=t']> tasks) st1) as (new2 & T2 & W2 & D2).
      rewrite length_insert in W2.
      exists (map (pair (Doc (i + index))) acts ++ new2).
      rewrite T2, T1, app_assoc. split; [reflexivity|]. split.
      * apply Within_app; [exact W1|].
        replace (postingAmong tasks + inFlight (map (pair (Doc (i + index))) acts))
          with (postingAmong (<[index:=t']> tasks)) by lia.
        exact W2.
      * intros tasks' E. rewrite inFlight_app. specialize (D2 tasks' E). lia.
    + assert (Ht : posting t = 1) by (inversion G; reflexivity).
      assert (Hsome : 1 <= postingAmong tasks).
      { clear -Et Ht. revert index Et. induction tasks as [|t0 tasks IHt]; intros index Et;
          [discriminate|].
        destruct index as [|index]; simpl in *.
        - injection Et as ->. pose proof (postingAmong_bounds tasks). lia.
        - specialize (IHt _ Et). assert (0 <= posting t0) by (destruct t0; simpl; lia). lia. }
      destruct (Resumes_inFlight _ _ _ _ (Doc (i + index)) _ _ _ _ _
                  (postingAmong tasks) (Z.of_nat (length tasks)) G Hb) as [W1 D1];
        [lia|].
      exists (map (pair (Doc (i + index))) acts). split; [exact T1|]. split; [exact W1|].
      intros tasks' [=].
Qed.

Lemma batches_inFlight schedule allBlobs fuel :
  forall i results st,
    exists new,
      trace (snd (batches w cfg extractContentLocationUrl extractSourceUrl src options
                    schedule allBlobs fuel i results st)) = trace st ++ new
      /\ Within (Z.of_nat (theConcurrency cfg options)) 0 new
      /\ forall rep,
           fst (batches w cfg extractContentLocationUrl extractSourceUrl src options
                  schedule allBlobs fuel i results st) = Returned rep ->
           inFlight new = 0.
Proof.
  assert (Hnil : Within (Z.of_nat (theConcurrency cfg options)) 0 [])
    by (apply Within_nil; lia).
  induction fuel as [|fuel IH]; intros i results st; simpl.
  - destruct (i <? length allBlobs)%nat; simpl; exists []; rewrite app_nil_r;
      (split; [reflexivity|]); (split; [exact Hnil|]); reflexivity.
  - destruct (Nat.ltb_spec i (length allBlobs)) as [Hi|Hi];
      [|exists []; simpl; rewrite app_nil_r; split; [reflexivity|];
        split; [exact Hnil | reflexivity]].
    set (c := theConcurrency cfg options) in *.
    set (batch := slice i (i + c) allBlobs) in *.
    assert (Hbatch : length batch = Nat.min c (length allBlobs - i))
      by apply slice_length.
    destruct (startBatch_quiet i batch 0%nat st) as (new1 & T1 & Q1 & P1).
    pose proof (startBatch_length cfg options i batch 0%nat st) as Hl1.
    destruct (startBatch cfg options i 0 batch st) as [tasks st1]. simpl in *.
    destruct (Within_quiet (Z.of_nat c) 0 new1 ltac:(lia) Q1) as [W1 D1].
    destruct (resumeBatch_inFlight i batch (schedule i) tasks st1)
      as (new2 & T2 & W2 & D2).
    rewrite P1 in W2, D2.
    assert (W2' : Within (Z.of_nat c) 0 new2).
    { intros pre post E. specialize (W2 pre post E). lia. }
    assert (W12 : Within (Z.of_nat c) 0 (new1 ++ new2)).
    { apply Within_app; [exact W1|]. rewrite D1. exact W2'. }
    destruct (resumeBatch w cfg extractContentLocationUrl extractSourceUrl src
                i batch (schedule i) tasks st1) as [[tasks'|code] st2]; simpl in *.
    + specialize (D2 tasks' eq_refl).
      destruct (allSettled tasks') as [batchResults|] eqn:Eall.
      * apply allSettled_tasks in Eall. rewrite Eall, postingAmong_settled in D2.
        set (pause := if (i + c <? length allBlobs)%nat then [(Main, Sleep 500)] else []).
        assert (Hpause : inFlight pause = 0)
          by (unfold pause; destruct (i + c <? length allBlobs)%nat; reflexivity).
        assert (Wp : Within (Z.of_nat c) 0 pause).
        { apply Within_quiet; [lia|]. unfold pause.
          destruct (i + c <? length allBlobs)%nat; [|intros e []].
          intros e [<-|[]]. exact I. }
        match goal with
        | |- context [batches _ _ _ _ _ _ _ _ fuel _ ?rs ?s] =>
            assert (T3 : trace s = trace st2 ++ pause)
              by (unfold pause; destruct (i + c <? length allBlobs)%nat; simpl;
                  [reflexivity | rewrite app_nil_r; reflexivity]);
            destruct (IH (i + c)%nat rs s) as (new3 & T4 & W4 & D4)
        end.
        exists ((new1 ++ new2) ++ pause ++ new3).
        rewrite T4, T3, T2, T1, <- !app_assoc. split; [reflexivity|]. split.
        -- rewrite !app_assoc, <- (app_assoc (new1 ++ new2)).
           apply Within_app; [exact W12|].
           rewrite inFlight_app, D1. replace (0 + (0 + inFlight new2)) with 0 by lia.
           apply Within_app; [exact Wp|]. rewrite Hpause. exact W4.
        -- intros rep Hrep. rewrite !inFlight_app, D1, Hpause, (D4 rep Hrep). lia.
      * exists (new1 ++ new2). simpl. rewrite T2, T1, <- app_assoc.
        split; [reflexivity|]. split; [exact W12|]. intros rep [=].
    + exists (new1 ++ new2). simpl. rewrite T2, T1, <- app_assoc.
      split; [reflexivity|]. split; [exact W12|]. intros rep [=].
Qed.

End InFlight.

(** X24. The concurrency level bounds the POSTs in flight.  At every moment
    of the run of a partition, whatever the endpoint answers, whatever the
    order of completion and however the run ends, the number of POSTs that
    are issued and not yet settled is at most the concurrency level; when
    the run returns a report, none is left in flight. *)
Theorem posts_in_flight_bounded :
  forall w cfg extractContentLocationUrl extractSourceUrl src options schedule st,
    exists new,
      trace (snd (indexSourceMhtmlFiles w cfg extractContentLocationUrl extractSourceUrl
                    src options schedule st)) = trace st ++ new
      /\ (forall pre post,
            new = pre ++ post ->
            0 <= inFlight pre <= Z.of_nat (theConcurrency cfg options))
      /\ forall rep,
           fst (indexSourceMhtmlFiles w cfg extractContentLocationUrl extractSourceUrl
                  src options schedule st) = Returned rep ->
           inFlight new = 0.
Proof.
  intros w cfg eCLU eSU src options schedule st.
  set (c := Z.of_nat (theConcurrency cfg options)).
  assert (Hgoal : forall new,
             Within c 0 new ->
             forall pre post, new = pre ++ post -> 0 <= inFlight pre <= c).
  { intros new W pre post E. specialize (W pre post E). lia. }
  unfold indexSourceMhtmlFiles.
  set (st0 := if theDryRun options then (None, st)
              else (getProperties w, log Main GetProperties st)).
  assert (H0 : exists pre, trace (snd st0) = trace st ++ pre
                           /\ Within c 0 pre /\ inFlight pre = 0).
  { unfold st0. destruct (theDryRun options); simpl.
    - exists []. rewrite app_nil_r. split; [reflexivity|].
      apply Within_quiet; [lia | intros e []].
    - exists [(Main, GetProperties)]. split; [reflexivity|].
      apply Within_quiet; [lia|]. intros e [<-|[]]. exact I. }
  destruct st0 as [connected st1]. destruct H0 as (pre & T0 & W0 & D0). simpl in T0.
  destruct connected as [shown|].
  { exists pre. split; [exact T0|]. split; [apply Hgoal, W0 | intros rep [=]]. }
  set (listing := [(Main, ListBlobs (containerOf src) (prefixOf src))]).
  assert (Wl : Within c 0 listing /\ inFlight listing = 0).
  { apply Within_quiet; [lia|]. intros e [<-|[]]. exact I. }
  destruct Wl as [Wl Dl].
  assert (Wpl : Within c 0 (pre ++ listing))
    by (apply Within_app; [exact W0 | rewrite D0; exact Wl]).
  assert (Hstop : forall A (o : Outcome A),
             exists new,
               trace (snd (o, log Main (ListBlobs (containerOf src) (prefixOf src)) st1))
               = trace st ++ new
               /\ (forall pre post, new = pre ++ post -> 0 <= inFlight pre <= c)
               /\ inFlight new = 0).
  { intros A o. exists (pre ++ listing). simpl. rewrite T0, <- app_assoc.
    split; [reflexivity|]. split; [apply Hgoal, Wpl|].
    rewrite inFlight_app, D0, Dl. reflexivity. }
  destruct (listBlobsFlat w (containerOf src) (prefixOf src)) as [shown|names].
  { destruct (Hstop _ (@Threw Report.t shown)) as (new & T & W & D).
    exists new. split; [exact T|]. split; [exact W | intros rep [=]]. }
  set (allBlobs := List.filter (fun name => endsWith name ".mhtml") names).
  destruct (length allBlobs =? 0)%nat.
  { match goal with
    | |- context [(Returned ?r, _)] => destruct (Hstop _ (Returned r)) as (new & T & W & D)
    end.
    exists new. split; [exact T|]. split; [exact W | intros rep _; exact D]. }
  destruct (theDryRun options).
  { match goal with
    | |- context [(Returned ?r, _)] => destruct (Hstop _ (Returned r)) as (new & T & W & D)
    end.
    exists new. split; [exact T|]. split; [exact W | intros rep _; exact D]. }
  destruct (batches_inFlight w cfg eCLU eSU src options schedule allBlobs (length allBlobs)
              0%nat [] (log Main (ListBlobs (containerOf src) (prefixOf src)) st1))
    as (new & T & W & D).
  exists ((pre ++ listing) ++ new).
  rewrite T. simpl. rewrite T0, <- !app_assoc. split; [reflexivity|]. split.
  - apply Hgoal. rewrite app_assoc. apply Within_app; [exact Wpl|].
    rewrite inFlight_app, D0, Dl. exact W.
  - intros rep Hrep. rewrite !inFlight_app, D0, (D rep Hrep). reflexivity.
Qed.

(** ** The run, batch by batch *)

Section Segments.
Variable w : World.
Variable cfg : Config.
Variable extractContentLocationUrl : string -> option string.
Variable extractSourceUrl : Source -> string -> option string.
Variable src : Source.
Variable options : Options.






Hypothesis positive : (1 <= theConcurrency cfg options)%nat.


End Segments.


